(** * Villager-Bot IPC: a shallow embedding of [util/ipc.py]

    The file [util/ipc.py] implements a length-prefixed JSON protocol: a
    frame codec ([Stream.read_packet], [Stream.write_packet]), a client
    that correlates responses with requests ([Client.request],
    [Client.read_packets]) and a server that authenticates and dispatches
    per connection ([Server.handle_connection]).

    Conventions of the embedding.
    - Python objects that travel in packets are terms of [value]; an [int]
      is a [Z], a [float] is an IEEE 754 double ([spec_float]), printed as
      [float.__repr__] prints it.
    - A Python [str] is a Rocq [string], read as a sequence of code points
      below 256.
    - A Python [dict] that is serialised keeps its insertion order, so it is
      an association list; tables that are only looked up ([expected_packets],
      [packet_handlers]) are [gmap]s.
    - A raised exception is the [Raise] branch of [result].
    - Coroutines are cut at their [await]s: one transition of [client_step] or
      [server_step] is the code that runs between two suspension points, and
      the scheduler's choices are the order of the events of a trace. *)

From Stdlib Require Import ZArith NArith String Ascii Bool Lia Permutation.
From Stdlib Require Import Strings.Byte.
From Stdlib Require Import DecimalString DecimalZ DecimalN.
From Stdlib Require Import Floats.SpecFloat.
From stdpp Require Import base option list gmap strings.

Local Open Scope string_scope.
Local Open Scope list_scope.
Set Warnings "-register-all".

(** ** Exceptions *)

Inductive exn :=
| KeyError (key : string)
| AttributeError (name : string)
| TypeError
| ValueError (msg : string)
| StructError.

Inductive result (A : Type) :=
| Ok (a : A)
| Raise (e : exn).
Arguments Ok {A} a.
Arguments Raise {A} e.

Definition bind {A B} (r : result A) (k : A -> result B) : result B :=
  match r with
  | Ok a => k a
  | Raise e => Raise e
  end.

Notation "x <- r ;; k" := (bind r (fun x => k))
  (at level 100, r at next level, right associativity, only parsing).

Definition result_mapM {A B} (f : A -> result B) : list A -> result (list B) :=
  fix go (l : list A) : result (list B) :=
    match l with
    | [] => Ok []
    | a :: l' => b <- f a ;; bs <- go l' ;; Ok (b :: bs)
    end.

(** ** Python values *)

Inductive value :=
| VNone
| VBool (b : bool)
| VInt (z : Z)
| VStr (s : string)
| VList (l : list value)
| VDict (d : list (string * value))
| VSet (l : list value)
| VFloat (f : spec_float).

(** A Python [float] is an IEEE 754 double: a [spec_float] that is valid
    for a mantissa of 53 bits and an exponent below 1024. *)
Definition float64 (f : spec_float) : bool := valid_binary 53 1024 f.

(** The number [m * 2^e] a float that is zero or finite stands for, as the
    pair of [m] and [e]. *)
Definition float_exact (f : spec_float) : option (Z * Z) :=
  match f with
  | S754_zero _ => Some (0, 0)%Z
  | S754_finite s m e => Some (if s then Zneg m else Zpos m, e)
  | S754_infinity _ | S754_nan => None
  end.

Definition exact_eqb (x y : Z * Z) : bool :=
  (x.1 * 2 ^ (x.2 - Z.min x.2 y.2) =? y.1 * 2 ^ (y.2 - Z.min x.2 y.2))%Z.

(** [x == y] on floats: NaN equals nothing, the two zeros are equal. *)
Definition float_eqb (x y : spec_float) : bool :=
  match x, y with
  | S754_nan, _ | _, S754_nan => false
  | S754_infinity s, S754_infinity s' => Bool.eqb s s'
  | _, _ =>
      match float_exact x, float_exact y with
      | Some a, Some b => exact_eqb a b
      | _, _ => false
      end
  end.

(** [x == z] for a float and an [int]: Python compares the two numbers
    exactly. *)
Definition float_eq_Z (x : spec_float) (z : Z) : bool :=
  match float_exact x with
  | Some a => exact_eqb a (z, 0%Z)
  | None => false
  end.

(** [d.get(k)], [d[k] = v] and [k in d] on an insertion-ordered dict with
    string keys. Assigning to an existing key keeps its position. *)
Fixpoint dict_get {V} (k : string) (d : list (string * V)) : option V :=
  match d with
  | [] => None
  | (k', v) :: d' => if String.eqb k k' then Some v else dict_get k d'
  end.

Fixpoint dict_set {V} (k : string) (v : V) (d : list (string * V)) : list (string * V) :=
  match d with
  | [] => [(k, v)]
  | (k', v') :: d' =>
      if String.eqb k k' then (k', v) :: d' else (k', v') :: dict_set k v d'
  end.

Definition dict_mem {V} (k : string) (d : list (string * V)) : bool :=
  match dict_get k d with Some _ => true | None => false end.

(** [dict(pairs)]: later pairs overwrite earlier ones. *)
Definition dict_of_pairs {V} (pairs : list (string * V)) : list (string * V) :=
  fold_left (fun d kv => dict_set kv.1 kv.2 d) pairs [].

(** Python's [==] on the values of the embedding. [True == 1] and
    [1 == 1.0] hold in Python, lists compare element by element, dicts by
    their key sets and the values under each key, sets by mutual
    inclusion. Values are compared, not objects: the shortcut containers
    take for a member that is the same object on both sides, which is
    observable for NaN alone, is not modelled. *)
Fixpoint py_eq (a b : value) {struct a} : bool :=
  match a, b with
  | VNone, VNone => true
  | VBool x, VBool y => Bool.eqb x y
  | VBool x, VInt y => Z.eqb (Z.b2z x) y
  | VInt x, VBool y => Z.eqb x (Z.b2z y)
  | VInt x, VInt y => Z.eqb x y
  | VFloat x, VFloat y => float_eqb x y
  | VFloat x, VInt y => float_eq_Z x y
  | VInt x, VFloat y => float_eq_Z y x
  | VFloat x, VBool y => float_eq_Z x (Z.b2z y)
  | VBool x, VFloat y => float_eq_Z y (Z.b2z x)
  | VStr x, VStr y => String.eqb x y
  | VList xs, VList ys =>
      (fix go (xs ys : list value) {struct xs} : bool :=
         match xs, ys with
         | [], [] => true
         | x :: xs', y :: ys' => py_eq x y && go xs' ys'
         | _, _ => false
         end) xs ys
  | VDict d1, VDict d2 =>
      Nat.eqb (length d1) (length d2)
      && forallb (fun kv => match dict_get kv.1 d2 with
                            | Some v2 => py_eq kv.2 v2
                            | None => false
                            end) d1
  | VSet s1, VSet s2 =>
      forallb (fun x => existsb (fun y => py_eq x y) s2) s1
      && forallb (fun y => existsb (fun x => py_eq x y) s1) s2
  | _, _ => false
  end.

(** Objects with a [__hash__]: lists, dicts and sets have none. *)
Definition hashable (v : value) : bool :=
  match v with
  | VNone | VBool _ | VInt _ | VStr _ | VFloat _ => true
  | VList _ | VDict _ | VSet _ => false
  end.

(** [s.add(x)] on the element list of a set. *)
Definition set_add (s : list value) (x : value) : list value :=
  if existsb (fun y => py_eq y x) s then s else s ++ [x].

(** [iter(v)]: what a constructor such as [set(v)] or [list(v)] walks. *)
Definition py_iter (v : value) : result (list value) :=
  match v with
  | VList l => Ok l
  | VSet l => Ok l
  | VDict d => Ok (map (fun kv => VStr kv.1) d)
  | VStr s => Ok (map (fun c => VStr (String c EmptyString)) (list_ascii_of_string s))
  | VNone | VBool _ | VInt _ | VFloat _ => Raise TypeError
  end.

(** [set(v)]. Python fixes no iteration order for the new set: [order] is
    the order this set object will be iterated in. *)
Definition py_set (order : list value -> list value) (v : value) : result value :=
  l <- py_iter v ;;
  if forallb hashable l then Ok (VSet (order (fold_left set_add l [])))
  else Raise TypeError.

(** Attribute access on a decoded packet. [classyjson.loads] returns
    [ClassyDict]s, whose attribute lookup is [dict.__getitem__]; the names
    used by [ipc.py] ([id], [type]) are no methods of [dict]. *)
Definition py_getattr (v : value) (name : string) : result value :=
  match v with
  | VDict d =>
      match dict_get name d with
      | Some x => Ok x
      | None => Raise (KeyError name)
      end
  | _ => Raise (AttributeError name)
  end.

(** [packet.get(key, None)] *)
Definition py_get (v : value) (key : string) : result value :=
  match v with
  | VDict d => Ok (default VNone (dict_get key d))
  | _ => Raise (AttributeError "get")
  end.

(** [packet[key] = x] *)
Definition py_setitem (v : value) (key : string) (x : value) : result value :=
  match v with
  | VDict d => Ok (VDict (dict_set key x d))
  | _ => Raise TypeError
  end.

(** ** JSON documents and the two hooks of [ipc.py] *)

Inductive json :=
| JNull
| JBool (b : bool)
| JNum (z : Z)
| JStr (s : string)
| JArr (l : list json)
| JObj (o : list (string * json))
| JFloat (f : spec_float).

(** [CustomJSONEncoder.default]: called by the encoder on an object it
    cannot serialise; the object it returns is encoded in its place. *)
Definition CustomJSONEncoder_default (obj : value) : result value :=
  match obj with
  | VSet l => Ok (VDict [("_set_object", VList l)])
  | _ => Raise TypeError
  end.

(** The document [json.dumps(v, cls=CustomJSONEncoder)] writes. The
    [VSet] case is the encoding of what [CustomJSONEncoder_default]
    returns (lemma [to_json_default]). *)
Fixpoint to_json (v : value) : json :=
  match v with
  | VNone => JNull
  | VBool b => JBool b
  | VInt z => JNum z
  | VStr s => JStr s
  | VList l => JArr (map to_json l)
  | VDict d => JObj (map (fun kv => (kv.1, to_json kv.2)) d)
  | VSet l => JObj [("_set_object", JArr (map to_json l))]
  | VFloat f => JFloat f
  end.

(** [special_obj_hook] *)
Definition special_obj_hook (order : list value -> list value)
    (dct : list (string * value)) : result value :=
  if dict_mem "_set_object" dct
  then py_set order (default VNone (dict_get "_set_object" dct))
  else Ok (VDict dct).

(** The object [json.loads(text, object_hook=special_obj_hook)] builds from
    a document: the hook is called on every object once its members are
    built, innermost first. *)
Fixpoint from_json (order : list value -> list value) (j : json) : result value :=
  match j with
  | JNull => Ok VNone
  | JBool b => Ok (VBool b)
  | JNum z => Ok (VInt z)
  | JStr s => Ok (VStr s)
  | JArr l => vs <- result_mapM (from_json order) l ;; Ok (VList vs)
  | JObj o =>
      pairs <- result_mapM (fun kv => v <- from_json order kv.2 ;; Ok (kv.1, v)) o ;;
      special_obj_hook order (dict_of_pairs pairs)
  | JFloat f => Ok (VFloat f)
  end.

(** ** The text of a document, as [json.dumps] prints it *)

Definition hex_digit (n : N) : ascii :=
  match n with
  | 0 => "0" | 1 => "1" | 2 => "2" | 3 => "3" | 4 => "4" | 5 => "5" | 6 => "6"
  | 7 => "7" | 8 => "8" | 9 => "9" | 10 => "a" | 11 => "b" | 12 => "c"
  | 13 => "d" | 14 => "e" | _ => "f"
  end%N%char.

Definition backslash : ascii := ascii_of_N 92.
Definition dquote : ascii := ascii_of_N 34.

(** One character under [json.encoder.ESCAPE_ASCII] ([ensure_ascii=True]). *)
Definition escape_char (c : ascii) : string :=
  let n := N_of_ascii c in
  let esc (x : ascii) := String backslash (String x EmptyString) in
  if (n =? 92)%N then esc backslash
  else if (n =? 34)%N then esc dquote
  else if (n =? 8)%N then esc "b"%char
  else if (n =? 12)%N then esc "f"%char
  else if (n =? 10)%N then esc "n"%char
  else if (n =? 13)%N then esc "r"%char
  else if (n =? 9)%N then esc "t"%char
  else if ((32 <=? n) && (n <=? 126))%N then String c EmptyString
  else String backslash
         (String "u" (String "0" (String "0"
            (String (hex_digit (n / 16)) (String (hex_digit (n mod 16)) EmptyString))))).

Fixpoint escape_string (s : string) : string :=
  match s with
  | EmptyString => EmptyString
  | String c s' => escape_char c +:+ escape_string s'
  end.

Definition json_string (s : string) : string :=
  String dquote (escape_string s +:+ String dquote EmptyString).

Definition string_of_Z (z : Z) : string := NilZero.string_of_int (Z.to_int z).

(** ** The text of a float *)

(** [b^k] and [b^(-k)] for a [k] that may be negative: one of the two is
    1. *)
Definition pow_up (b k : Z) : Z := (b ^ Z.max k 0)%Z.
Definition pow_down (b k : Z) : Z := (b ^ Z.max (- k) 0)%Z.

(** The sign of [d * 10^k - x * 2^e]. *)
Definition compare_scaled (d k x e : Z) : comparison :=
  (d * pow_up 10 k * pow_down 2 e ?= x * pow_up 2 e * pow_down 10 k)%Z.

(** The largest [p] with [10^p <= m * 2^e], from an estimate. *)
Fixpoint log10_up (fuel : nat) (m e p : Z) : Z :=
  match fuel with
  | O => p
  | S fuel' =>
      match compare_scaled 1 (p + 1) m e with
      | Gt => p
      | _ => log10_up fuel' m e (p + 1)%Z
      end
  end.

Fixpoint log10_down (fuel : nat) (m e p : Z) : Z :=
  match fuel with
  | O => p
  | S fuel' =>
      match compare_scaled 1 p m e with
      | Gt => log10_down fuel' m e (p - 1)%Z
      | _ => p
      end
  end.

Definition floor_log10 (m e : Z) : Z :=
  log10_up 4 m e (log10_down 4 m e ((Z.log2 m + e) * 30103 / 100000)%Z).

(** Whether the decimal [d * 10^k] is read back as the double [m * 2^e]:
    it lies between the midpoints to the neighbouring doubles, the
    midpoints themselves included when [m] is even. *)
Definition reads_back (m e d k : Z) : bool :=
  let below := if ((m =? 2 ^ 52) && (-1074 <? e))%Z then 1%Z else 2%Z in
  match compare_scaled d k (4 * m - below) (e - 2),
        compare_scaled d k (4 * m + 2) (e - 2) with
  | Gt, Lt => true
  | Eq, Lt | Gt, Eq => Z.even m
  | _, _ => false
  end.

(** The decimal with [n] significant digits nearest to [m * 2^e], if it is
    read back as that double: its digits and the power of ten of the last
    one. *)
Definition nearest_decimal (m e p n : Z) : option (Z * Z) :=
  let k := (p - n + 1)%Z in
  let num := (m * pow_up 2 e * pow_down 10 k)%Z in
  let den := (pow_down 2 e * pow_up 10 k)%Z in
  let d := (num / den)%Z in
  let lo := reads_back m e d k in
  let hi := reads_back m e (d + 1) k in
  let nearer := match (2 * (num mod den) ?= den)%Z with
                | Lt => true
                | Gt => false
                | Eq => Z.even d
                end in
  if lo && hi then Some (if nearer then d else (d + 1)%Z, k)
  else if lo then Some (d, k)
  else if hi then Some ((d + 1)%Z, k)
  else None.

(** The shortest decimal that is read back as [m * 2^e], and among those
    the nearest: what [repr] prints since Python 3.1. *)
Fixpoint shortest_decimal (fuel : nat) (m e p n : Z) : Z * Z :=
  match fuel with
  | O => (m, 0%Z)
  | S fuel' =>
      match nearest_decimal m e p n with
      | Some dk => dk
      | None => shortest_decimal fuel' m e p (n + 1)%Z
      end
  end.

Fixpoint strip_zeros (fuel : nat) (d k : Z) : Z * Z :=
  match fuel with
  | O => (d, k)
  | S fuel' =>
      if ((d mod 10 =? 0) && (0 <? d))%Z then strip_zeros fuel' (d / 10)%Z (k + 1)%Z
      else (d, k)
  end.

Definition zero_digits (n : Z) : string :=
  string_of_list_ascii (repeat "0"%char (Z.to_nat n)).

(** The format [r] of [float.__repr__] on the digits of a number and the
    position of its decimal point: exponent notation when the point is
    more than 16 places to the right of the first digit or more than 3
    places to its left. *)
Definition format_repr (digits : string) (decpt : Z) : string :=
  let n := Z.of_nat (String.length digits) in
  if ((decpt <=? -4) || (16 <? decpt))%Z then
    let mantissa :=
      match digits with
      | String c (String c' rest) => String c (String "."%char (String c' rest))
      | _ => digits
      end in
    mantissa +:+ "e" +:+ (if (decpt - 1 <? 0)%Z then "-" else "+")
    +:+ (if (Z.abs (decpt - 1) <? 10)%Z then "0" else EmptyString)
    +:+ NilZero.string_of_uint (N.to_uint (Z.to_N (Z.abs (decpt - 1))))
  else if (decpt <=? 0)%Z then
    "0." +:+ zero_digits (- decpt) +:+ digits
  else if (decpt <? n)%Z then
    string_of_list_ascii (take (Z.to_nat decpt) (list_ascii_of_string digits))
    +:+ "." +:+
    string_of_list_ascii (drop (Z.to_nat decpt) (list_ascii_of_string digits))
  else
    digits +:+ zero_digits (decpt - n) +:+ ".0".

Definition repr_finite (m : positive) (e : Z) : string :=
  let '(d, k) := shortest_decimal 17 (Zpos m) e (floor_log10 (Zpos m) e) 1 in
  let '(d, k) := strip_zeros 20 d k in
  let digits := NilZero.string_of_uint (N.to_uint (Z.to_N d)) in
  format_repr digits (Z.of_nat (String.length digits) + k)%Z.

(** [float.__repr__] *)
Definition float_repr (f : spec_float) : string :=
  match f with
  | S754_nan => "nan"
  | S754_infinity s => if s then "-inf" else "inf"
  | S754_zero s => if s then "-0.0" else "0.0"
  | S754_finite s m e => (if s then "-" else EmptyString) +:+ repr_finite m e
  end.

(** The text [json.dumps] writes for a float, [allow_nan] being left at
    its default. *)
Definition json_float (f : spec_float) : string :=
  match f with
  | S754_nan => "NaN"
  | S754_infinity s => if s then "-Infinity" else "Infinity"
  | S754_zero _ | S754_finite _ _ _ => float_repr f
  end.

Fixpoint json_text (j : json) : string :=
  match j with
  | JNull => "null"
  | JBool true => "true"
  | JBool false => "false"
  | JNum z => string_of_Z z
  | JStr s => json_string s
  | JArr l => "[" +:+ String.concat ", " (map json_text l) +:+ "]"
  | JObj o =>
      "{" +:+ String.concat ", "
                (map (fun kv => json_string kv.1 +:+ ": " +:+ json_text kv.2) o)
          +:+ "}"
  | JFloat f => json_float f
  end.

(** [cj.dumps(data, cls=CustomJSONEncoder).encode()] *)
Definition dumps (data : value) : list byte :=
  list_byte_of_string (json_text (to_json data)).

(** [cj.loads(data, object_hook=special_obj_hook)]. The parser of the
    [json] library, from bytes to a document, is the parameter [parse];
    the objects are then built with the hook. *)
Definition cj_loads (parse : list byte -> result json)
    (order : list value -> list value) (data : list byte) : result value :=
  j <- parse data ;; from_json order j.

(** ** [struct.pack(">i", n)] and [struct.unpack(">i", b)] *)

(** [struct.calcsize(">i")] *)
Definition LENGTH_LENGTH : Z := 4.

Definition byte_of_Z (z : Z) : byte :=
  default x00 (Byte.of_N (Z.to_N (z mod 256))).

Definition Z_of_byte (b : byte) : Z := Z.of_N (Byte.to_N b).

(** The four low bytes of an integer in two's complement, most significant
    byte first. *)
Definition int32_bytes (n : Z) : list byte :=
  [byte_of_Z (Z.shiftr n 24); byte_of_Z (Z.shiftr n 16);
   byte_of_Z (Z.shiftr n 8); byte_of_Z n].

(** A signed 32-bit integer, most significant byte first. [struct.error]
    is raised for an integer outside [-2^31, 2^31). *)
Definition struct_pack_i (n : Z) : result (list byte) :=
  if ((- 2 ^ 31 <=? n) && (n <? 2 ^ 31))%Z
  then Ok (int32_bytes n)
  else Raise StructError.

(** [struct.error] is raised unless the buffer has exactly four bytes. *)
Definition struct_unpack_i (b : list byte) : result Z :=
  match b with
  | [b3; b2; b1; b0] =>
      let u := (((Z_of_byte b3 * 256 + Z_of_byte b2) * 256 + Z_of_byte b1) * 256
                + Z_of_byte b0)%Z in
      Ok (if (u <? 2 ^ 31)%Z then u else (u - 2 ^ 32)%Z)
  | _ => Raise StructError
  end.

(** The value of a byte string read as an unsigned big-endian number. *)
Definition big_endian (b : list byte) : Z :=
  fold_left (fun acc x => (acc * 256 + Z_of_byte x)%Z) b 0%Z.

(** ** [asyncio.StreamReader] and [Stream] *)

(** The input of a connection is the list of the chunks the transport
    delivers, in order, up to the end of the stream: the head chunk is what
    the reader's buffer holds when a read is served.

    [StreamReader.read(n)] returns at most [n] of the buffered bytes as soon
    as one byte is buffered, the empty byte string at the end of the stream,
    the empty byte string at once for [n = 0], and everything up to the end
    of the stream for a negative [n]. *)
Fixpoint reader_read (n : Z) (r : list (list byte)) : list byte * list (list byte) :=
  match r with
  | [] => ([], [])
  | c :: r' =>
      if (n =? 0)%Z then ([], r)
      else if (n <? 0)%Z then (concat r, [])
      else match c with
           | [] => reader_read n r'
           | _ :: _ =>
               (take (Z.to_nat n) c,
                if (Z.of_nat (length c) <=? n)%Z then r' else drop (Z.to_nat n) c :: r')
           end
  end.

(** [Stream]: [reader] is the input still to come, [writer] the bytes
    handed to [StreamWriter.write] so far. [drain_lock] guards only the wait
    for the transport to flush and holds no data. *)
Record Stream := mkStream {
  reader : list (list byte);
  writer : list byte
}.

(** [Stream.write_packet], up to and including [self.writer.write(packet)];
    what follows is the wait for [drain]. *)
Definition write_packet (data : value) (s : Stream) : result unit * Stream :=
  let data := dumps data in
  match struct_pack_i (Z.of_nat (length data)) with
  | Raise e => (Raise e, s)
  | Ok prefix =>
      let packet := prefix ++ data in
      if (65535 <? Z.of_nat (length packet))%Z
      then (Raise (ValueError "Packet is too big to send..."), s)
      else (Ok tt, mkStream (reader s) (writer s ++ packet))
  end.

(** [Stream.read_packet]. [loads] stands for
    [cj.loads(data, object_hook=special_obj_hook)] on the bytes read. *)
Definition read_packet (loads : list byte -> result value) (s : Stream)
    : result value * Stream :=
  let '(hdr, r1) := reader_read LENGTH_LENGTH (reader s) in
  match struct_unpack_i hdr with
  | Raise e => (Raise e, mkStream r1 (writer s))
  | Ok len =>
      let '(data, r2) := reader_read len r1 in
      (loads data, mkStream r2 (writer s))
  end.

(** The frame of a payload: the bytes [write_packet] appends. *)
Definition frame (data : list byte) : list byte :=
  int32_bytes (Z.of_nat (length data)) ++ data.

(** ** [Client] *)

(** The decimal digits [f"{n}"] prints for a counter value. *)
Definition string_of_N (n : N) : string := NilZero.string_of_uint (N.to_uint n).

(** [x in d] for a table keyed by strings: an unhashable [x] raises, a
    hashable [x] that is no string equals no key. *)
Definition py_in {V} (x : value) (d : gmap string V) : result bool :=
  match x with
  | VStr k => Ok (bool_decide (is_Some (d !! k)))
  | VNone | VBool _ | VInt _ | VFloat _ => Ok false
  | VList _ | VDict _ | VSet _ => Raise TypeError
  end.

(** The state of a client and of the coroutines that run on it.
    - [heap]: the packet objects the callers of [request] own, by address;
    - [events]: the [asyncio.Event] objects created so far ([true] once set),
      an event being named by its index;
    - [expected_packets]: [packet_id ↦ [event, slot]], the slot holding
      [None] or the packet received;
    - [broadcast_tasks]: the packets for which a [handle_broadcast] task was
      created, one entry per task;
    - [read_task]: [None] while [read_packets] runs, the exception that ended
      it otherwise;
    - [waiting]: the [request] calls suspended after their packet was
      written, with their local variables [packet_id] and [event];
    - [finished]: the [request] calls that ended, with [packet_id] and what
      they returned or raised. *)
Record Client := mkClient {
  heap : gmap nat value;
  stream : Stream;
  expected_packets : gmap string (nat * option value);
  events : list bool;
  current_id : N;
  broadcast_tasks : list value;
  read_task : option exn;
  waiting : list (string * nat);
  finished : list (string * result (option value))
}.

(** [Client.__init__] followed by the first two lines of [connect]. *)
Definition new_client (objects : gmap nat value) (s : Stream) : Client :=
  mkClient objects s ∅ [] 0%N [] None [] [].

(** [Client.request] on the object at address [p], from its first line to
    its first suspension: the call is then parked in [waiting], or has
    raised in [write_packet] and is recorded in [finished]. A call whose
    first line raises (the object cannot be assigned to) leaves the client
    as it was, and so does a [p] that is the address of no object. *)
Definition request (p : nat) (c : Client) : Client :=
  match heap c !! p with
  | None => c
  | Some packet =>
      let packet_id := "c" +:+ string_of_N (current_id c) in
      match py_setitem packet "id" (VStr packet_id) with
      | Raise _ => c
      | Ok packet' =>
          let event := length (events c) in
          let table := <[packet_id := (event, None)]> (expected_packets c) in
          match write_packet packet' (stream c) with
          | (Raise e, s) =>
              mkClient (<[p := packet']> (heap c)) s table (events c ++ [false])
                (current_id c + 1)%N (broadcast_tasks c) (read_task c) (waiting c)
                (finished c ++ [(packet_id, Raise e)])
          | (Ok _, s) =>
              mkClient (<[p := packet']> (heap c)) s table (events c ++ [false])
                (current_id c + 1)%N (broadcast_tasks c) (read_task c)
                (waiting c ++ [(packet_id, event)]) (finished c)
          end
      end
  end.

(** One iteration of the loop of [Client.read_packets], [r] being what
    [self.stream.read_packet()] returned or raised. *)
Definition read_packets (r : result value) (c : Client) : Client :=
  let stop (e : exn) :=
    mkClient (heap c) (stream c) (expected_packets c) (events c) (current_id c)
      (broadcast_tasks c) (Some e) (waiting c) (finished c) in
  let broadcast (packet : value) :=
    mkClient (heap c) (stream c) (expected_packets c) (events c) (current_id c)
      (broadcast_tasks c ++ [packet]) (read_task c) (waiting c) (finished c) in
  match r with
  | Raise e => stop e
  | Ok packet =>
      match py_getattr packet "id" with
      | Raise e => stop e
      | Ok id =>
          match py_in id (expected_packets c) with
          | Raise e => stop e
          | Ok false => broadcast packet
          | Ok true =>
              match id with
              | VStr k =>
                  match expected_packets c !! k with
                  | Some (event, _) =>
                      mkClient (heap c) (stream c)
                        (<[k := (event, Some packet)]> (expected_packets c))
                        (<[event := true]> (events c)) (current_id c)
                        (broadcast_tasks c) (read_task c) (waiting c) (finished c)
                  | None => stop (KeyError k)
                  end
              | _ => stop TypeError
              end
          end
      end
  end.

(** The end of [Client.request]: the [i]-th suspended call is resumed once
    its event is set and returns [self.expected_packets[packet_id][1]].
    Nothing happens while the event is not set. *)
Definition resume (i : nat) (c : Client) : Client :=
  match waiting c !! i with
  | None => c
  | Some (packet_id, event) =>
      match events c !! event with
      | Some true =>
          let outcome :=
            match expected_packets c !! packet_id with
            | Some (_, slot) => Ok slot
            | None => Raise (KeyError packet_id)
            end in
          mkClient (heap c) (stream c) (expected_packets c) (events c)
            (current_id c) (broadcast_tasks c) (read_task c)
            (delete i (waiting c)) (finished c ++ [(packet_id, outcome)])
      | _ => c
      end
  end.

Inductive client_event :=
| Request (p : nat)
| Received (r : result value)
| Resumed (i : nat).

(** One scheduling step. [Received r]: the pending [read_packet] of the
    loop of [read_packets] returns or raises [r]; nothing is received once
    that loop has ended. *)
Definition client_step (c : Client) (ev : client_event) : Client :=
  match ev with
  | Request p => request p c
  | Received r =>
      match read_task c with
      | None => read_packets r c
      | Some _ => c
      end
  | Resumed i => resume i c
  end.

Definition client_run (c : Client) (trace : list client_event) : Client :=
  fold_left client_step trace c.

(** ** [Server] *)

(** Where the coroutine [handle_connection] of a connection stands:
    suspended in [stream.read_packet()], suspended in the [drain] of the
    [write_packet] that answered a good [auth] packet (the loop goes on
    afterwards), returned, or ended by an exception. *)
Inductive conn_state :=
| Reading
| Draining
| Returned
| Failed (e : exn).

(** One accepted connection: its [Stream], the local variable [authed] and
    the state of its coroutine. [inbox] holds what the next calls of
    [read_packet] will return or raise, in order of arrival; [packets_read]
    records the packets [read_packet] has returned to the coroutine. *)
Record Connection := mkConnection {
  conn_stream : Stream;
  inbox : list (result value);
  authed : bool;
  state : conn_state;
  packets_read : list value
}.

(** A server with handlers of type [H]. A [Stream] object is named by its
    index in [streams]; [connections] is [self.connections];
    [handler_tasks] lists the tasks created at the last line of
    [handle_connection]: handler, stream, packet. *)
Record Server (H : Type) := mkServer {
  auth : string;
  packet_handlers : gmap string H;
  closing : bool;
  connections : list nat;
  streams : list Connection;
  handler_tasks : list (H * nat * value)
}.
Arguments mkServer {H}.
Arguments auth {H}.
Arguments packet_handlers {H}.
Arguments closing {H}.
Arguments connections {H}.
Arguments streams {H}.
Arguments handler_tasks {H}.

(** [Server.__init__] *)
Definition new_server {H} (secret : string) (handlers : gmap string H) : Server H :=
  mkServer secret handlers false [] [] [].

(** [l.remove(x)]: drops the first occurrence, raises [ValueError] when
    there is none. *)
Fixpoint list_remove (x : nat) (l : list nat) : result (list nat) :=
  match l with
  | [] => Raise (ValueError "list.remove(x): x not in list")
  | y :: l' =>
      if Nat.eqb x y then Ok l'
      else l'' <- list_remove x l' ;; Ok (y :: l'')
  end.

(** [d.get(key, fallback)] for a table keyed by strings. *)
Definition py_dict_get {V} (d : gmap string V) (key : value) (fallback : V) : result V :=
  match key with
  | VStr k => Ok (default fallback (d !! k))
  | VNone | VBool _ | VInt _ | VFloat _ => Ok fallback
  | VList _ | VDict _ | VSet _ => Raise TypeError
  end.

Definition auth_response (success : bool) (id : value) : value :=
  VDict [("type", VStr "auth-response"); ("success", VBool success); ("id", id)].

(** The test [while not self.closing] followed by the suspension in
    [read_packet]. *)
Definition loop_top (closing : bool) : conn_state :=
  if closing then Returned else Reading.

(** The start of [handle_connection], up to its first suspension. *)
Definition accept {H} (srv : Server H) : Server H :=
  mkServer (auth srv) (packet_handlers srv) (closing srv)
    (connections srv ++ [length (streams srv)])
    (streams srv ++ [mkConnection (mkStream [] []) [] false (loop_top (closing srv)) []])
    (handler_tasks srv).

(** The body of the loop of [handle_connection] for the connection [sid],
    once [read_packet] has returned [packet]: the result is the new
    connection record, [self.connections] and the tasks created. *)
Definition handle_packet {H} (srv : Server H) (sid : nat) (conn : Connection)
    (rest : list (result value)) (packet : value) : Server H :=
  let seen := packets_read conn ++ [packet] in
  let update (s : Stream) (a : bool) (st : conn_state) (conns : list nat)
             (tasks : list (H * nat * value)) :=
    mkServer (auth srv) (packet_handlers srv) (closing srv) conns
      (<[sid := mkConnection s rest a st seen]> (streams srv)) tasks in
  let stay (a : bool) (st : conn_state) :=
    update (conn_stream conn) a st (connections srv) (handler_tasks srv) in
  if negb (authed conn) then
    match py_get packet "auth" with
    | Raise e => stay false (Failed e)
    | Ok given =>
        if py_eq given (VStr (auth srv)) then
          match py_getattr packet "id" with
          | Raise e => stay true (Failed e)
          | Ok id =>
              match write_packet (auth_response true id) (conn_stream conn) with
              | (Raise e, _) => stay true (Failed e)
              | (Ok _, s) => update s true Draining (connections srv) (handler_tasks srv)
              end
          end
        else
          match py_getattr packet "id" with
          | Raise e => stay false (Failed e)
          | Ok id =>
              match write_packet (auth_response false id) (conn_stream conn) with
              | (Raise e, _) => stay false (Failed e)
              | (Ok _, s) => update s false Returned (connections srv) (handler_tasks srv)
              end
          end
    end
  else
    match py_getattr packet "type" with
    | Raise e => stay true (Failed e)
    | Ok type =>
        if py_eq type (VStr "disconnect") then
          match list_remove sid (connections srv) with
          | Raise e => stay true (Failed e)
          | Ok conns => update (conn_stream conn) true Returned conns (handler_tasks srv)
          end
        else
          match packet_handlers srv !! "missing-packet" with
          | None => stay true (Failed (KeyError "missing-packet"))
          | Some fallback =>
              match py_dict_get (packet_handlers srv) type fallback with
              | Raise e => stay true (Failed e)
              | Ok handler =>
                  update (conn_stream conn) true (loop_top (closing srv))
                    (connections srv) (handler_tasks srv ++ [(handler, sid, packet)])
              end
          end
    end.

(** The coroutine of connection [sid] is resumed: a pending read is served
    from the inbox, a finished drain goes back to the top of the loop.
    Nothing happens for a coroutine that has ended or whose read has nothing
    to return yet. *)
Definition serve {H} (sid : nat) (srv : Server H) : Server H :=
  match streams srv !! sid with
  | None => srv
  | Some conn =>
      match state conn with
      | Reading =>
          match inbox conn with
          | [] => srv
          | Raise e :: rest =>
              mkServer (auth srv) (packet_handlers srv) (closing srv) (connections srv)
                (<[sid := mkConnection (conn_stream conn) rest (authed conn) (Failed e)
                            (packets_read conn)]> (streams srv))
                (handler_tasks srv)
          | Ok packet :: rest => handle_packet srv sid conn rest packet
          end
      | Draining =>
          mkServer (auth srv) (packet_handlers srv) (closing srv) (connections srv)
            (<[sid := mkConnection (conn_stream conn) (inbox conn) (authed conn)
                        (loop_top (closing srv)) (packets_read conn)]> (streams srv))
            (handler_tasks srv)
      | Returned | Failed _ => srv
      end
  end.

(** Input reaches connection [sid]: the next [read_packet] not yet served
    will return or raise [r]. *)
Definition arrive {H} (sid : nat) (r : result value) (srv : Server H) : Server H :=
  match streams srv !! sid with
  | None => srv
  | Some conn =>
      mkServer (auth srv) (packet_handlers srv) (closing srv) (connections srv)
        (<[sid := mkConnection (conn_stream conn) (inbox conn ++ [r]) (authed conn)
                    (state conn) (packets_read conn)]> (streams srv))
        (handler_tasks srv)
  end.

Inductive server_event :=
| Accepted
| Arrived (sid : nat) (r : result value)
| Served (sid : nat)
| Closing.

Definition server_step {H} (srv : Server H) (ev : server_event) : Server H :=
  match ev with
  | Accepted => accept srv
  | Arrived sid r => arrive sid r srv
  | Served sid => serve sid srv
  | Closing =>
      mkServer (auth srv) (packet_handlers srv) true (connections srv) (streams srv)
        (handler_tasks srv)
  end.

Definition server_run {H} (srv : Server H) (trace : list server_event) : Server H :=
  fold_left server_step trace srv.

(** ** Payloads *)

(** No two elements of a Python set are equal. *)
Fixpoint distinct (l : list value) : bool :=
  match l with
  | [] => true
  | x :: l' => negb (existsb (fun y => py_eq x y) l') && distinct l'
  end.

(** The terms of [value] that are Python objects: a float is a double,
    the keys of a dict are pairwise different, the elements of a set are
    hashable and pairwise unequal. *)
Fixpoint well_formed (v : value) : bool :=
  match v with
  | VNone | VBool _ | VInt _ | VStr _ => true
  | VFloat f => float64 f
  | VList l => forallb well_formed l
  | VDict d =>
      bool_decide (NoDup (map fst d)) && forallb (fun kv => well_formed kv.2) d
  | VSet l => forallb hashable l && distinct l
  end.

(** No mapping inside the payload has the key [_set_object]. *)
Fixpoint no_set_key (v : value) : bool :=
  match v with
  | VNone | VBool _ | VInt _ | VStr _ | VFloat _ => true
  | VList l => forallb no_set_key l
  | VDict d => negb (dict_mem "_set_object" d) && forallb (fun kv => no_set_key kv.2) d
  | VSet _ => true
  end.

(** No number inside the payload is NaN. *)
Fixpoint no_nan (v : value) : bool :=
  match v with
  | VNone | VBool _ | VInt _ | VStr _ => true
  | VFloat f => match f with S754_nan => false | _ => true end
  | VList l | VSet l => forallb no_nan l
  | VDict d => forallb (fun kv => no_nan kv.2) d
  end.

(** A payload with every kind of member, and the mapping whose only key is
    [_set_object]. *)
Definition sample_payload : value :=
  VDict [("type", VStr "shard-ready"); ("shard_ids", VSet [VInt 0; VInt 1; VInt 2]);
         ("tags", VList [VNone; VBool true; VStr "a\b"; VList []]);
         ("meta", VDict [("retry", VInt (-1))])].

Definition set_key_payload : value :=
  VDict [("_set_object", VList [VInt 1; VInt 2])].

(** The doubles 3.14, 0.5 and 2.5, and a payload with numbers of every
    kind but NaN. *)
Definition float_3_14 : spec_float := S754_finite false 7070651414971679 (-51).
Definition float_0_5 : spec_float := S754_finite false 4503599627370496 (-53).
Definition float_2_5 : spec_float := S754_finite false 5629499534213120 (-51).

Definition number_payload : value :=
  VDict [("pi", VFloat float_3_14); ("half", VFloat float_0_5);
         ("limit", VFloat (S754_infinity false)); ("zero", VFloat (S754_zero true));
         ("ids", VSet [VInt 1; VFloat float_2_5]); ("n", VInt 3)].

(** A string of [n] letters, and payloads whose serialised form has 65600
    and 2^31 bytes. *)
Definition letters (n : N) : string :=
  string_of_list_ascii (repeat "a"%char (N.to_nat n)).

Definition oversized_payload : value := VStr (letters 65598).

Definition huge_payload : value := VStr (letters 2147483646).

Definition empty_stream : Stream := mkStream [] [].

(** ** Invariant of the client *)

Definition has_id (packet : value) (k : string) : Prop :=
  py_getattr packet "id" = Ok (VStr k).

(** The identifiers of the [request] calls that reached [write_packet]. *)
Definition call_ids (c : Client) : list string :=
  map fst (waiting c) ++ map fst (finished c).

Record client_inv (c : Client) : Prop := mk_client_inv {
  inv_keys : forall k rec, expected_packets c !! k = Some rec ->
    exists n, (n < current_id c)%N /\ k = "c" +:+ string_of_N n;
  inv_event_bound : forall k e slot, expected_packets c !! k = Some (e, slot) ->
    e < length (events c);
  inv_event_inj : forall k1 k2 e slot1 slot2,
    expected_packets c !! k1 = Some (e, slot1) ->
    expected_packets c !! k2 = Some (e, slot2) -> k1 = k2;
  inv_slot_id : forall k e packet,
    expected_packets c !! k = Some (e, Some packet) -> has_id packet k;
  inv_set_filled : forall k e slot, expected_packets c !! k = Some (e, slot) ->
    events c !! e = Some true -> slot <> None;
  inv_waiting : forall k e, In (k, e) (waiting c) ->
    exists slot, expected_packets c !! k = Some (e, slot);
  inv_finished : forall k outcome, In (k, Ok outcome) (finished c) ->
    exists packet, outcome = Some packet /\ has_id packet k
      /\ exists e packet', expected_packets c !! k = Some (e, Some packet');
  inv_ids : forall k, In k (call_ids c) ->
    exists n, (n < current_id c)%N /\ k = "c" +:+ string_of_N n;
  inv_ids_nodup : NoDup (call_ids c)
}.

(** What the read loop goes on after: a packet whose [id] can be looked up
    in the table. *)
Definition carries_id (r : result value) : Prop :=
  exists packet id,
    r = Ok packet /\ py_getattr packet "id" = Ok id /\ hashable id = true.

(** ** A run with two requests answered out of order *)

Definition client_after (objects : gmap nat value) (s : Stream)
    (trace : list client_event) : Client :=
  client_run (new_client objects s) trace.

Definition sample_objects : gmap nat value :=
  {[ 0 := VDict [("type", VStr "eval"); ("code", VStr "1 + 1")];
     1 := VDict [("type", VStr "exec"); ("code", VStr "pass")] ]}.

Definition response (k : string) (result : Z) : value :=
  VDict [("type", VStr "eval-response"); ("id", VStr k); ("result", VInt result)].

Definition out_of_order_trace : list client_event :=
  [Request 0; Request 1;
   Received (Ok (response "c1" 1)); Resumed 1;
   Received (Ok (response "c0" 2)); Resumed 0].

Definition packet_without_id : value :=
  VDict [("type", VStr "shard-ready"); ("shard_id", VInt 3)].

(** ** Streams that deliver a frame in pieces *)

(** A frame whose prefix declares two payload bytes, the digits 1 and 2:
    delivered in three segments, cut by the end of the stream after the
    first digit, and, for comparison, the complete frame of the one-byte
    payload made of the digit 1. *)
Definition split_frame : Stream := mkStream [[x00; x00; x00; x02]; [x31]; [x32]] [].

Definition cut_frame : Stream := mkStream [[x00; x00; x00; x02; x31]] [].

Definition short_frame : Stream := mkStream [[x00; x00; x00; x01; x31]] [].

(** ** Connections of a server *)

(** The tasks created for the packets of connection [sid]. *)
Definition tasks_of {H} (sid : nat) (tasks : list (H * nat * value)) : list (H * nat * value) :=
  filter (fun t => t.1.2 = sid) tasks.

(** The coroutine of the connection has ended. *)
Definition ended (st : conn_state) : Prop :=
  match st with
  | Returned | Failed _ => True
  | Reading | Draining => False
  end.

(** The coroutine of the connection has returned from the branch of
    [packet.type == "disconnect"]: the connection is authenticated, so the
    first packet it read is the one that authenticated it, and the last
    packet it read, a later one, is a [disconnect] packet. *)
Definition disconnected (conn : Connection) : Prop :=
  authed conn = true /\ state conn = Returned
  /\ exists first earlier packet type,
       packets_read conn = first :: earlier ++ [packet]
       /\ py_getattr packet "type" = Ok type
       /\ py_eq type (VStr "disconnect") = true.

Definition sample_handlers : gmap string string :=
  {[ "missing-packet" := "handle_missing_packet"; "eval" := "handle_eval" ]}.

Definition sample_server : Server string := new_server "password123" sample_handlers.

Definition auth_packet (secret id : string) : value :=
  VDict [("type", VStr "auth"); ("auth", VStr secret); ("id", VStr id)].

Definition auth_packet_without_id (secret : string) : value :=
  VDict [("type", VStr "auth"); ("auth", VStr secret)].

(** An [auth] packet whose [id] alone has 65536 characters. *)
Definition auth_packet_long_id (secret : string) : value :=
  VDict [("type", VStr "auth"); ("auth", VStr secret); ("id", VStr (letters 65536))].

(** A packet of type [disconnect] that carries the secret. *)
Definition disconnect_with_secret (secret id : string) : value :=
  VDict [("type", VStr "disconnect"); ("auth", VStr secret); ("id", VStr id)].

Definition eval_packet (id : string) : value :=
  VDict [("type", VStr "eval"); ("code", VStr "1 + 1"); ("id", VStr id)].

Definition server_after {H} (secret : string) (handlers : gmap string H)
    (trace : list server_event) : Server H :=
  server_run (new_server secret handlers) trace.

(** Every accepted connection is in [self.connections] or has returned
    from the [disconnect] branch, never both; a connection whose answer is
    being drained has read one packet. *)
Definition all_listed {H} (srv : Server H) : Prop :=
  forall sid conn, streams srv !! sid = Some conn ->
    (In sid (connections srv) \/ disconnected conn)
    /\ (disconnected conn -> ~ In sid (connections srv))
    /\ (state conn = Draining -> exists packet, packets_read conn = [packet]).

(** ** Induction on values *)

Definition value_rect' (P : value -> Prop)
    (HNone : P VNone) (HBool : forall b, P (VBool b)) (HInt : forall z, P (VInt z))
    (HStr : forall s, P (VStr s))
    (HList : forall l, Forall P l -> P (VList l))
    (HDict : forall d, Forall (fun kv => P kv.2) d -> P (VDict d))
    (HSet : forall l, Forall P l -> P (VSet l))
    (HFloat : forall f, P (VFloat f)) : forall v, P v :=
  fix go (v : value) : P v :=
    match v with
    | VNone => HNone
    | VBool b => HBool b
    | VInt z => HInt z
    | VStr s => HStr s
    | VList l =>
        HList l ((fix all (l : list value) : Forall P l :=
                    match l with
                    | [] => List.Forall_nil P
                    | x :: l' => @List.Forall_cons _ P x l' (go x) (all l')
                    end) l)
    | VDict d =>
        HDict d ((fix all (d : list (string * value)) : Forall (fun kv => P kv.2) d :=
                    match d with
                    | [] => List.Forall_nil _
                    | kv :: d' => @List.Forall_cons _ (fun kv => P kv.2) kv d' (go kv.2) (all d')
                    end) d)
    | VSet l =>
        HSet l ((fix all (l : list value) : Forall P l :=
                   match l with
                   | [] => List.Forall_nil P
                   | x :: l' => @List.Forall_cons _ P x l' (go x) (all l')
                   end) l)
    | VFloat f => HFloat f
    end.

(** ** Several packets on one stream *)

(** The calls [write_packet(p)] for the payloads of a list, in order, up to
    the first that raises. *)
Fixpoint write_all (payloads : list value) (s : Stream) : result unit * Stream :=
  match payloads with
  | [] => (Ok tt, s)
  | payload :: rest =>
      match write_packet payload s with
      | (Ok _, s') => write_all rest s'
      | (Raise e, s') => (Raise e, s')
      end
  end.

(** [n] calls of [read_packet], one after the other, with what each
    returned or raised. *)
Fixpoint read_n (loads : list byte -> result value) (n : nat) (s : Stream)
    : list (result value) * Stream :=
  match n with
  | 0 => ([], s)
  | S n' =>
      let '(r, s') := read_packet loads s in
      let '(rs, s'') := read_n loads n' s' in
      (r :: rs, s'')
  end.

(** The input of a reader whose buffer holds [bytes] and whose stream ends
    after them. *)
Definition delivered (bytes : list byte) : list (list byte) :=
  match bytes with
  | [] => []
  | _ :: _ => [bytes]
  end.

(** A payload whose frame has at most 65535 bytes. *)
Definition fits (payload : value) : Prop :=
  (Z.of_nat (length (dumps payload)) <= 65531)%Z.

(** ** What one resumption changes on a connection *)

(** The packet carries the configured secret in its [auth] field. *)
Definition carries_secret (secret : string) (packet : value) : bool :=
  match py_get packet "auth" with
  | Ok given => py_eq given (VStr secret)
  | Raise _ => false
  end.

(** The facts that relate the record [conn] of a connection to its record
    [conn'] after its coroutine has run once, creating [tasks]. *)
Record conn_change {H} (secret : string) (closing : bool) (sid : nat)
    (conn conn' : Connection) (tasks : list (H * nat * value)) : Prop := mk_conn_change {
  ch_live : ~ ended (state conn);
  ch_authed : authed conn = true -> authed conn' = true;
  ch_reads :
    packets_read conn' = packets_read conn
    \/ (state conn = Reading
        /\ exists p, inbox conn = Ok p :: inbox conn'
                     /\ packets_read conn' = packets_read conn ++ [p]);
  ch_tasks :
    tasks = []
    \/ exists h p, tasks = [(h, sid, p)] /\ authed conn = true
                   /\ packets_read conn' = packets_read conn ++ [p];
  ch_auth : authed conn = false -> authed conn' = true ->
    state conn = Reading
    /\ exists p, packets_read conn' = packets_read conn ++ [p]
                 /\ carries_secret secret p = true;
  ch_unauth : authed conn' = false -> ~ ended (state conn') ->
    state conn = Draining /\ packets_read conn' = packets_read conn;
  ch_draining : state conn' = Draining -> authed conn' = true;
  ch_closing : closing = true -> state conn' <> Reading;
  ch_writer :
    writer (conn_stream conn') = writer (conn_stream conn)
    \/ (authed conn = false /\ state conn = Reading /\ state conn' <> Reading
        /\ exists id, writer (conn_stream conn')
                      = writer (conn_stream conn)
                        ++ frame (dumps (auth_response (authed conn') id)))
}.

(** The invariant of a server: what holds of every connection and every
    task in every state a server reaches. *)
Record server_inv {H} (srv : Server H) : Prop := mk_server_inv {
  si_unauth : forall sid conn, streams srv !! sid = Some conn ->
    authed conn = false -> ~ ended (state conn) -> packets_read conn = [];
  si_authed : forall sid conn, streams srv !! sid = Some conn ->
    authed conn = true ->
    exists first rest,
      packets_read conn = first :: rest /\ carries_secret (auth srv) first = true;
  si_tasks : forall h sid p, In (h, sid, p) (handler_tasks srv) ->
    exists conn,
      streams srv !! sid = Some conn /\ authed conn = true
      /\ In p (tail (packets_read conn));
  si_draining : forall sid conn, streams srv !! sid = Some conn ->
    state conn = Draining -> authed conn = true;
  si_fresh_writer : forall sid conn, streams srv !! sid = Some conn ->
    authed conn = false -> state conn = Reading -> writer (conn_stream conn) = [];
  si_writer : forall sid conn, streams srv !! sid = Some conn ->
    writer (conn_stream conn) = []
    \/ exists id,
         writer (conn_stream conn) = frame (dumps (auth_response (authed conn) id));
  si_nodup : NoDup (connections srv);
  si_bound : forall sid, In sid (connections srv) -> sid < length (streams srv)
}.

(** A registry with a handler for [eval] and none for [missing-packet]. *)
Definition handlers_without_fallback : gmap string string :=
  {[ "eval" := "handle_eval" ]}.

Definition disconnect_packet : value := VDict [("type", VStr "disconnect")].

(** A server with one connection that has authenticated and is back at the
    top of its loop. *)
Definition authenticated_trace : list server_event :=
  [Accepted; Arrived 0 (Ok (auth_packet "password123" "c0")); Served 0; Served 0].

(** The record of that connection once it has also read an [eval] packet. *)
Definition authenticated_connection : Connection :=
  mkConnection (mkStream [] (frame (dumps (auth_response true (VStr "c0")))))
    [] true Reading [auth_packet "password123" "c0"; eval_packet "c1"].

(** ** Counting the requests of a client *)

(** One record and one call per value the counter has taken. *)
Record client_count (c : Client) : Prop := mk_client_count {
  cc_size : size (expected_packets c) = N.to_nat (current_id c);
  cc_calls : length (call_ids c) = N.to_nat (current_id c);
  cc_all : forall n, (n < current_id c)%N ->
    is_Some (expected_packets c !! ("c" +:+ string_of_N n))
}.

(** A dict whose frame, once it has been given an [id], exceeds the limit. *)
Definition oversized_object : value :=
  VDict [("type", VStr "eval"); ("code", VStr (letters 65536))].

Definition oversized_objects : gmap nat value := {[ 0 := oversized_object ]}.

(** Two requests have been written and none is answered. *)
Definition two_requests : Client :=
  client_after sample_objects empty_stream [Request 0; Request 1].

(** One request has been written, then the read loop has met a packet
    without [id]. *)
Definition stranded_client : Client :=
  client_after sample_objects empty_stream
    [Request 0; Received (Ok packet_without_id)].

(** ** The rest of [Client] *)

(** [bool(v)], as [not res.success] tests it. *)
Definition py_truthy (v : value) : bool :=
  match v with
  | VNone => false
  | VBool b => b
  | VInt z => negb (z =? 0)%Z
  | VFloat f => match f with S754_zero _ => false | _ => true end
  | VStr s => match s with EmptyString => false | String _ _ => true end
  | VList l | VSet l => match l with [] => false | _ :: _ => true end
  | VDict d => match d with [] => false | _ :: _ => true end
  end.

(** [Client.send], on a stream that is open. *)
Definition send (packet : value) (c : Client) : result unit * Client :=
  let '(r, s) := write_packet packet (stream c) in
  (r, mkClient (heap c) s (expected_packets c) (events c) (current_id c)
        (broadcast_tasks c) (read_task c) (waiting c) (finished c)).

(** [self.request({...})]: the dict display creates an object that no
    caller holds, at an address not in use, and [request] runs on it. *)
Definition request_new (d : list (string * value)) (c : Client) : Client :=
  let p := fresh (dom (heap c)) in
  request p
    (mkClient (<[p := VDict d]> (heap c)) (stream c) (expected_packets c) (events c)
       (current_id c) (broadcast_tasks c) (read_task c) (waiting c) (finished c)).

(** [Client.broadcast], [Client.eval] and [Client.exec], up to the
    suspension of their [request]. *)
Definition broadcast (packet : value) (c : Client) : Client :=
  request_new [("type", VStr "broadcast-request"); ("packet", packet)] c.

Definition Client_eval (code : value) (c : Client) : Client :=
  request_new [("type", VStr "eval"); ("code", code)] c.

Definition exec (code : value) (c : Client) : Client :=
  request_new [("type", VStr "exec"); ("code", code)] c.

(** The call [request] of a wrapper has written the dict [d], with the
    identifier added after its members, and left every object of the
    callers as it was. *)
Definition requested (d : list (string * value)) (c c' : Client) : Prop :=
  writer (stream c')
  = writer (stream c)
    ++ frame (dumps (VDict (d ++ [("id", VStr ("c" +:+ string_of_N (current_id c)))])))
  /\ waiting c' = waiting c ++ [("c" +:+ string_of_N (current_id c), length (events c))]
  /\ forall p obj, heap c !! p = Some obj -> heap c' !! p = Some obj.

(** A client with what [connect] and [close] do to its read task and its
    writer: [cancelled] once [self.read_task.cancel()] was called, [closed]
    once [self.stream.close()] has returned. *)
Record Session := mkSession {
  session_client : Client;
  cancelled : bool;
  closed : bool
}.

(** [Client.connect] after the connection is open, up to the suspension of
    its [request]. *)
Definition connect (auth : value) (c : Client) : Client :=
  request_new [("type", VStr "auth"); ("auth", auth)] c.

Inductive connect_result :=
| Connected
| InvalidAuthorization
| ConnectError (e : exn).

(** The end of [connect], [res] being what its [request] returned or
    raised. *)
Definition connect_finish (res : result (option value)) (s : Session)
    : connect_result * Session :=
  match res with
  | Raise e => (ConnectError e, s)
  | Ok slot =>
      match py_getattr (default VNone slot) "success" with
      | Raise e => (ConnectError e, s)
      | Ok success =>
          if py_truthy success then (Connected, s)
          else (InvalidAuthorization, mkSession (session_client s) true true)
      end
  end.

Inductive close_result :=
| CloseReturned
| CloseRaised (e : exn)
| ConnectionResetError.

(** [Client.close]. While the stream is open, the packet is sent and the
    stream is closed. On a stream that was closed before, [write_packet]
    still serialises and checks the packet, the writer drops the bytes,
    [drain] raises [ConnectionResetError], and [self.stream.close()] is
    not reached. *)
Definition Client_close (s : Session) : close_result * Session :=
  if closed s then
    match write_packet disconnect_packet (stream (session_client s)) with
    | (Ok _, _) => (ConnectionResetError, mkSession (session_client s) true true)
    | (Raise e, _) => (CloseRaised e, mkSession (session_client s) true true)
    end
  else
    match send disconnect_packet (session_client s) with
    | (Ok _, c) => (CloseReturned, mkSession c true true)
    | (Raise e, c) => (CloseRaised e, mkSession c true false)
    end.

(** ** The two ends of a connection *)

(** What [read_packet] returns at the peer whose reader holds [bytes]. *)
Definition receive (loads : list byte -> result value) (bytes : list byte)
    : result value :=
  (read_packet loads (mkStream (delivered bytes) [])).1.

Fixpoint bytes_eqb (a b : list byte) : bool :=
  match a, b with
  | [], [] => true
  | x :: a', y :: b' => Byte.eqb x y && bytes_eqb a' b'
  | _, _ => false
  end.

(** A parser that reads the texts of the payloads of [known]. *)
Definition parse_known (known : list value) (data : list byte) : result json :=
  match find (fun v => bytes_eqb (dumps v) data) known with
  | Some v => Ok (to_json v)
  | None => Raise (ValueError "Expecting value")
  end.

Definition handshake_payloads : list value :=
  [auth_packet "password123" "c0"; auth_packet "guess" "c0";
   auth_response true (VStr "c0"); auth_response false (VStr "c0");
   disconnect_packet].

(** An object that carries the marker key beside its other members. *)
Definition marked_object : list (string * json) :=
  [("type", JStr "eval"); ("_set_object", JArr [JNum 1; JNum 2]); ("id", JStr "c0")].

(** The bytes a server has written to the connection [sid]. *)
Definition written_to {H} (srv : Server H) (sid : nat) : list byte :=
  match streams srv !! sid with
  | Some conn => writer (conn_stream conn)
  | None => []
  end.

(** A server that accepts a connection and serves the first packet the
    client [c] has written. *)
Definition first_exchange {H} (loads : list byte -> result value) (secret : string)
    (handlers : gmap string H) (c : Client) : Server H :=
  server_run (new_server secret handlers)
    [Accepted; Arrived 0 (receive loads (writer (stream c))); Served 0].

(** The bytes written to a stream between two of its states. *)
Definition written_since (before after : Stream) : list byte :=
  drop (length (writer before)) (writer after).

(** * Properties *)

Example dumps_list :
  dumps (VList [VInt 1; VInt (-20); VNone; VBool true; VSet []])
  = list_byte_of_string
      ("[1, -20, null, true, {" +:+ json_string "_set_object" +:+ ": []}]").
Proof. reflexivity. Qed.


(** ** Dicts *)

Lemma dict_get_In {V} (k : string) (v : V) (d : list (string * V)) :
  NoDup (map fst d) -> In (k, v) d -> dict_get k d = Some v.
Proof.
  induction d as [|[k' v'] d IH]; simpl; intros Hnd Hin; [done|].
  apply NoDup_cons in Hnd as [Hk Hnd].
  destruct Hin as [[= -> ->]|Hin].
  - by rewrite String.eqb_refl.
  - destruct (String.eqb_spec k k') as [->|_]; [|by apply IH].
    exfalso. apply Hk. apply list_elem_of_In, in_map_iff. by exists (k', v).
Qed.

Lemma dict_get_None {V} (k : string) (d : list (string * V)) :
  dict_get k d = None <-> ~ In k (map fst d).
Proof.
  induction d as [|[k' v'] d IH]; simpl; [intuition|].
  destruct (String.eqb_spec k k') as [->|Hne]; [intuition congruence|].
  rewrite IH. intuition congruence.
Qed.

Lemma dict_set_fresh {V} (k : string) (v : V) (d : list (string * V)) :
  ~ In k (map fst d) -> dict_set k v d = d ++ [(k, v)].
Proof.
  induction d as [|[k' v'] d IH]; simpl; intros Hn; [done|].
  destruct (String.eqb_spec k k') as [->|_]; [intuition|].
  f_equal. apply IH. intuition.
Qed.

Lemma dict_of_pairs_nodup_aux {V} (l acc : list (string * V)) :
  NoDup (map fst (acc ++ l)) ->
  fold_left (fun d kv => dict_set kv.1 kv.2 d) l acc = acc ++ l.
Proof.
  revert acc. induction l as [|[k v] l IH]; intros acc Hnd; simpl.
  - by rewrite app_nil_r.
  - rewrite dict_set_fresh.
    + rewrite IH; rewrite <- app_assoc; done.
    + rewrite map_app in Hnd. simpl in Hnd.
      apply NoDup_app in Hnd as (_ & Hdisj & _).
      intros Hin. apply (Hdisj k); [by apply list_elem_of_In|]. left.
Qed.

Lemma dict_of_pairs_nodup {V} (l : list (string * V)) :
  NoDup (map fst l) -> dict_of_pairs l = l.
Proof. intros Hnd. unfold dict_of_pairs. by rewrite dict_of_pairs_nodup_aux. Qed.

(** ** The two hooks *)

Lemma to_json_default (obj obj' : value) :
  CustomJSONEncoder_default obj = Ok obj' -> to_json obj = to_json obj'.
Proof. destruct obj; simpl; intros [= <-]; reflexivity. Qed.

Lemma result_mapM_Forall2 {A B C} (f : B -> result C) (g : A -> B)
    (R : C -> A -> Prop) (l : list A) :
  Forall (fun a => exists c, f (g a) = Ok c /\ R c a) l ->
  exists l', result_mapM f (map g l) = Ok l' /\ Forall2 R l' l.
Proof.
  induction 1 as [|a l (c & Hc & HR) _ (l' & Hl' & HF)]; simpl.
  - exists []. split; [reflexivity|constructor].
  - exists (c :: l'). rewrite Hc. simpl. rewrite Hl'. simpl.
    split; [reflexivity|by constructor].
Qed.

Lemma hashable_from_to_json (order : list value -> list value) (x : value) :
  hashable x = true -> from_json order (to_json x) = Ok x.
Proof. destruct x; simpl; intros Hx; try reflexivity; discriminate. Qed.

Lemma float_eqb_refl (f : spec_float) :
  f <> S754_nan -> float_eqb f f = true.
Proof.
  destruct f as [s|s| |s m e]; simpl; intros Hf; try done.
  - by destruct s.
  - unfold exact_eqb. apply Z.eqb_refl.
Qed.

Lemma hashable_py_eq_refl (x : value) :
  hashable x = true -> no_nan x = true -> py_eq x x = true.
Proof.
  destruct x as [|b|z|s| | | |f]; simpl; intros Hx Hn; try discriminate.
  - reflexivity.
  - by destruct b.
  - apply Z.eqb_refl.
  - apply String.eqb_refl.
  - apply float_eqb_refl. by intros ->.
Qed.

Lemma result_mapM_hashable (order : list value -> list value) (l : list value) :
  forallb hashable l = true ->
  result_mapM (from_json order) (map to_json l) = Ok l.
Proof.
  induction l as [|x l IH]; simpl; [reflexivity|].
  intros [Hx Hl]%andb_prop.
  rewrite (hashable_from_to_json order x Hx). simpl. by rewrite IH.
Qed.

(** ** [set(...)] *)

Lemma fold_set_add_keeps (l acc : list value) (x : value) :
  In x acc -> In x (fold_left set_add l acc).
Proof.
  revert acc. induction l as [|y l IH]; simpl; intros acc Hx; [done|].
  apply IH. unfold set_add. destruct (existsb _ acc); [done|].
  apply in_or_app. by left.
Qed.

Lemma fold_set_add_from (l acc : list value) (x : value) :
  In x (fold_left set_add l acc) -> In x acc \/ In x l.
Proof.
  revert acc. induction l as [|y l IH]; simpl; intros acc Hx; [by left|].
  apply IH in Hx as [Hx|Hx]; [|by right; right].
  unfold set_add in Hx. destruct (existsb _ acc); [by left|].
  apply in_app_or in Hx as [Hx|[<-|[]]]; [by left|by right; left].
Qed.

Lemma fold_set_add_covers (l acc : list value) (y : value) :
  forallb hashable l = true -> forallb no_nan l = true -> In y l ->
  exists x, In x (fold_left set_add l acc) /\ py_eq x y = true.
Proof.
  revert acc. induction l as [|z l IH]; simpl; intros acc Hh Hn Hy; [done|].
  apply andb_prop in Hh as [Hz Hl]. apply andb_prop in Hn as [Hnz Hnl].
  destruct Hy as [->|Hy]; [|by apply IH].
  unfold set_add at 2. destruct (existsb _ acc) eqn:Hex.
  - apply existsb_exists in Hex as (x & Hx & Hxy).
    exists x. split; [by apply fold_set_add_keeps|done].
  - exists y. split; [|by apply hashable_py_eq_refl].
    apply fold_set_add_keeps, in_or_app. right. by left.
Qed.

(** Decoding the shape [{"_set_object": [...]}] rebuilds a set of the
    elements, whatever order the new set iterates in. *)
Lemma py_set_equal (order : list value -> list value) (l : list value) :
  (forall l', Permutation (order l') l') ->
  forallb hashable l = true -> forallb no_nan l = true ->
  py_set order (VList l) = Ok (VSet (order (fold_left set_add l [])))
  /\ py_eq (VSet (order (fold_left set_add l []))) (VSet l) = true.
Proof.
  intros Hperm Hh Hn. split.
  - unfold py_set. simpl. by rewrite Hh.
  - simpl. apply andb_true_intro. split; apply forallb_forall.
    + intros x Hx. apply existsb_exists. exists x.
      apply (Permutation_in _ (Hperm _)) in Hx.
      apply fold_set_add_from in Hx as [[]|Hx].
      split; [done|]. apply hashable_py_eq_refl.
      * by apply (proj1 (forallb_forall _ _) Hh).
      * by apply (proj1 (forallb_forall _ _) Hn).
    + intros y Hy. apply existsb_exists.
      destruct (fold_set_add_covers l [] y Hh Hn Hy) as (x & Hx & Hxy).
      exists x. split; [|done].
      by apply (Permutation_in _ (Permutation_sym (Hperm _))).
Qed.

(** ** [==] on lists and dicts that agree member by member *)

Lemma py_eq_VList (l' l : list value) :
  Forall2 (fun a b => py_eq a b = true) l' l -> py_eq (VList l') (VList l) = true.
Proof.
  simpl. induction 1 as [|a b l' l Hab _ IH]; [reflexivity|].
  by rewrite Hab, IH.
Qed.

Lemma Forall2_keys (d' d : list (string * value)) :
  Forall2 (fun kv' kv => kv'.1 = kv.1 /\ py_eq kv'.2 kv.2 = true) d' d ->
  map fst d' = map fst d.
Proof. induction 1 as [|[] [] ? ? [? _]]; simpl in *; congruence. Qed.

Lemma py_eq_VDict (d' d : list (string * value)) :
  NoDup (map fst d) ->
  Forall2 (fun kv' kv => kv'.1 = kv.1 /\ py_eq kv'.2 kv.2 = true) d' d ->
  py_eq (VDict d') (VDict d) = true.
Proof.
  intros Hnd HF. simpl. apply andb_true_intro. split.
  - apply Nat.eqb_eq. by eapply Forall2_length.
  - apply forallb_forall. intros [k v'] Hin. simpl.
    assert (exists v, In (k, v) d /\ py_eq v' v = true) as (v & Hv & Heq).
    { clear Hnd. induction HF as [|[k1 v1] [k2 v2] d' d [Hk Hv] _ IH];
        simpl in *; [done|].
      destruct Hin as [[= -> ->]|Hin].
      - exists v2. subst. by split; [left|].
      - destruct (IH Hin) as (v & ? & ?). exists v. by split; [right|]. }
    by rewrite (dict_get_In k v d Hnd Hv).
Qed.

Lemma from_json_set_shape (order : list value -> list value) (l : list value) :
  forallb hashable l = true ->
  from_json order (JObj [("_set_object", JArr (map to_json l))])
  = py_set order (VList l).
Proof.
  intros Hh. cbn [from_json result_mapM snd fst bind].
  rewrite (result_mapM_hashable order l Hh). reflexivity.
Qed.

Lemma roundtrip_upto_eq (order : list value -> list value) :
  (forall l, Permutation (order l) l) ->
  forall payload,
    well_formed payload = true -> no_set_key payload = true ->
    no_nan payload = true ->
    exists decoded,
      from_json order (to_json payload) = Ok decoded /\ py_eq decoded payload = true.
Proof.
  intros Hperm. induction payload as [|b|z|s|l IH|d IH|l _|f] using value_rect';
    intros Hwf Hns Hnan.
  - by exists VNone.
  - exists (VBool b). by destruct b.
  - exists (VInt z). split; [done|apply Z.eqb_refl].
  - exists (VStr s). split; [done|apply String.eqb_refl].
  - simpl in Hwf, Hns, Hnan.
    destruct (result_mapM_Forall2 (from_json order) to_json
                (fun a b => py_eq a b = true) l) as (l' & Hl' & HF).
    { rewrite Forall_forall in IH. apply Forall_forall. intros x Hx.
      apply IH; [done| | |].
      - by apply (proj1 (forallb_forall _ _) Hwf), list_elem_of_In.
      - by apply (proj1 (forallb_forall _ _) Hns), list_elem_of_In.
      - by apply (proj1 (forallb_forall _ _) Hnan), list_elem_of_In. }
    exists (VList l'). simpl. rewrite Hl'. simpl.
    split; [done|]. by apply py_eq_VList.
  - simpl in Hwf, Hns, Hnan.
    apply andb_prop in Hwf as [Hnd%bool_decide_eq_true Hwf].
    apply andb_prop in Hns as [Hkey%negb_true_iff Hns].
    destruct (result_mapM_Forall2
                (fun kv : string * json => v <- from_json order kv.2 ;; Ok (kv.1, v))
                (fun kv : string * value => (kv.1, to_json kv.2))
                (fun kv' kv => kv'.1 = kv.1 /\ py_eq kv'.2 kv.2 = true) d)
      as (d' & Hd' & HF).
    { rewrite Forall_forall in IH. apply Forall_forall. intros [k v] Hx.
      destruct (IH (k, v) Hx) as (v' & Hv' & Heq).
      - by apply (proj1 (forallb_forall _ _) Hwf (k, v)), list_elem_of_In.
      - by apply (proj1 (forallb_forall _ _) Hns (k, v)), list_elem_of_In.
      - by apply (proj1 (forallb_forall _ _) Hnan (k, v)), list_elem_of_In.
      - exists (k, v'). simpl in *. by rewrite Hv'. }
    pose proof (Forall2_keys d' d HF) as Hkeys.
    exists (VDict d'). simpl. rewrite Hd'. simpl.
    rewrite dict_of_pairs_nodup by (by rewrite Hkeys).
    unfold special_obj_hook.
    assert (dict_mem "_set_object" d' = false) as ->.
    { unfold dict_mem in *.
      destruct (dict_get "_set_object" d) eqn:Hg; [done|].
      apply dict_get_None in Hg. rewrite <- Hkeys in Hg.
      apply dict_get_None in Hg. by rewrite Hg. }
    split; [done|]. by apply py_eq_VDict.
  - simpl in Hwf, Hnan. apply andb_prop in Hwf as [Hh _].
    destruct (py_set_equal order l Hperm Hh Hnan) as [Hset Heq].
    exists (VSet (order (fold_left set_add l []))).
    split; [|done].
    change (to_json (VSet l)) with (JObj [("_set_object", JArr (map to_json l))]).
    by rewrite from_json_set_shape.
  - exists (VFloat f). split; [done|]. simpl in *.
    apply float_eqb_refl. by intros ->.
Qed.


(** C2, as stated, fails for NaN as well: NaN is a number, its encoding is
    the text [NaN], which is decoded to NaN, and NaN equals nothing, itself
    included. *)
Lemma nan_decodes_unequal :
  well_formed (VFloat S754_nan) = true /\ no_set_key (VFloat S754_nan) = true
  /\ dumps (VFloat S754_nan) = list_byte_of_string "NaN"
  /\ forall parse order decoded,
       parse (dumps (VFloat S754_nan)) = Ok (to_json (VFloat S754_nan)) ->
       cj_loads parse order (dumps (VFloat S754_nan)) = Ok decoded ->
       py_eq decoded (VFloat S754_nan) = false.
Proof.
  repeat split. intros parse order decoded Hparse. unfold cj_loads.
  rewrite Hparse. simpl. intros [= <-]. reflexivity.
Qed.

(** The hook fires on every mapping that has the key, whatever else the
    mapping holds: other keys are dropped, and a value that cannot be
    iterated makes decoding raise. *)
Example set_key_among_other_keys :
  from_json (fun l => l)
    (to_json (VDict [("_set_object", VList [VInt 1]); ("x", VInt 2)]))
  = Ok (VSet [VInt 1])
  /\ from_json (fun l => l) (to_json (VDict [("_set_object", VInt 5)]))
     = Raise TypeError.
Proof. split; reflexivity. Qed.

(** ** Frames *)

Lemma Z_of_byte_of_Z (z : Z) : Z_of_byte (byte_of_Z z) = (z mod 256)%Z.
Proof.
  unfold Z_of_byte, byte_of_Z.
  pose proof (Z.mod_pos_bound z 256 eq_refl) as Hb.
  pose proof (Byte.to_of_N_option_map (Z.to_N (z mod 256))) as Hm.
  replace (N.leb (Z.to_N (z mod 256)) 255) with true in Hm
    by (symmetry; apply N.leb_le; lia).
  destruct (Byte.of_N (Z.to_N (z mod 256))) as [b|]; simpl in Hm; [|done].
  injection Hm as Hm. simpl. rewrite Hm. lia.
Qed.

Lemma big_endian_int32_bytes (n : Z) :
  (0 <= n < 2 ^ 32)%Z -> big_endian (int32_bytes n) = n.
Proof.
  intros Hn. unfold big_endian, int32_bytes. simpl fold_left.
  rewrite !Z_of_byte_of_Z, !Z.shiftr_div_pow2 by lia.
  change (2 ^ 24)%Z with (256 * 256 * 256)%Z.
  change (2 ^ 16)%Z with (256 * 256)%Z.
  change (2 ^ 8)%Z with 256%Z.
  change (2 ^ 32)%Z with (256 * 256 * 256 * 256)%Z in Hn.
  Z.to_euclidean_division_equations. lia.
Qed.

Lemma struct_unpack_pack (n : Z) :
  (- 2 ^ 31 <= n < 2 ^ 31)%Z -> struct_unpack_i (int32_bytes n) = Ok n.
Proof.
  intros Hn. unfold struct_unpack_i, int32_bytes.
  rewrite !Z_of_byte_of_Z, !Z.shiftr_div_pow2 by lia.
  change (2 ^ 24)%Z with (256 * 256 * 256)%Z.
  change (2 ^ 16)%Z with (256 * 256)%Z.
  change (2 ^ 8)%Z with 256%Z.
  change (2 ^ 31)%Z with 2147483648%Z in *.
  change (2 ^ 32)%Z with 4294967296%Z.
  f_equal.
  match goal with
  | |- context [Z.ltb ?a ?b] => destruct (Z.ltb_spec a b) as [Hlt|Hge]
  end; Z.to_euclidean_division_equations; lia.
Qed.

Lemma length_int32_bytes (n : Z) : length (int32_bytes n) = 4.
Proof. reflexivity. Qed.

(** What [write_packet] does, by the size of the serialised payload. *)
Lemma write_packet_cases (payload : value) (s : Stream) :
  write_packet payload s =
  if (Z.of_nat (length (dumps payload)) <? 2 ^ 31)%Z then
    if (65535 <? 4 + Z.of_nat (length (dumps payload)))%Z
    then (Raise (ValueError "Packet is too big to send..."), s)
    else (Ok tt, mkStream (reader s) (writer s ++ frame (dumps payload)))
  else (Raise StructError, s).
Proof.
  set (n := Z.of_nat (length (dumps payload))).
  unfold write_packet, struct_pack_i. fold n.
  assert (0 <= n)%Z as Hn by (unfold n; lia).
  replace (- 2 ^ 31 <=? n)%Z with true by (symmetry; apply Z.leb_le; lia).
  simpl andb. destruct (n <? 2 ^ 31)%Z; [|reflexivity].
  rewrite length_app, length_int32_bytes.
  replace (Z.of_nat (4 + length (dumps payload))) with (4 + n)%Z by (unfold n; lia).
  reflexivity.
Qed.

(** C8. A payload whose serialised form has [N <= 65531] bytes is written
    as exactly [4 + N] bytes: four bytes whose big-endian value is [N],
    followed by the [N] bytes of the payload. *)
Theorem frame_shape (payload : value) (s : Stream) :
  (Z.of_nat (length (dumps payload)) <= 65531)%Z ->
  exists prefix,
    write_packet payload s
    = (Ok tt, mkStream (reader s) (writer s ++ prefix ++ dumps payload))
    /\ length prefix = 4
    /\ big_endian prefix = Z.of_nat (length (dumps payload))
    /\ Z.of_nat (length (prefix ++ dumps payload))
       = (4 + Z.of_nat (length (dumps payload)))%Z.
Proof.
  intros Hn. exists (int32_bytes (Z.of_nat (length (dumps payload)))).
  split; [|split; [|split]].
  - rewrite write_packet_cases.
    destruct (Z.ltb_spec (Z.of_nat (length (dumps payload))) (2 ^ 31)) as [_|Hge];
      [|lia].
    destruct (Z.ltb_spec 65535 (4 + Z.of_nat (length (dumps payload)))) as [Hgt|_];
      [lia|reflexivity].
  - reflexivity.
  - apply big_endian_int32_bytes. lia.
  - rewrite length_app, length_int32_bytes. lia.
Qed.

Lemma frame_shape_witness :
  exists prefix,
    write_packet sample_payload empty_stream
    = (Ok tt, mkStream [] ([] ++ prefix ++ dumps sample_payload))
    /\ length prefix = 4
    /\ big_endian prefix = Z.of_nat (length (dumps sample_payload))
    /\ Z.of_nat (length (prefix ++ dumps sample_payload))
       = (4 + Z.of_nat (length (dumps sample_payload)))%Z.
Proof.
  apply (frame_shape sample_payload empty_stream). vm_compute. discriminate.
Defined.

Lemma length_list_byte_of_string (s : string) :
  length (list_byte_of_string s) = String.length s.
Proof. induction s as [|c s IH]; simpl; [reflexivity|]. by f_equal. Qed.

Lemma length_escape_letters (k : nat) :
  String.length (escape_string (string_of_list_ascii (repeat "a"%char k)) +:+
                 String dquote EmptyString) = S k.
Proof. induction k as [|k IH]; [reflexivity|]. simpl in *. by f_equal. Qed.

Lemma length_dumps_letters (n : N) :
  Z.of_nat (length (dumps (VStr (letters n)))) = (Z.of_N n + 2)%Z.
Proof.
  unfold dumps, letters. rewrite length_list_byte_of_string.
  unfold to_json, json_text, json_string.
  change (String.length (String dquote ?s)) with (S (String.length s)).
  rewrite length_escape_letters. lia.
Qed.

(** C4, as stated, fails: for a payload whose serialised form has 2^31
    bytes the frame exceeds 65535 bytes and the failure is the
    [struct.error] of packing the length, not the [ValueError] of the size
    check. *)
Lemma huge_payload_struct_error :
  (65535 < 4 + Z.of_nat (length (dumps huge_payload)))%Z
  /\ write_packet huge_payload empty_stream = (Raise StructError, empty_stream)
  /\ write_packet huge_payload empty_stream
     <> (Raise (ValueError "Packet is too big to send..."), empty_stream).
Proof.
  assert (Z.of_nat (length (dumps huge_payload)) = 2147483648%Z) as Hlen.
  { unfold huge_payload. rewrite length_dumps_letters. reflexivity. }
  assert (write_packet huge_payload empty_stream = (Raise StructError, empty_stream))
    as Hw.
  { rewrite write_packet_cases, Hlen. reflexivity. }
  split; [lia|]. split; [exact Hw|]. rewrite Hw. discriminate.
Qed.

(** C4 (amended). A payload whose frame would exceed 65535 bytes and whose
    serialised form is short enough for its length to be packed (less than
    2^31 bytes) makes [write_packet] raise the [ValueError] of the size
    check; whenever the frame would exceed 65535 bytes [write_packet] raises
    and leaves the stream as it was, no byte written, so that the connection
    can be written to afterwards; a payload whose frame has at most 65535
    bytes raises nothing and its frame is written. *)
Theorem write_packet_size_limit (payload : value) (s : Stream) :
  ((65535 < 4 + Z.of_nat (length (dumps payload)))%Z ->
   (Z.of_nat (length (dumps payload)) < 2 ^ 31)%Z ->
   write_packet payload s = (Raise (ValueError "Packet is too big to send..."), s))
  /\ ((65535 < 4 + Z.of_nat (length (dumps payload)))%Z ->
      exists e, write_packet payload s = (Raise e, s))
  /\ ((4 + Z.of_nat (length (dumps payload)) <= 65535)%Z ->
      write_packet payload s
      = (Ok tt, mkStream (reader s) (writer s ++ frame (dumps payload)))).
Proof.
  rewrite write_packet_cases.
  destruct (Z.ltb_spec (Z.of_nat (length (dumps payload))) (2 ^ 31)) as [Hlt|Hge];
    destruct (Z.ltb_spec 65535 (4 + Z.of_nat (length (dumps payload)))) as [Hgt|Hle];
    repeat split; intros; try lia; try reflexivity; eauto.
Qed.

Lemma write_packet_size_limit_witness :
  write_packet oversized_payload empty_stream
  = (Raise (ValueError "Packet is too big to send..."), empty_stream)
  /\ (exists e, write_packet oversized_payload empty_stream = (Raise e, empty_stream))
  /\ write_packet sample_payload empty_stream
     = (Ok tt, mkStream [] ([] ++ frame (dumps sample_payload))).
Proof.
  split; [|split].
  - apply (proj1 (write_packet_size_limit oversized_payload empty_stream));
      vm_compute; reflexivity.
  - apply (proj1 (proj2 (write_packet_size_limit oversized_payload empty_stream))).
    vm_compute. reflexivity.
  - apply (proj2 (proj2 (write_packet_size_limit sample_payload empty_stream))).
    vm_compute. discriminate.
Defined.

(** ** Reading frames *)

Lemma reader_read_whole (n : Z) (c : list byte) (r : list (list byte)) :
  c <> [] -> Z.of_nat (length c) = n -> reader_read n (c :: r) = (c, r).
Proof.
  intros Hc Hn. simpl.
  destruct (Z.eqb_spec n 0) as [->|_]; [by destruct c|].
  destruct (Z.ltb_spec n 0) as [Hneg|_]; [lia|].
  destruct c as [|b c]; [done|].
  rewrite firstn_all2 by lia.
  destruct (Z.leb_spec (Z.of_nat (length (b :: c))) n) as [_|Hlt]; [done|lia].
Qed.

(** A frame that is in the buffer as a whole is read as a whole: the
    decoder is handed the payload that was framed. *)
Lemma read_packet_whole_frame (loads : list byte -> result value) (data w : list byte) :
  data <> [] -> (Z.of_nat (length data) < 2 ^ 31)%Z ->
  read_packet loads (mkStream [frame data] w) = (loads data, mkStream [] w).
Proof.
  intros Hd Hn. unfold read_packet. cbn [reader writer].
  assert (reader_read LENGTH_LENGTH [frame data]
          = (int32_bytes (Z.of_nat (length data)), [data])) as ->.
  { unfold frame, int32_bytes, LENGTH_LENGTH. cbn [app reader_read].
    change (4 =? 0)%Z with false. change (4 <? 0)%Z with false. cbv iota.
    match goal with
    | |- context [Z.leb ?a ?b] => destruct (Z.leb_spec a b) as [Hle|_]
    end; [|reflexivity].
    rewrite !length_cons in Hle. destruct data; [done|]. rewrite length_cons in Hle. lia. }
  rewrite struct_unpack_pack by lia.
  by rewrite reader_read_whole.
Qed.

Lemma read_packet_closed (loads : list byte -> result value) (w : list byte) :
  read_packet loads (mkStream [] w) = (Raise StructError, mkStream [] w).
Proof. reflexivity. Qed.

(** A stream that ends inside the length prefix makes [struct.unpack]
    raise. *)
Lemma read_packet_short_prefix (loads : list byte -> result value)
    (b : byte) (c w : list byte) :
  length c < 3 ->
  read_packet loads (mkStream [b :: c] w) = (Raise StructError, mkStream [] w).
Proof.
  intros Hc. destruct c as [|b1 [|b2 [|b3 c]]]; try reflexivity.
  simpl in Hc. lia.
Qed.

Lemma string_of_Z_nonempty (z : Z) : string_of_Z z <> EmptyString.
Proof.
  unfold string_of_Z. destruct z as [|q|q]; simpl; try done.
  pose proof (DecimalPos.Unsigned.to_uint_nonnil q) as Hq.
  by destruct (Pos.to_uint q).
Qed.

Lemma append_nonempty_r (a b : string) : b <> EmptyString -> a +:+ b <> EmptyString.
Proof. destruct a; simpl; [done|discriminate]. Qed.

Lemma format_repr_nonempty (digits : string) (decpt : Z) :
  format_repr digits decpt <> EmptyString.
Proof.
  unfold format_repr.
  destruct (_ || _); [by apply append_nonempty_r|].
  destruct (decpt <=? 0)%Z; [done|].
  destruct (decpt <? _)%Z; [by apply append_nonempty_r|].
  by apply append_nonempty_r, append_nonempty_r.
Qed.

Lemma json_float_nonempty (f : spec_float) : json_float f <> EmptyString.
Proof.
  destruct f as [[]|[]| |s m e]; simpl; try done.
  apply append_nonempty_r. unfold repr_finite.
  destruct (shortest_decimal _ _ _ _ _) as [d k].
  destruct (strip_zeros _ _ _) as [d' k']. apply format_repr_nonempty.
Qed.

Lemma dumps_nonempty (payload : value) : dumps payload <> [].
Proof.
  unfold dumps.
  assert (json_text (to_json payload) <> EmptyString) as Hne.
  { destruct payload as [|[]| | | | | |f]; simpl; try done.
    - apply string_of_Z_nonempty.
    - apply json_float_nonempty. }
  by destruct (json_text (to_json payload)).
Qed.

(** The frame [write_packet] writes, once it has reached the peer's buffer
    as a whole, is read back by [read_packet] as the serialised payload:
    the decoder is handed exactly the bytes the encoder produced. *)
Lemma read_packet_of_write_packet (loads : list byte -> result value)
    (payload : value) (s : Stream) (w : list byte) :
  (Z.of_nat (length (dumps payload)) <= 65531)%Z ->
  exists written,
    write_packet payload s = (Ok tt, mkStream (reader s) (writer s ++ written))
    /\ read_packet loads (mkStream [written] w) = (loads (dumps payload), mkStream [] w).
Proof.
  intros Hn. exists (frame (dumps payload)). split.
  - rewrite write_packet_cases.
    destruct (Z.ltb_spec (Z.of_nat (length (dumps payload))) (2 ^ 31)) as [_|Hge];
      [|lia].
    destruct (Z.ltb_spec 65535 (4 + Z.of_nat (length (dumps payload)))) as [Hgt|_];
      [lia|reflexivity].
  - apply read_packet_whole_frame; [apply dumps_nonempty|lia].
Qed.

(** C5 fails on the code: [read_packet] asks [StreamReader.read] for the
    declared number of bytes and decodes whatever comes back. When the two
    declared payload bytes arrive in two segments, or the stream ends after
    the first of them, the decoder is handed the single byte that was read,
    exactly as for the complete frame of that one byte, and no error is
    raised by [read_packet] itself. *)
Theorem read_packet_decodes_partial_frame (loads : list byte -> result value) :
  read_packet loads split_frame = (loads [x31], mkStream [[x32]] [])
  /\ read_packet loads cut_frame = (loads [x31], mkStream [] [])
  /\ read_packet loads short_frame = (loads [x31], mkStream [] []).
Proof. repeat split. Qed.

(** The texts of some doubles, as Python prints them. *)
Example float_texts :
  json_float float_3_14 = "3.14"
  /\ json_float float_0_5 = "0.5"
  /\ json_float (S754_finite false 7205759403792794 (-56)) = "0.1"
  /\ json_float (S754_finite false 5404319552844596 (-54)) = "0.30000000000000004"
  /\ json_float (S754_finite false 5000000000000000 1) = "1e+16"
  /\ json_float (S754_finite true 5902958103587057 (-69)) = "-1e-05"
  /\ json_float (S754_finite false 1 (-1074)) = "5e-324"
  /\ json_float (S754_finite false 9007199254740991 971) = "1.7976931348623157e+308"
  /\ json_float (S754_finite false 4503599627370496 (-1074)) = "2.2250738585072014e-308"
  /\ json_float (S754_finite false 4503599627370498 (-3)) = "562949953421312.2"
  /\ json_float (S754_finite false 5960464477539062 24) = "1e+23"
  /\ json_float (S754_finite false 8000000000000000 (-3)) = "1000000000000000.0"
  /\ json_float (S754_finite false 7378697629483821 (-66)) = "0.0001"
  /\ json_float (S754_finite false 7036874417766400 (-46)) = "100.0"
  /\ json_float (S754_zero true) = "-0.0"
  /\ json_float (S754_infinity true) = "-Infinity".
Proof. vm_compute. repeat split. Qed.

Example dumps_number_payload :
  dumps number_payload
  = list_byte_of_string
      (String.concat (String dquote EmptyString)
         ["{"; "pi"; ": 3.14, "; "half"; ": 0.5, "; "limit"; ": Infinity, ";
          "zero"; ": -0.0, "; "ids"; ": {"; "_set_object"; ": [1, 2.5]}, ";
          "n"; ": 3}"]).
Proof. vm_compute. reflexivity. Qed.



(** ** Correlation identifiers *)

Lemma string_of_N_inj (n m : N) : string_of_N n = string_of_N m -> n = m.
Proof.
  unfold string_of_N. intros Heq.
  assert (forall k, N.to_uint k <> Decimal.Nil) as Hnn.
  { intros [|q]; [discriminate|]. apply DecimalPos.Unsigned.to_uint_nonnil. }
  apply DecimalN.Unsigned.to_uint_inj.
  pose proof (NilZero.usu (N.to_uint n) (Hnn n)) as Hn.
  pose proof (NilZero.usu (N.to_uint m) (Hnn m)) as Hm.
  rewrite Heq in Hn. congruence.
Qed.

Lemma packet_id_inj (n m : N) :
  "c" +:+ string_of_N n = "c" +:+ string_of_N m -> n = m.
Proof. simpl. intros [= Heq]. by apply string_of_N_inj. Qed.

(** ** [Client.request], step by step *)

Lemma request_eq (p : nat) (c : Client) (d : list (string * value)) :
  heap c !! p = Some (VDict d) ->
  request p c =
  let packet_id := "c" +:+ string_of_N (current_id c) in
  let packet := VDict (dict_set "id" (VStr packet_id) d) in
  let event := length (events c) in
  mkClient (<[p := packet]> (heap c)) (write_packet packet (stream c)).2
    (<[packet_id := (event, None)]> (expected_packets c)) (events c ++ [false])
    (current_id c + 1)%N (broadcast_tasks c) (read_task c)
    (match (write_packet packet (stream c)).1 with
     | Ok _ => waiting c ++ [(packet_id, event)]
     | Raise _ => waiting c
     end)
    (match (write_packet packet (stream c)).1 with
     | Ok _ => finished c
     | Raise e => finished c ++ [(packet_id, Raise e)]
     end).
Proof.
  intros Hp. unfold request. rewrite Hp. simpl.
  destruct (write_packet _ _) as [[[]|e] s]; reflexivity.
Qed.

Lemma request_not_dict (p : nat) (c : Client) :
  (forall d, heap c !! p <> Some (VDict d)) -> request p c = c.
Proof.
  intros Hp. unfold request.
  destruct (heap c !! p) as [[| | | | |d| |]|]; try reflexivity.
  by destruct (Hp d).
Qed.

Lemma call_ids_app_waiting (w : list (string * nat))
    (f : list (string * result (option value))) (x : string * nat) :
  Permutation (map fst (w ++ [x]) ++ map fst f) (x.1 :: map fst w ++ map fst f).
Proof. rewrite map_app. simpl. solve_Permutation. Qed.

Lemma call_ids_app_finished (w : list (string * nat))
    (f : list (string * result (option value)))
    (x : string * result (option value)) :
  Permutation (map fst w ++ map fst (f ++ [x])) (x.1 :: map fst w ++ map fst f).
Proof. rewrite map_app. simpl. solve_Permutation. Qed.

Lemma request_call_ids (p : nat) (c : Client) (d : list (string * value)) :
  heap c !! p = Some (VDict d) ->
  Permutation (call_ids (request p c))
    (("c" +:+ string_of_N (current_id c)) :: call_ids c).
Proof.
  intros Hp. rewrite (request_eq p c d Hp). unfold call_ids. cbn zeta. simpl.
  destruct (write_packet _ _).1.
  - apply call_ids_app_waiting.
  - apply call_ids_app_finished.
Qed.

Lemma request_inv (p : nat) (c : Client) : client_inv c -> client_inv (request p c).
Proof.
  intros Hinv.
  destruct (heap c !! p) as [obj|] eqn:Hp;
    [|rewrite request_not_dict; [done|intros d; congruence]].
  destruct obj as [| | | | |d| |];
    try (rewrite request_not_dict; [done|intros d'; congruence]).
  pose proof (request_call_ids p c d Hp) as Hids.
  rewrite (request_eq p c d Hp) in *. cbn zeta in *.
  set (kid := "c" +:+ string_of_N (current_id c)) in *.
  set (out := write_packet (VDict (dict_set "id" (VStr kid) d)) (stream c)) in *.
  assert (expected_packets c !! kid = None) as Hfresh.
  { destruct (expected_packets c !! kid) as [rec|] eqn:Hl; [|done].
    destruct (inv_keys c Hinv kid rec Hl) as (n & Hn & Heq).
    apply packet_id_inj in Heq. lia. }
  assert (~ In kid (call_ids c)) as Hnew.
  { intros Hin. destruct (inv_ids c Hinv kid Hin) as (n & Hn & Heq).
    apply packet_id_inj in Heq. lia. }
  assert (forall k rec, expected_packets c !! k = Some rec -> k <> kid) as Hold.
  { intros k rec Hl ->. congruence. }
  split; simpl.
  - intros k rec Hl. destruct (decide (k = kid)) as [->|Hne].
    + exists (current_id c). split; [lia|done].
    + rewrite lookup_insert_ne in Hl by done.
      destruct (inv_keys c Hinv k rec Hl) as (n & Hn & Heq).
      exists n. split; [lia|done].
  - intros k e slot Hl. rewrite length_app. simpl.
    destruct (decide (k = kid)) as [->|Hne].
    + rewrite lookup_insert_eq in Hl. injection Hl as <- _. lia.
    + rewrite lookup_insert_ne in Hl by done.
      pose proof (inv_event_bound c Hinv k e slot Hl). lia.
  - intros k1 k2 e slot1 slot2 H1 H2.
    destruct (decide (k1 = kid)) as [->|Hne1], (decide (k2 = kid)) as [->|Hne2];
      try done.
    + rewrite lookup_insert_eq in H1. injection H1 as <- _.
      rewrite lookup_insert_ne in H2 by done.
      pose proof (inv_event_bound c Hinv _ _ _ H2). lia.
    + rewrite lookup_insert_eq in H2. injection H2 as <- _.
      rewrite lookup_insert_ne in H1 by done.
      pose proof (inv_event_bound c Hinv _ _ _ H1). lia.
    + rewrite lookup_insert_ne in H1, H2 by done.
      by apply (inv_event_inj c Hinv k1 k2 e slot1 slot2).
  - intros k e packet Hl. destruct (decide (k = kid)) as [->|Hne].
    + rewrite lookup_insert_eq in Hl. discriminate.
    + rewrite lookup_insert_ne in Hl by done. by apply (inv_slot_id c Hinv k e).
  - intros k e slot Hl Hset. destruct (decide (k = kid)) as [->|Hne].
    + rewrite lookup_insert_eq in Hl. injection Hl as <- _.
      rewrite lookup_app_r, Nat.sub_diag in Hset by lia. discriminate.
    + rewrite lookup_insert_ne in Hl by done.
      pose proof (inv_event_bound c Hinv k e slot Hl).
      rewrite lookup_app_l in Hset by done.
      by apply (inv_set_filled c Hinv k e slot).
  - intros k e Hin.
    assert (In (k, e) (waiting c) \/ (k, e) = (kid, length (events c))) as [Hw|[= -> ->]].
    { destruct out.1; [|by left].
      apply in_app_or in Hin as [?|[?|[]]]; [by left|by right]. }
    + destruct (inv_waiting c Hinv k e Hw) as (slot & Hl).
      exists slot. rewrite lookup_insert_ne; [done|]. intros <-. congruence.
    + exists None. by rewrite lookup_insert_eq.
  - intros k outcome Hin.
    assert (In (k, Ok outcome) (finished c)) as Hf.
    { destruct out.1; [done|].
      apply in_app_or in Hin as [?|[[=]|[]]]. done. }
    destruct (inv_finished c Hinv k outcome Hf) as (packet & ? & ? & e & packet' & Hl).
    exists packet. split; [done|]. split; [done|]. exists e, packet'.
    rewrite lookup_insert_ne; [done|]. intros <-. congruence.
  - intros k Hin. apply (Permutation_in _ Hids) in Hin as [<-|Hin].
    + exists (current_id c). split; [lia|done].
    + destruct (inv_ids c Hinv k Hin) as (n & Hn & Heq). exists n. split; [lia|done].
  - rewrite Hids. apply NoDup_cons.
    split; [by rewrite list_elem_of_In|apply (inv_ids_nodup c Hinv)].
Qed.

(** ** The receive loop and the end of a call *)

Lemma client_inv_frame (c c' : Client) :
  expected_packets c' = expected_packets c -> events c' = events c ->
  current_id c' = current_id c -> waiting c' = waiting c ->
  finished c' = finished c -> client_inv c -> client_inv c'.
Proof.
  intros Ht He Hc Hw Hf [H1 H2 H3 H4 H5 H6 H7 H8 H9].
  split; unfold call_ids in *; rewrite ?Ht, ?He, ?Hc, ?Hw, ?Hf; assumption.
Qed.

(** The three ways an iteration of [read_packets] can go: the loop ends
    with an exception, the packet goes to [handle_broadcast], or the packet
    is stored in the record under its own [id] and the event of that record
    is set. *)
Lemma read_packets_cases (r : result value) (c : Client) :
  (exists e,
     read_packets r c =
     mkClient (heap c) (stream c) (expected_packets c) (events c) (current_id c)
       (broadcast_tasks c) (Some e) (waiting c) (finished c)
     /\ (r = Raise e
         \/ (exists packet, r = Ok packet /\ py_getattr packet "id" = Raise e)
         \/ (exists packet id, r = Ok packet /\ py_getattr packet "id" = Ok id
                               /\ hashable id = false)))
  \/ (exists packet id,
        r = Ok packet /\ py_getattr packet "id" = Ok id
        /\ py_in id (expected_packets c) = Ok false
        /\ read_packets r c =
           mkClient (heap c) (stream c) (expected_packets c) (events c)
             (current_id c) (broadcast_tasks c ++ [packet]) (read_task c)
             (waiting c) (finished c))
  \/ (exists packet k event slot,
        r = Ok packet /\ has_id packet k
        /\ expected_packets c !! k = Some (event, slot)
        /\ read_packets r c =
           mkClient (heap c) (stream c)
             (<[k := (event, Some packet)]> (expected_packets c))
             (<[event := true]> (events c)) (current_id c)
             (broadcast_tasks c) (read_task c) (waiting c) (finished c)).
Proof.
  destruct r as [packet|e]; simpl; [|left; exists e; by auto].
  destruct (py_getattr packet "id") as [id|e] eqn:Hid;
    [|left; exists e; split; [done|right; left; by exists packet]].
  destruct id as [|b|z|k|l|d|l|f]; simpl;
    try (right; left; by eexists packet, _);
    try (left; exists TypeError; split; [done|]; right; right; by eexists packet, _).
  destruct (expected_packets c !! k) as [[event slot]|] eqn:Hl.
  - rewrite bool_decide_eq_true_2 by (by eexists).
    right; right. by exists packet, k, event, slot.
  - rewrite bool_decide_eq_false_2 by (by intros [? ?]).
    right; left. exists packet, (VStr k). simpl. rewrite Hl.
    by rewrite bool_decide_eq_false_2 by (by intros [? ?]).
Qed.

Lemma read_packets_inv (r : result value) (c : Client) :
  client_inv c -> client_inv (read_packets r c).
Proof.
  intros Hinv.
  destruct (read_packets_cases r c)
    as [(e & -> & _)|[(packet & id & _ & _ & _ & ->)
                     |(packet & k & event & slot & _ & Hid & Hk & ->)]];
    try (by apply (client_inv_frame c)).
  split; simpl.
  - intros k' rec Hl. destruct (decide (k' = k)) as [->|Hne].
    + by apply (inv_keys c Hinv k (event, slot)).
    + rewrite lookup_insert_ne in Hl by done. by apply (inv_keys c Hinv k' rec).
  - intros k' e slot' Hl. rewrite length_insert.
    destruct (decide (k' = k)) as [->|Hne].
    + rewrite lookup_insert_eq in Hl. injection Hl as <- _.
      by apply (inv_event_bound c Hinv k event slot).
    + rewrite lookup_insert_ne in Hl by done.
      by apply (inv_event_bound c Hinv k' e slot').
  - intros k1 k2 e slot1 slot2 H1 H2.
    assert (forall k', <[k:=(event, Some packet)]> (expected_packets c) !! k'
                       = Some (e, slot1) \/
                       <[k:=(event, Some packet)]> (expected_packets c) !! k'
                       = Some (e, slot2) ->
                       exists slot', expected_packets c !! k' = Some (e, slot'))
      as Hback.
    { intros k' Hl. destruct (decide (k' = k)) as [->|Hne].
      - rewrite lookup_insert_eq in Hl. exists slot.
        destruct Hl as [[= <- _]|[= <- _]]; done.
      - rewrite lookup_insert_ne in Hl by done. destruct Hl; by eexists. }
    destruct (Hback k1 (or_introl H1)) as (s1 & Hs1).
    destruct (Hback k2 (or_intror H2)) as (s2 & Hs2).
    by apply (inv_event_inj c Hinv k1 k2 e s1 s2).
  - intros k' e packet' Hl. destruct (decide (k' = k)) as [->|Hne].
    + rewrite lookup_insert_eq in Hl. by injection Hl as _ <-.
    + rewrite lookup_insert_ne in Hl by done. by apply (inv_slot_id c Hinv k' e).
  - intros k' e slot' Hl Hset. destruct (decide (k' = k)) as [->|Hne].
    + rewrite lookup_insert_eq in Hl. by injection Hl as _ <-.
    + rewrite lookup_insert_ne in Hl by done.
      apply (inv_set_filled c Hinv k' e slot' Hl).
      rewrite list_lookup_insert_ne in Hset; [done|].
      intros <-. apply Hne. by apply (inv_event_inj c Hinv k' k event slot' slot).
  - intros k' e Hin. destruct (inv_waiting c Hinv k' e Hin) as (slot' & Hl).
    destruct (decide (k' = k)) as [->|Hne].
    + exists (Some packet). rewrite lookup_insert_eq. congruence.
    + exists slot'. by rewrite lookup_insert_ne.
  - intros k' outcome Hin.
    destruct (inv_finished c Hinv k' outcome Hin)
      as (packet0 & ? & ? & e & packet' & Hl).
    exists packet0. split; [done|]. split; [done|].
    destruct (decide (k' = k)) as [->|Hne].
    + exists event, packet. by rewrite lookup_insert_eq.
    + exists e, packet'. by rewrite lookup_insert_ne.
  - apply (inv_ids c Hinv).
  - apply (inv_ids_nodup c Hinv).
Qed.

(** A call that is resumed returns the packet stored under its own
    identifier. *)
Lemma resume_cases (i : nat) (c : Client) :
  client_inv c ->
  resume i c = c
  \/ exists k e packet,
       waiting c !! i = Some (k, e) /\ events c !! e = Some true
       /\ expected_packets c !! k = Some (e, Some packet) /\ has_id packet k
       /\ resume i c =
          mkClient (heap c) (stream c) (expected_packets c) (events c)
            (current_id c) (broadcast_tasks c) (read_task c)
            (delete i (waiting c)) (finished c ++ [(k, Ok (Some packet))]).
Proof.
  intros Hinv. unfold resume.
  destruct (waiting c !! i) as [[k e]|] eqn:Hw; [|by left].
  destruct (events c !! e) as [[]|] eqn:He; try by left.
  right.
  assert (In (k, e) (waiting c)) as Hin
    by (apply list_elem_of_In, list_elem_of_lookup; by exists i).
  destruct (inv_waiting c Hinv k e Hin) as (slot & Hl).
  destruct slot as [packet|]; [|by destruct (inv_set_filled c Hinv k e None Hl He)].
  exists k, e, packet. rewrite Hl.
  repeat split; try done. by apply (inv_slot_id c Hinv k e).
Qed.

Lemma resume_inv (i : nat) (c : Client) : client_inv c -> client_inv (resume i c).
Proof.
  intros Hinv.
  destruct (resume_cases i c Hinv)
    as [->|(k & e & packet & Hw & He & Hl & Hid & ->)]; [done|].
  pose proof (delete_Permutation (waiting c) i (k, e) Hw) as Hperm.
  assert (Permutation
            (map fst (delete i (waiting c))
             ++ map fst (finished c ++ [(k, Ok (Some packet))]))
            (call_ids c)) as Hids.
  { unfold call_ids. rewrite Hperm at 2. rewrite map_app. simpl. solve_Permutation. }
  split; simpl; try apply Hinv.
  - intros k' e' Hin. apply (inv_waiting c Hinv).
    apply (Permutation_in _ (Permutation_sym Hperm)). by right.
  - intros k' outcome Hin. apply in_app_or in Hin as [Hin|[[= <- <-]|[]]].
    + by apply (inv_finished c Hinv).
    + exists packet. split; [done|]. split; [done|]. by exists e, packet.
  - intros k' Hin. apply (inv_ids c Hinv). by apply (Permutation_in _ Hids).
  - unfold call_ids. simpl. rewrite Hids. apply (inv_ids_nodup c Hinv).
Qed.

Lemma new_client_inv (objects : gmap nat value) (s : Stream) :
  client_inv (new_client objects s).
Proof.
  split; simpl; intros;
    repeat match goal with
           | H : ∅ !! _ = Some _ |- _ => rewrite lookup_empty in H
           end;
    try done.
  constructor.
Qed.

Lemma client_step_inv (c : Client) (ev : client_event) :
  client_inv c -> client_inv (client_step c ev).
Proof.
  intros Hinv. destruct ev as [p|r|i]; simpl.
  - by apply request_inv.
  - destruct (read_task c); [done|]. by apply read_packets_inv.
  - by apply resume_inv.
Qed.

Lemma client_run_inv (c : Client) (trace : list client_event) :
  client_inv c -> client_inv (client_run c trace).
Proof.
  revert c. induction trace as [|ev trace IH]; intros c Hinv; [done|].
  simpl. apply IH. by apply client_step_inv.
Qed.

Lemma dict_get_set_eq {V} (k : string) (v : V) (d : list (string * V)) :
  dict_get k (dict_set k v d) = Some v.
Proof.
  induction d as [|[k' v'] d IH]; simpl.
  - by rewrite String.eqb_refl.
  - destruct (String.eqb_spec k k') as [->|Hne]; simpl.
    + by rewrite String.eqb_refl.
    + by destruct (String.eqb_spec k k').
Qed.

Lemma dict_get_set_ne {V} (k k' : string) (v : V) (d : list (string * V)) :
  k' <> k -> dict_get k' (dict_set k v d) = dict_get k' d.
Proof.
  intros Hne. induction d as [|[k0 v0] d IH]; simpl.
  - by destruct (String.eqb_spec k' k).
  - destruct (String.eqb_spec k k0) as [->|Hne0]; simpl.
    + by destruct (String.eqb_spec k' k0).
    + by destruct (String.eqb_spec k' k0).
Qed.

Example packet_id_of_counter :
  "c" +:+ string_of_N 0 = "c0" /\ "c" +:+ string_of_N 12 = "c12".
Proof. split; reflexivity. Qed.

(** ** The correlator *)

Example out_of_order_correlation :
  finished (client_after sample_objects empty_stream out_of_order_trace)
  = [("c1", Ok (Some (response "c1" 1))); ("c0", Ok (Some (response "c0" 2)))].
Proof. vm_compute. reflexivity. Qed.

Lemma client_step_keeps_records (c : Client) (ev : client_event) (k : string)
    (rec : nat * option value) :
  expected_packets c !! k = Some rec ->
  exists rec', expected_packets (client_step c ev) !! k = Some rec'.
Proof.
  intros Hl. destruct ev as [p|r|i]; simpl.
  - destruct (heap c !! p) as [obj|] eqn:Hp;
      [|rewrite request_not_dict; [by eexists|intros d; congruence]].
    destruct obj as [| | | | |d| |];
      try (rewrite request_not_dict; [by eexists|intros d'; congruence]).
    rewrite (request_eq p c d Hp). simpl.
    destruct (decide (k = "c" +:+ string_of_N (current_id c))) as [->|Hne].
    + rewrite lookup_insert_eq. by eexists.
    + rewrite lookup_insert_ne by done. by eexists.
  - destruct (read_task c); [by eexists|].
    destruct (read_packets_cases r c)
      as [(e & -> & _)|[(packet & id & _ & _ & _ & ->)
                       |(packet & k' & event & slot & _ & _ & _ & ->)]];
      simpl; try by eexists.
    destruct (decide (k = k')) as [->|Hne].
    + rewrite lookup_insert_eq. by eexists.
    + rewrite lookup_insert_ne by done. by eexists.
  - unfold resume. destruct (waiting c !! i) as [[k' e]|]; [|by eexists].
    destruct (events c !! e) as [[]|]; simpl; by eexists.
Qed.

Lemma client_run_keeps_records (c : Client) (trace : list client_event)
    (k : string) (rec : nat * option value) :
  expected_packets c !! k = Some rec ->
  exists rec', expected_packets (client_run c trace) !! k = Some rec'.
Proof.
  revert c rec. induction trace as [|ev trace IH]; intros c rec Hl; [by eexists|].
  destruct (client_step_keeps_records c ev k rec Hl) as (rec' & Hl').
  simpl. by apply (IH _ rec').
Qed.

(** C6, as stated, fails: once both calls of the sample run have returned,
    nothing is suspended and the table still holds the record of each
    call, with the response that was delivered. *)
Lemma records_survive_return :
  waiting (client_after sample_objects empty_stream out_of_order_trace) = []
  /\ In ("c0", Ok (Some (response "c0" 2)))
       (finished (client_after sample_objects empty_stream out_of_order_trace))
  /\ expected_packets (client_after sample_objects empty_stream out_of_order_trace)
       !! "c0" = Some (0, Some (response "c0" 2))
  /\ expected_packets (client_after sample_objects empty_stream out_of_order_trace)
       !! "c1" = Some (1, Some (response "c1" 1)).
Proof. vm_compute. repeat split. right. left. reflexivity. Qed.

(** C6 (amended). For every [request] call that has returned, the record
    keyed by the identifier of the call holds a response bearing that
    identifier; the record is not destroyed when the call returns: a record
    of the table stays in the table in every later state of the client. *)
Theorem records_outlive_calls (objects : gmap nat value) (s : Stream)
    (trace : list client_event) :
  (forall k outcome,
     In (k, Ok outcome) (finished (client_after objects s trace)) ->
     exists event packet,
       expected_packets (client_after objects s trace) !! k = Some (event, Some packet)
       /\ py_getattr packet "id" = Ok (VStr k))
  /\ (forall k rec later,
        expected_packets (client_after objects s trace) !! k = Some rec ->
        exists rec',
          expected_packets (client_run (client_after objects s trace) later) !! k
          = Some rec').
Proof.
  pose proof (client_run_inv _ trace (new_client_inv objects s)) as Hinv.
  fold (client_after objects s trace) in Hinv.
  split.
  - intros k outcome Hin.
    destruct (inv_finished _ Hinv k outcome Hin) as (_ & _ & _ & e & packet & Hl).
    exists e, packet. split; [done|]. by apply (inv_slot_id _ Hinv k e).
  - intros k rec later Hl. by apply (client_run_keeps_records _ later k rec).
Qed.

Lemma records_outlive_calls_witness :
  (exists event packet,
     expected_packets (client_after sample_objects empty_stream out_of_order_trace)
       !! "c0" = Some (event, Some packet)
     /\ py_getattr packet "id" = Ok (VStr "c0"))
  /\ exists rec',
       expected_packets
         (client_run (client_after sample_objects empty_stream out_of_order_trace)
            [Request 0; Received (Ok packet_without_id)]) !! "c1" = Some rec'.
Proof.
  split.
  - apply (proj1 (records_outlive_calls sample_objects empty_stream
                    out_of_order_trace) "c0" (Some (response "c0" 2))).
    vm_compute. right. left. reflexivity.
  - apply (proj2 (records_outlive_calls sample_objects empty_stream
                    out_of_order_trace) "c1" (1, Some (response "c1" 1))).
    vm_compute. reflexivity.
Defined.

(** C7, as stated, fails for a packet that carries no [id] field: reading
    [packet.id] raises, no [handle_broadcast] task is created for the packet
    and the receive loop ends. *)
Lemma packet_without_id_not_broadcast :
  py_getattr packet_without_id "id" = Raise (KeyError "id")
  /\ broadcast_tasks
       (client_step (new_client sample_objects empty_stream)
          (Received (Ok packet_without_id))) = []
  /\ read_task
       (client_step (new_client sample_objects empty_stream)
          (Received (Ok packet_without_id))) = Some (KeyError "id").
Proof. repeat split. Qed.

(** C7 (amended). For every packet received by the receive loop that
    carries an [id] field whose value is hashable (a string, a number, a
    boolean or [None]) and is the key of no pending request record, exactly
    one [handle_broadcast] task is created for the packet, and the table of
    records, the events, the suspended calls and the finished calls are left
    as they were: no waiter is resolved. *)
Theorem unmatched_packet_broadcast (c : Client) (packet id : value) :
  read_task c = None ->
  py_getattr packet "id" = Ok id ->
  hashable id = true ->
  (forall k, id = VStr k -> expected_packets c !! k = None) ->
  broadcast_tasks (client_step c (Received (Ok packet))) = broadcast_tasks c ++ [packet]
  /\ expected_packets (client_step c (Received (Ok packet))) = expected_packets c
  /\ events (client_step c (Received (Ok packet))) = events c
  /\ waiting (client_step c (Received (Ok packet))) = waiting c
  /\ finished (client_step c (Received (Ok packet))) = finished c
  /\ read_task (client_step c (Received (Ok packet))) = None.
Proof.
  intros Hrun Hid Hh Hnone. simpl. rewrite Hrun. unfold read_packets. rewrite Hid.
  assert (py_in id (expected_packets c) = Ok false) as ->.
  { destruct id as [|b|z|k| | | |f]; simpl in *; try done.
    rewrite (Hnone k eq_refl). by rewrite bool_decide_eq_false_2 by (by intros [? ?]). }
  by repeat split.
Qed.

Lemma unmatched_packet_broadcast_witness :
  broadcast_tasks
    (client_step (client_after sample_objects empty_stream [Request 0])
       (Received (Ok (response "b7" 0))))
  = broadcast_tasks (client_after sample_objects empty_stream [Request 0])
    ++ [response "b7" 0]
  /\ events
       (client_step (client_after sample_objects empty_stream [Request 0])
          (Received (Ok (response "b7" 0))))
     = events (client_after sample_objects empty_stream [Request 0]).
Proof.
  destruct (unmatched_packet_broadcast
              (client_after sample_objects empty_stream [Request 0])
              (response "b7" 0) (VStr "b7")) as (Hb & _ & He & _).
  - reflexivity.
  - reflexivity.
  - reflexivity.
  - intros k [= <-]. vm_compute. reflexivity.
  - split; [exact Hb|exact He].
Defined.

(** C9. [request(p)] changes the object its caller passed: whatever the
    state of the client, after the call has started the object at the
    address [p] is the caller's mapping with the key [id] bound to the
    string made of the letter c and the decimal digits of the value the
    counter had, its other keys are bound as before, and the counter has
    advanced by one. *)
Theorem request_mutates_packet (c : Client) (p : nat) (d : list (string * value)) :
  heap c !! p = Some (VDict d) ->
  exists d',
    heap (client_step c (Request p)) !! p = Some (VDict d')
    /\ dict_get "id" d' = Some (VStr ("c" +:+ string_of_N (current_id c)))
    /\ (forall key, key <> "id" -> dict_get key d' = dict_get key d)
    /\ current_id (client_step c (Request p)) = (current_id c + 1)%N.
Proof.
  intros Hp. simpl. rewrite (request_eq p c d Hp). simpl.
  exists (dict_set "id" (VStr ("c" +:+ string_of_N (current_id c))) d).
  split; [by rewrite lookup_insert_eq|].
  split; [apply dict_get_set_eq|].
  split; [|done]. intros key Hne. by apply dict_get_set_ne.
Qed.

Lemma request_mutates_packet_witness :
  exists d',
    heap (client_step (client_after sample_objects empty_stream [Request 0])
            (Request 1)) !! 1 = Some (VDict d')
    /\ dict_get "id" d' = Some (VStr "c1")
    /\ (forall key, key <> "id" ->
        dict_get key d' = dict_get key [("type", VStr "exec"); ("code", VStr "pass")])
    /\ current_id (client_step (client_after sample_objects empty_stream [Request 0])
                     (Request 1)) = 2%N.
Proof.
  apply (request_mutates_packet (client_after sample_objects empty_stream [Request 0])
           1 [("type", VStr "exec"); ("code", VStr "pass")]).
  vm_compute. reflexivity.
Defined.

(** ** The dispatcher *)

Lemma list_remove_other (x y : nat) (l l' : list nat) :
  list_remove x l = Ok l' -> y <> x -> In y l -> In y l'.
Proof.
  revert l'. induction l as [|z l IH]; simpl; intros l' Hr Hne Hin; [done|].
  destruct (Nat.eqb_spec x z) as [->|Hxz].
  - injection Hr as <-. destruct Hin as [->|Hin]; done.
  - destruct (list_remove x l) as [l''|e]; simpl in Hr; [|done].
    injection Hr as <-. destruct Hin as [->|Hin]; [by left|].
    right. by apply IH.
Qed.

Ltac serve_shape_branch Hst :=
  (split; [reflexivity|]); (split; [rewrite Hst; intros []|]);
  (split; [reflexivity|]); (split; [by repeat constructor|]);
  (split;
   [ first
       [ left; split; [reflexivity|];
         first
           [ left; simpl; discriminate
           | right; left; reflexivity
           | right; right; right; eexists _, _; simpl;
             split; [reflexivity|]; split; eassumption ]
       | right; split; [reflexivity|];
         repeat (split; [first [reflexivity|eassumption]|]);
         eexists _, _, _; split; [eassumption|]; split; [reflexivity|];
         split; eassumption ]
   | simpl; intros Hdr;
     first
       [ discriminate Hdr
       | unfold loop_top in Hdr;
         match type of Hdr with
         | context [if ?b then _ else _] => destruct b
         end; discriminate Hdr
       | split; [first [reflexivity|eassumption]|]; by eexists ] ]).

(** What resuming the coroutine of [sid] can change: nothing, or the
    record of [sid] only, together with new tasks for packets of [sid] and,
    in the [disconnect] branch alone, the removal of [sid] from
    [self.connections]. *)
Lemma serve_shape {H} (sid : nat) (srv : Server H) :
  serve sid srv = srv
  \/ exists conn conn' conns tasks,
       streams srv !! sid = Some conn
       /\ ~ ended (state conn)
       /\ serve sid srv =
          mkServer (auth srv) (packet_handlers srv) (closing srv) conns
            (<[sid := conn']> (streams srv)) (handler_tasks srv ++ tasks)
       /\ Forall (fun t => t.1.2 = sid) tasks
       /\ ((conns = connections srv
            /\ (state conn' <> Returned \/ authed conn' = false
                \/ (state conn = Draining /\ packets_read conn' = packets_read conn)
                \/ exists packet type,
                     packets_read conn' = packets_read conn ++ [packet]
                     /\ py_getattr packet "type" = Ok type
                     /\ py_eq type (VStr "disconnect") = false))
           \/ (list_remove sid (connections srv) = Ok conns
               /\ authed conn = true /\ state conn = Reading
               /\ authed conn' = true /\ state conn' = Returned
               /\ exists packet rest type,
                    inbox conn = Ok packet :: rest
                    /\ packets_read conn' = packets_read conn ++ [packet]
                    /\ py_getattr packet "type" = Ok type
                    /\ py_eq type (VStr "disconnect") = true))
       /\ (state conn' = Draining ->
           authed conn = false
           /\ exists packet, packets_read conn' = packets_read conn ++ [packet]).
Proof.
  unfold serve.
  destruct (streams srv !! sid) as [conn|] eqn:Hs; [|by left].
  destruct (state conn) eqn:Hst; [| |by left|by left].
  - destruct (inbox conn) as [|[packet|e] rest] eqn:Hinbox; [by left| |].
    + unfold handle_packet. destruct (authed conn) eqn:Hau; simpl negb; cbv iota;
      repeat match goal with
             | |- context [match ?x with _ => _ end] => destruct x eqn:?
             | |- context [if ?x then _ else _] => destruct x eqn:?
             end;
        right;
        first
          [ exists conn; eexists; eexists; exists []; rewrite app_nil_r;
            serve_shape_branch Hst
          | exists conn; eexists; eexists; eexists [_]; serve_shape_branch Hst ].
    + right. exists conn. eexists. eexists. exists []. rewrite app_nil_r.
      split; [reflexivity|]. split; [rewrite Hst; intros []|].
      split; [reflexivity|]. split; [by constructor|].
      split; [left; split; [reflexivity|]; by left|]. by simpl.
  - right. exists conn. eexists. eexists. exists []. rewrite app_nil_r.
    split; [reflexivity|]. split; [rewrite Hst; intros []|].
    split; [reflexivity|]. split; [by constructor|].
    split; [left; split; [reflexivity|]; right; right; by left|].
    simpl. intros Hdr. unfold loop_top in Hdr. by destruct (closing srv).
Qed.

Lemma tasks_of_app_other {H} (sid sid' : nat) (tasks new : list (H * nat * value)) :
  sid <> sid' -> Forall (fun t => t.1.2 = sid') new ->
  tasks_of sid (tasks ++ new) = tasks_of sid tasks.
Proof.
  intros Hne Hnew. unfold tasks_of. rewrite filter_app.
  assert (filter (fun t : H * nat * value => t.1.2 = sid) new = []) as ->;
    [|by rewrite app_nil_r].
  induction Hnew as [|t new Ht _ IH]; [done|].
  rewrite filter_cons_False; [done|]. intros Heq. apply Hne. congruence.
Qed.

(** Once the coroutine of a connection has ended, no transition of the
    server reads from the connection, writes to it or creates a task for
    it. *)
Lemma ended_step {H} (srv : Server H) (ev : server_event) (sid : nat)
    (conn : Connection) :
  streams srv !! sid = Some conn -> ended (state conn) ->
  exists conn',
    streams (server_step srv ev) !! sid = Some conn'
    /\ state conn' = state conn /\ packets_read conn' = packets_read conn
    /\ conn_stream conn' = conn_stream conn /\ authed conn' = authed conn
    /\ tasks_of sid (handler_tasks (server_step srv ev))
       = tasks_of sid (handler_tasks srv).
Proof.
  intros Hs Hend. pose proof (lookup_lt_Some _ _ _ Hs) as Hlt.
  destruct ev as [|sid' r|sid'|]; simpl.
  - exists conn. rewrite lookup_app_l by done. by repeat split.
  - unfold arrive. destruct (streams srv !! sid') as [conn0|] eqn:Hs0;
      [|exists conn; by repeat split].
    simpl. destruct (decide (sid' = sid)) as [->|Hne].
    + rewrite list_lookup_insert_eq by done. eexists. split; [reflexivity|].
      simpl. replace conn0 with conn by congruence. by repeat split.
    + rewrite list_lookup_insert_ne by done. exists conn. by repeat split.
  - destruct (serve_shape sid' srv)
      as [->|(conn0 & conn' & conns & tasks & Hs0 & Hlive & -> & Htasks & _)];
      [exists conn; by repeat split|].
    assert (sid <> sid') as Hne by (intros ->; apply Hlive; congruence).
    simpl. rewrite list_lookup_insert_ne by done. exists conn.
    repeat split; try done. by apply (tasks_of_app_other sid sid').
  - exists conn. by repeat split.
Qed.

Lemma ended_run {H} (srv : Server H) (later : list server_event) (sid : nat)
    (conn : Connection) :
  streams srv !! sid = Some conn -> ended (state conn) ->
  exists conn',
    streams (server_run srv later) !! sid = Some conn'
    /\ state conn' = state conn /\ packets_read conn' = packets_read conn
    /\ conn_stream conn' = conn_stream conn /\ authed conn' = authed conn
    /\ tasks_of sid (handler_tasks (server_run srv later))
       = tasks_of sid (handler_tasks srv).
Proof.
  revert srv conn. induction later as [|ev later IH]; intros srv conn Hs Hend.
  - exists conn. by repeat split.
  - destruct (ended_step srv ev sid conn Hs Hend)
      as (conn1 & Hs1 & Hst1 & Hr1 & Hw1 & Ha1 & Ht1).
    destruct (IH (server_step srv ev) conn1 Hs1) as (conn2 & ? & ? & ? & ? & ? & ?);
      [by rewrite Hst1|].
    exists conn2. simpl. repeat split; congruence.
Qed.

Lemma server_run_app {H} (srv : Server H) (t1 t2 : list server_event) :
  server_run srv (t1 ++ t2) = server_run (server_run srv t1) t2.
Proof. apply fold_left_app. Qed.

(** C3, as stated, fails for a first packet that carries a wrong [auth]
    value and no [id] field: building the answer reads [packet.id], which
    raises, and nothing is written to the connection. *)
Lemma bad_auth_without_id_unanswered :
  py_get (auth_packet_without_id "guess") "auth" = Ok (VStr "guess")
  /\ py_eq (VStr "guess") (VStr (auth sample_server)) = false
  /\ streams (server_run sample_server
                [Accepted; Arrived 0 (Ok (auth_packet_without_id "guess")); Served 0])
     !! 0
     = Some (mkConnection (mkStream [] []) [] false (Failed (KeyError "id"))
               [auth_packet_without_id "guess"]).
Proof. repeat split. Qed.

(** The same happens when the answer does not fit in a frame: the [id] to
    echo is longer than the frame limit, [write_packet] raises and nothing
    is written. *)
Lemma bad_auth_with_long_id_unanswered :
  (fun conn => (writer (conn_stream conn), state conn))
    <$> streams (server_run sample_server
                   [Accepted; Arrived 0 (Ok (auth_packet_long_id "guess")); Served 0])
        !! 0
  = Some ([], Failed (ValueError "Packet is too big to send...")).
Proof. vm_compute. reflexivity. Qed.

(** C3 (amended). Let an unauthenticated connection read a packet that
    carries no [auth] field or an [auth] value unequal to the configured
    secret. If the packet carries an [id] field and the answer fits in a
    frame, the server writes the frame of an [auth-response] packet with
    [success] false and that [id], and the coroutine of the connection
    returns. In every case the coroutine of the connection ends, and from
    then on no packet that arrives on the connection is read and no task is
    created for the connection. *)
Theorem failed_auth_ends_connection {H} (srv : Server H) (sid : nat)
    (conn : Connection) (packet given : value) (rest : list (result value)) :
  streams srv !! sid = Some conn ->
  state conn = Reading ->
  authed conn = false ->
  inbox conn = Ok packet :: rest ->
  py_get packet "auth" = Ok given ->
  py_eq given (VStr (auth srv)) = false ->
  (forall id,
     py_getattr packet "id" = Ok id ->
     (Z.of_nat (length (dumps (auth_response false id))) <= 65531)%Z ->
     exists conn',
       streams (server_step srv (Served sid)) !! sid = Some conn'
       /\ writer (conn_stream conn')
          = writer (conn_stream conn) ++ frame (dumps (auth_response false id))
       /\ state conn' = Returned)
  /\ (exists conn',
        streams (server_step srv (Served sid)) !! sid = Some conn'
        /\ ended (state conn')
        /\ packets_read conn' = packets_read conn ++ [packet]
        /\ forall later,
             exists conn'',
               streams (server_run (server_step srv (Served sid)) later) !! sid
               = Some conn''
               /\ packets_read conn'' = packets_read conn'
               /\ state conn'' = state conn'
               /\ conn_stream conn'' = conn_stream conn'
               /\ tasks_of sid
                    (handler_tasks (server_run (server_step srv (Served sid)) later))
                  = tasks_of sid (handler_tasks srv)).
Proof.
  intros Hs Hst Hauthed Hinbox Hget Hne.
  pose proof (lookup_lt_Some _ _ _ Hs) as Hlt.
  assert (server_step srv (Served sid) = handle_packet srv sid conn rest packet)
    as Hstep by (simpl; unfold serve; by rewrite Hs, Hst, Hinbox).
  rewrite Hstep. unfold handle_packet. rewrite Hauthed, Hget, Hne. simpl negb.
  cbv iota. split.
  - intros id Hid Hfit. rewrite Hid, write_packet_cases.
    destruct (Z.ltb_spec (Z.of_nat (length (dumps (auth_response false id))))
                (2 ^ 31)) as [_|Hge]; [|lia].
    destruct (Z.ltb_spec 65535
                (4 + Z.of_nat (length (dumps (auth_response false id)))))
      as [Hgt|_]; [lia|].
    simpl. rewrite list_lookup_insert_eq by done. eexists. by repeat split.
  - assert (forall srv' conn',
              streams srv' !! sid = Some conn' -> ended (state conn') ->
              packets_read conn' = packets_read conn ++ [packet] ->
              handler_tasks srv' = handler_tasks srv ->
              exists conn'0,
                streams srv' !! sid = Some conn'0 /\ ended (state conn'0)
                /\ packets_read conn'0 = packets_read conn ++ [packet]
                /\ forall later,
                     exists conn'',
                       streams (server_run srv' later) !! sid = Some conn''
                       /\ packets_read conn'' = packets_read conn'0
                       /\ state conn'' = state conn'0
                       /\ conn_stream conn'' = conn_stream conn'0
                       /\ tasks_of sid (handler_tasks (server_run srv' later))
                          = tasks_of sid (handler_tasks srv)) as Hfin.
    { intros srv' conn' Hs' Hend Hread Htasks. exists conn'.
      repeat split; try done. intros later.
      destruct (ended_run srv' later sid conn' Hs' Hend)
        as (conn'' & ? & ? & ? & ? & _ & Ht).
      exists conn''. rewrite Ht, Htasks. by repeat split. }
    destruct (py_getattr packet "id") as [id|e].
    + destruct (write_packet (auth_response false id) (conn_stream conn))
        as [[[]|e] s]; eapply Hfin; simpl;
        try (by rewrite list_lookup_insert_eq by done); done.
    + eapply Hfin; simpl; try (by rewrite list_lookup_insert_eq by done); done.
Qed.

Lemma failed_auth_ends_connection_witness :
  (exists conn',
     streams (server_step
                (server_run sample_server
                   [Accepted; Arrived 0 (Ok (auth_packet "guess" "c0"));
                    Arrived 0 (Ok (eval_packet "c1"))])
                (Served 0)) !! 0 = Some conn'
     /\ writer (conn_stream conn')
        = [] ++ frame (dumps (auth_response false (VStr "c0")))
     /\ state conn' = Returned)
  /\ exists conn'',
       streams (server_run
                  (server_step
                     (server_run sample_server
                        [Accepted; Arrived 0 (Ok (auth_packet "guess" "c0"));
                         Arrived 0 (Ok (eval_packet "c1"))])
                     (Served 0))
                  [Served 0; Arrived 0 (Ok (eval_packet "c2")); Served 0]) !! 0
       = Some conn''
       /\ packets_read conn'' = [auth_packet "guess" "c0"]
       /\ tasks_of 0
            (handler_tasks
               (server_run
                  (server_step
                     (server_run sample_server
                        [Accepted; Arrived 0 (Ok (auth_packet "guess" "c0"));
                         Arrived 0 (Ok (eval_packet "c1"))])
                     (Served 0))
                  [Served 0; Arrived 0 (Ok (eval_packet "c2")); Served 0]))
          = [].
Proof.
  destruct (failed_auth_ends_connection
              (server_run sample_server
                 [Accepted; Arrived 0 (Ok (auth_packet "guess" "c0"));
                  Arrived 0 (Ok (eval_packet "c1"))])
              0
              (mkConnection (mkStream [] [])
                 [Ok (auth_packet "guess" "c0"); Ok (eval_packet "c1")]
                 false Reading [])
              (auth_packet "guess" "c0") (VStr "guess") [Ok (eval_packet "c1")])
    as [Hanswer (conn' & Hs' & _ & Hread & Hlater)];
    try reflexivity.
  split.
  - apply (Hanswer (VStr "c0")); [reflexivity|]. vm_compute. discriminate.
  - destruct (Hlater [Served 0; Arrived 0 (Ok (eval_packet "c2")); Served 0])
      as (conn'' & Hs'' & Hread'' & _ & _ & Htasks).
    exists conn''. split; [exact Hs''|]. split; [|exact Htasks].
    rewrite Hread''. exact Hread.
Defined.

(** * Further properties of the code *)

(** ** [StreamReader.read] and [Stream.read_packet] *)

(** A read never drops or reorders input: what it returns, followed by
    what is left, is the input; a read for [n >= 0] bytes returns at most
    [n]. *)
Lemma reader_read_split (n : Z) (r : list (list byte)) :
  concat r = (reader_read n r).1 ++ concat (reader_read n r).2
  /\ ((0 <= n)%Z -> (Z.of_nat (length (reader_read n r).1) <= n)%Z).
Proof.
  induction r as [|c r IH]; simpl; [split; [done|simpl; lia]|].
  destruct (Z.eqb_spec n 0) as [->|Hn0]; [split; [done|simpl; lia]|].
  destruct (Z.ltb_spec n 0) as [Hneg|Hpos].
  { split; [by rewrite app_nil_r|lia]. }
  destruct c as [|b c]; [apply IH|].
  split.
  - destruct (Z.leb_spec (Z.of_nat (length (b :: c))) n) as [Hle|Hgt]; simpl fst; simpl snd.
    + rewrite firstn_all2 by lia. done.
    + cbn [concat]. rewrite app_assoc. f_equal. symmetry. apply take_drop.
  - intros _. simpl fst. rewrite length_take. lia.
Qed.

Lemma reader_read_header (hdr : list byte) (chunks : list (list byte)) :
  length hdr = 4 -> reader_read LENGTH_LENGTH (hdr :: chunks) = (hdr, chunks).
Proof.
  intros Hlen. apply reader_read_whole; [by destruct hdr|].
  unfold LENGTH_LENGTH. lia.
Qed.

Lemma struct_unpack_i_length (hdr : list byte) (len : Z) :
  struct_unpack_i hdr = Ok len -> length hdr = 4.
Proof. by destruct hdr as [|? [|? [|? [|? [|? ?]]]]]. Qed.

(** X1. [read_packet] consumes a prefix of the input and nothing else. The
    input is the bytes taken for the length, then the bytes handed to the
    decoder, then what is left on the stream; nothing is written. Either
    the bytes taken for the length do not unpack and [struct.error] is
    raised, or the result is the decoder's on the bytes that follow the
    prefix, which are at most as many as a non-negative prefix declares. *)
Theorem read_packet_consumes_prefix (loads : list byte -> result value) (s : Stream) :
  exists hdr data,
    concat (reader s) = hdr ++ data ++ concat (reader (read_packet loads s).2)
    /\ writer (read_packet loads s).2 = writer s
    /\ ((struct_unpack_i hdr = Raise StructError /\ data = []
         /\ (read_packet loads s).1 = Raise StructError)
        \/ exists len,
             struct_unpack_i hdr = Ok len
             /\ (read_packet loads s).1 = loads data
             /\ ((0 <= len)%Z -> (Z.of_nat (length data) <= len)%Z)).
Proof.
  unfold read_packet.
  destruct (reader_read_split LENGTH_LENGTH (reader s)) as [Hsplit _].
  destruct (reader_read LENGTH_LENGTH (reader s)) as [hdr r1] eqn:Hhdr.
  simpl in Hsplit.
  destruct (struct_unpack_i hdr) as [len|e] eqn:Hunpack.
  - destruct (reader_read_split len r1) as [Hsplit' Hlen].
    destruct (reader_read len r1) as [data r2] eqn:Hdata. simpl in *.
    exists hdr, data. split; [by rewrite Hsplit, Hsplit'|]. split; [done|].
    right. by exists len.
  - exists hdr, []. simpl. split; [done|]. split; [done|]. left.
    assert (e = StructError) as ->; [|done].
    unfold struct_unpack_i in Hunpack.
    destruct hdr as [|? [|? [|? [|? [|? ?]]]]]; simpl in Hunpack; congruence.
Qed.

(** X2. A length prefix that unpacks to a negative number (the format is a
    signed integer) makes [read_packet] read to the end of the stream: the
    decoder is handed everything that follows the prefix. *)
Theorem read_packet_negative_length (loads : list byte -> result value)
    (hdr : list byte) (len : Z) (chunks : list (list byte)) (w : list byte) :
  struct_unpack_i hdr = Ok len -> (len < 0)%Z ->
  read_packet loads (mkStream (hdr :: chunks) w)
  = (loads (concat chunks), mkStream [] w).
Proof.
  intros Hunpack Hneg. unfold read_packet. cbn [reader writer].
  rewrite reader_read_header by (by eapply struct_unpack_i_length).
  rewrite Hunpack.
  destruct chunks as [|c chunks]; [reflexivity|]. simpl reader_read.
  destruct (Z.eqb_spec len 0) as [->|_]; [lia|].
  destruct (Z.ltb_spec len 0) as [_|Hge]; [reflexivity|lia].
Qed.

Lemma read_packet_negative_length_witness :
  read_packet (fun data => Ok (VInt (Z.of_nat (length data))))
    (mkStream [[xff; xff; xff; xfe]; [x31]; [x32; x33]] [])
  = (Ok (VInt 3), mkStream [] []).
Proof.
  apply (read_packet_negative_length
           (fun data => Ok (VInt (Z.of_nat (length data))))
           [xff; xff; xff; xfe] (-2) [[x31]; [x32; x33]] []).
  - reflexivity.
  - lia.
Defined.

(** X3. A first read that returns fewer than four bytes makes [read_packet]
    raise [struct.error], whatever the stream still holds: the bytes that
    were read are lost and the rest of the prefix stays on the stream. *)
Theorem read_packet_short_first_read (loads : list byte -> result value)
    (chunk : list byte) (rest : list (list byte)) (w : list byte) :
  chunk <> [] -> length chunk < 4 ->
  read_packet loads (mkStream (chunk :: rest) w) = (Raise StructError, mkStream rest w).
Proof.
  intros Hne Hlen.
  destruct chunk as [|b1 [|b2 [|b3 [|b4 chunk]]]]; simpl in Hlen;
    try lia; try done; reflexivity.
Qed.

Lemma read_packet_short_first_read_witness :
  read_packet (fun _ => Ok VNone) (mkStream [[x00; x00]; [x00; x01; x31]] [])
  = (Raise StructError, mkStream [[x00; x01; x31]] []).
Proof.
  apply (read_packet_short_first_read (fun _ => Ok VNone) [x00; x00]
           [[x00; x01; x31]] []); [discriminate|simpl; lia].
Defined.

(** ** Frames in sequence *)

Lemma write_packet_fits (payload : value) (s : Stream) :
  fits payload ->
  write_packet payload s = (Ok tt, mkStream (reader s) (writer s ++ frame (dumps payload))).
Proof.
  unfold fits. intros Hfit. rewrite write_packet_cases.
  destruct (Z.ltb_spec (Z.of_nat (length (dumps payload))) (2 ^ 31)) as [_|Hge]; [|lia].
  destruct (Z.ltb_spec 65535 (4 + Z.of_nat (length (dumps payload)))) as [Hgt|_];
    [lia|reflexivity].
Qed.

Lemma write_all_fits (payloads : list value) (s : Stream) :
  Forall fits payloads ->
  write_all payloads s
  = (Ok tt, mkStream (reader s)
              (writer s ++ concat (map (fun p => frame (dumps p)) payloads))).
Proof.
  intros Hall. revert s. induction Hall as [|p ps Hp _ IH]; intros s; simpl.
  - rewrite app_nil_r. by destruct s.
  - rewrite (write_packet_fits p s Hp), IH. simpl. by rewrite <- app_assoc.
Qed.

(** A frame at the head of the buffer is read as a whole, and what follows
    it stays in the buffer. *)
Lemma read_packet_frame_then_more (loads : list byte -> result value)
    (data more w : list byte) :
  data <> [] -> (Z.of_nat (length data) < 2 ^ 31)%Z ->
  read_packet loads (mkStream [frame data ++ more] w)
  = (loads data, mkStream (delivered more) w).
Proof.
  intros Hd Hn. unfold read_packet. cbn [reader writer].
  assert (reader_read LENGTH_LENGTH [frame data ++ more]
          = (int32_bytes (Z.of_nat (length data)), [data ++ more])) as ->.
  { unfold frame, int32_bytes, LENGTH_LENGTH. cbn [app reader_read].
    change (4 =? 0)%Z with false. change (4 <? 0)%Z with false. cbv iota.
    match goal with
    | |- context [Z.leb ?a ?b] => destruct (Z.leb_spec a b) as [Hle|_]
    end; [|reflexivity].
    rewrite !length_cons, length_app in Hle. destruct data; [done|].
    rewrite length_cons in Hle. lia. }
  rewrite struct_unpack_pack by lia.
  destruct data as [|b data]; [done|].
  cbn [app reader_read].
  destruct (Z.eqb_spec (Z.of_nat (length (b :: data))) 0) as [H0|_];
    [rewrite length_cons in H0; lia|].
  destruct (Z.ltb_spec (Z.of_nat (length (b :: data))) 0) as [Hneg|_]; [lia|].
  rewrite Nat2Z.id.
  change (b :: data ++ more) with ((b :: data) ++ more).
  rewrite take_app_length, drop_app_length, length_app.
  destruct more as [|m more]; simpl delivered.
  - destruct (Z.leb_spec (Z.of_nat (length (b :: data) + length (@nil byte)))
                (Z.of_nat (length (b :: data)))) as [_|Hgt]; [done|].
    simpl in Hgt. lia.
  - destruct (Z.leb_spec (Z.of_nat (length (b :: data) + length (m :: more)))
                (Z.of_nat (length (b :: data)))) as [Hle|_]; [|done].
    rewrite (length_cons m) in Hle. lia.
Qed.

Lemma read_n_frames (loads : list byte -> result value) (payloads : list value)
    (more w : list byte) :
  Forall fits payloads ->
  read_n loads (length payloads)
    (mkStream (delivered (concat (map (fun p => frame (dumps p)) payloads) ++ more)) w)
  = (map (fun p => loads (dumps p)) payloads, mkStream (delivered more) w).
Proof.
  induction 1 as [|p ps Hp _ IH]; [reflexivity|].
  cbn [length map concat read_n]. rewrite <- app_assoc.
  assert (delivered (frame (dumps p)
                     ++ concat (map (fun p => frame (dumps p)) ps) ++ more)
          = [frame (dumps p)
             ++ concat (map (fun p => frame (dumps p)) ps) ++ more]) as ->
    by reflexivity.
  rewrite read_packet_frame_then_more; [|apply dumps_nonempty|unfold fits in Hp; lia].
  by rewrite IH.
Qed.

(** X4. Packets written one after the other are read back one after the
    other. When every payload of a list fits in a frame, writing them in
    order raises nothing, and as many calls of [read_packet] on the bytes
    written, delivered whole, hand the decoder the serialised payloads in
    the order they were written and leave the stream empty. *)
Theorem frames_read_back_in_order (loads : list byte -> result value)
    (payloads : list value) (r : list (list byte)) (w : list byte) :
  Forall fits payloads ->
  exists written,
    write_all payloads (mkStream r []) = (Ok tt, mkStream r written)
    /\ read_n loads (length payloads) (mkStream (delivered written) w)
       = (map (fun p => loads (dumps p)) payloads, mkStream [] w).
Proof.
  intros Hall. exists (concat (map (fun p => frame (dumps p)) payloads)).
  split; [by rewrite write_all_fits|].
  pose proof (read_n_frames loads payloads [] w Hall) as Hread.
  by rewrite app_nil_r in Hread.
Qed.

Lemma frames_read_back_in_order_witness :
  exists written,
    write_all [sample_payload; set_key_payload; VList []] (mkStream [] [])
    = (Ok tt, mkStream [] written)
    /\ read_n (fun data => Ok (VInt (Z.of_nat (length data)))) 3
         (mkStream (delivered written) [])
       = ([Ok (VInt (Z.of_nat (length (dumps sample_payload))));
           Ok (VInt (Z.of_nat (length (dumps set_key_payload))));
           Ok (VInt (Z.of_nat (length (dumps (VList [])))))],
          mkStream [] []).
Proof.
  apply (frames_read_back_in_order
           (fun data => Ok (VInt (Z.of_nat (length data))))
           [sample_payload; set_key_payload; VList []] [] []).
  repeat constructor; vm_compute; discriminate.
Defined.

(** ** One resumption of [handle_connection] *)

Lemma write_packet_ok (payload : value) (s s' : Stream) (u : unit) :
  write_packet payload s = (Ok u, s') ->
  s' = mkStream (reader s) (writer s ++ frame (dumps payload)).
Proof.
  rewrite write_packet_cases.
  destruct (_ <? _)%Z; [|done]. destruct (_ <? _)%Z; [done|]. by intros [= _ <-].
Qed.

Lemma carries_secret_intro (secret : string) (packet given : value) :
  py_get packet "auth" = Ok given -> py_eq given (VStr secret) = true ->
  carries_secret secret packet = true.
Proof. intros Hget Heq. unfold carries_secret. by rewrite Hget. Qed.

Ltac conn_change_field :=
  simpl; unfold loop_top;
  first
    [ done
    | by intros []
    | by left
    | by intros; congruence
    | by intros; destruct (closing _)
    | by intros _ _; split; [|eexists; split; [reflexivity|eauto using carries_secret_intro]]
    | by right; split; [|eexists; split; [eassumption|reflexivity]]
    | by right; eexists _, _; split; [reflexivity|]
    | by right; repeat (split; [done|]); eexists; reflexivity
    | by intros ? ?; destruct (closing _) ].

Lemma serve_detail {H} (sid : nat) (srv : Server H) :
  serve sid srv = srv
  \/ exists conn conn' conns tasks,
       streams srv !! sid = Some conn
       /\ serve sid srv =
          mkServer (auth srv) (packet_handlers srv) (closing srv) conns
            (<[sid := conn']> (streams srv)) (handler_tasks srv ++ tasks)
       /\ (conns = connections srv \/ list_remove sid (connections srv) = Ok conns)
       /\ conn_change (auth srv) (closing srv) sid conn conn' tasks.
Proof.
  unfold serve.
  destruct (streams srv !! sid) as [conn|] eqn:Hs; [|by left].
  destruct (state conn) eqn:Hst; [| |by left|by left].
  - destruct (inbox conn) as [|[packet|e] rest] eqn:Hinbox; [by left| |].
    + unfold handle_packet.
      repeat match goal with
             | |- context [match ?x with _ => _ end] => destruct x eqn:?
             | |- context [if ?x then _ else _] => destruct x eqn:?
             end.
      all: repeat match goal with
                  | H : negb (authed _) = true |- _ => apply negb_true_iff in H
                  | H : negb (authed _) = false |- _ => apply negb_false_iff in H
                  | H : write_packet _ _ = (Ok _, _) |- _ =>
                      apply write_packet_ok in H; subst
                  end.
      all: right; exists conn; eexists; eexists.
      all: first [ exists []; rewrite app_nil_r; split; [reflexivity|];
                   split; [reflexivity|]
                 | eexists [_]; split; [reflexivity|]; split; [reflexivity|] ].
      all: split; [first [by left|by right]|].
      all: split; rewrite ?Hst; conn_change_field.
    + right. exists conn. eexists. eexists. exists []. rewrite app_nil_r.
      split; [reflexivity|]. split; [reflexivity|]. split; [by left|].
      split; rewrite ?Hst; conn_change_field.
  - right. exists conn. eexists. eexists. exists []. rewrite app_nil_r.
    split; [reflexivity|]. split; [reflexivity|]. split; [by left|].
    split; rewrite ?Hst; conn_change_field.
Qed.


(** ** The invariant of the server *)

Lemma list_remove_In (x y : nat) (l l' : list nat) :
  list_remove x l = Ok l' -> In y l' -> In y l.
Proof.
  revert l'. induction l as [|z l IH]; simpl; intros l' Hr Hin; [done|].
  destruct (Nat.eqb_spec x z) as [->|Hxz].
  - injection Hr as <-. by right.
  - destruct (list_remove x l) as [l''|e]; simpl in Hr; [|done].
    injection Hr as <-. destruct Hin as [->|Hin]; [by left|].
    right. by apply (IH l'').
Qed.

Lemma list_remove_NoDup (x : nat) (l l' : list nat) :
  list_remove x l = Ok l' -> NoDup l -> NoDup l' /\ ~ In x l'.
Proof.
  revert l'. induction l as [|z l IH]; simpl; intros l' Hr Hnd; [done|].
  apply NoDup_cons in Hnd as [Hz Hnd]. rewrite list_elem_of_In in Hz.
  destruct (Nat.eqb_spec x z) as [->|Hxz].
  - injection Hr as <-. done.
  - destruct (list_remove x l) as [l''|e] eqn:Hl; simpl in Hr; [|done].
    injection Hr as <-. destruct (IH l'' eq_refl Hnd) as [Hnd' Hx].
    split.
    + apply NoDup_cons. split; [|done]. rewrite list_elem_of_In.
      intros Hin. apply Hz. by apply (list_remove_In x z l l'' Hl).
    + intros [->|Hin]; [done|]. by apply Hx.
Qed.

Lemma In_tail_app {A} (x : A) (l k : list A) : In x (tail l) -> In x (tail (l ++ k)).
Proof. destruct l as [|a l]; simpl; [done|]. intros Hin. apply in_or_app. by left. Qed.

Lemma new_server_inv {H} (secret : string) (handlers : gmap string H) :
  server_inv (new_server secret handlers).
Proof. split; simpl; try done; try (by intros []); constructor. Qed.

Lemma accept_lookup {H} (srv : Server H) (sid : nat) (conn : Connection) :
  streams (accept srv) !! sid = Some conn ->
  streams srv !! sid = Some conn
  \/ (sid = length (streams srv)
      /\ conn = mkConnection (mkStream [] []) [] false (loop_top (closing srv)) []).
Proof.
  simpl. intros [Hs|[Hge Hs]]%lookup_app_Some; [by left|right].
  destruct (sid - length (streams srv)) as [|n] eqn:Hsub; [|done].
  injection Hs as <-. split; [lia|done].
Qed.

Lemma accept_inv {H} (srv : Server H) : server_inv srv -> server_inv (accept srv).
Proof.
  intros Hinv. split.
  - intros sid conn [Hs|[_ ->]]%accept_lookup; [by apply (si_unauth srv Hinv sid)|done].
  - intros sid conn [Hs|[_ ->]]%accept_lookup; [by apply (si_authed srv Hinv sid)|done].
  - intros h sid p Hin. destruct (si_tasks srv Hinv h sid p Hin) as (conn & Hs & ? & ?).
    exists conn. split; [|done]. simpl. apply lookup_app_l_Some. done.
  - intros sid conn [Hs|[_ ->]]%accept_lookup; [by apply (si_draining srv Hinv sid)|].
    simpl. by destruct (closing srv).
  - intros sid conn [Hs|[_ ->]]%accept_lookup;
      [by apply (si_fresh_writer srv Hinv sid)|done].
  - intros sid conn [Hs|[_ ->]]%accept_lookup; [by apply (si_writer srv Hinv sid)|].
    by left.
  - simpl. apply NoDup_app. split; [apply (si_nodup srv Hinv)|].
    split; [|apply NoDup_singleton].
    intros x Hx ->%list_elem_of_singleton. rewrite list_elem_of_In in Hx.
    pose proof (si_bound srv Hinv _ Hx). lia.
  - simpl. intros sid [Hin|[<-|[]]]%in_app_or; rewrite length_app; simpl; [|lia].
    pose proof (si_bound srv Hinv _ Hin). lia.
Qed.

Lemma arrive_lookup {H} (srv : Server H) (sid' : nat) (r : result value)
    (sid : nat) (conn : Connection) :
  streams (arrive sid' r srv) !! sid = Some conn ->
  exists conn0,
    streams srv !! sid = Some conn0
    /\ authed conn = authed conn0 /\ state conn = state conn0
    /\ packets_read conn = packets_read conn0
    /\ conn_stream conn = conn_stream conn0.
Proof.
  unfold arrive. destruct (streams srv !! sid') as [conn0|] eqn:Hs0;
    [|intros Hs; by exists conn].
  simpl. intros [(-> & <- & _)|[_ Hs]]%list_lookup_insert_Some.
  - by exists conn0.
  - by exists conn.
Qed.

Lemma arrive_frame {H} (srv : Server H) (sid : nat) (r : result value) :
  auth (arrive sid r srv) = auth srv
  /\ connections (arrive sid r srv) = connections srv
  /\ handler_tasks (arrive sid r srv) = handler_tasks srv
  /\ length (streams (arrive sid r srv)) = length (streams srv)
  /\ forall sid0 conn0, streams srv !! sid0 = Some conn0 ->
       exists conn, streams (arrive sid r srv) !! sid0 = Some conn
                    /\ authed conn = authed conn0
                    /\ packets_read conn = packets_read conn0.
Proof.
  unfold arrive. destruct (streams srv !! sid) as [conn1|] eqn:Hs1; simpl.
  - repeat split; try done; [by rewrite length_insert|].
    intros sid0 conn0 Hs0. destruct (decide (sid = sid0)) as [->|Hne].
    + rewrite list_lookup_insert_eq by (by eapply lookup_lt_Some).
      eexists. split; [done|]. simpl. by replace conn0 with conn1 by congruence.
    + rewrite list_lookup_insert_ne by done. by exists conn0.
  - repeat split; try done. intros sid0 conn0 Hs0. by exists conn0.
Qed.

Lemma arrive_inv {H} (srv : Server H) (sid : nat) (r : result value) :
  server_inv srv -> server_inv (arrive sid r srv).
Proof.
  intros Hinv. destruct (arrive_frame srv sid r) as (Ha & Hc & Ht & Hl & Hkeep).
  split; rewrite ?Ha, ?Hc, ?Ht, ?Hl; try apply Hinv.
  - intros sid0 conn (conn0 & Hs & Hau & Hst & Hr & Hw)%arrive_lookup.
    rewrite Hau, Hst, Hr. by apply (si_unauth srv Hinv sid0).
  - intros sid0 conn (conn0 & Hs & Hau & Hst & Hr & Hw)%arrive_lookup.
    rewrite Hau, Hr. by apply (si_authed srv Hinv sid0).
  - intros h sid0 p Hin.
    destruct (si_tasks srv Hinv h sid0 p Hin) as (conn0 & Hs & ? & ?).
    destruct (Hkeep sid0 conn0 Hs) as (conn & Hs' & Hau & Hr).
    exists conn. rewrite Hau, Hr. done.
  - intros sid0 conn (conn0 & Hs & Hau & Hst & Hr & Hw)%arrive_lookup.
    rewrite Hau, Hst. by apply (si_draining srv Hinv sid0).
  - intros sid0 conn (conn0 & Hs & Hau & Hst & Hr & Hw)%arrive_lookup.
    rewrite Hau, Hst, Hw. by apply (si_fresh_writer srv Hinv sid0).
  - intros sid0 conn (conn0 & Hs & Hau & Hst & Hr & Hw)%arrive_lookup.
    rewrite Hau, Hw. by apply (si_writer srv Hinv sid0).
Qed.

Lemma serve_inv {H} (srv : Server H) (sid' : nat) :
  server_inv srv -> server_inv (serve sid' srv).
Proof.
  intros Hinv.
  destruct (serve_detail sid' srv)
    as [->|(conn & conn' & conns & new & Hs & -> & Hconns & Hch)]; [done|].
  pose proof (lookup_lt_Some _ _ _ Hs) as Hlt.
  assert (authed conn' = false -> ~ ended (state conn') -> False) as Hnever.
  { intros Hau Hlive. destruct (ch_unauth _ _ _ _ _ _ Hch Hau Hlive) as [Hd _].
    pose proof (si_draining srv Hinv sid' conn Hs Hd) as Ha.
    pose proof (ch_authed _ _ _ _ _ _ Hch Ha). congruence. }
  assert (authed conn' = true ->
          exists first rest,
            packets_read conn' = first :: rest
            /\ carries_secret (auth srv) first = true) as Hfirst.
  { intros Hau'. destruct (authed conn) eqn:Hau.
    - destruct (si_authed srv Hinv sid' conn Hs Hau) as (first & rest & Hr & Hc).
      destruct (ch_reads _ _ _ _ _ _ Hch) as [->|(_ & p & _ & ->)].
      + by exists first, rest.
      + exists first, (rest ++ [p]). by rewrite Hr.
    - destruct (ch_auth _ _ _ _ _ _ Hch Hau Hau') as (Hst & p & Hr & Hc).
      rewrite (si_unauth srv Hinv sid' conn Hs Hau (ch_live _ _ _ _ _ _ Hch)) in Hr.
      by exists p, []. }
  split; simpl.
  - intros sid c [(<- & <- & _)|[Hne Hs0]]%list_lookup_insert_Some.
    + intros Hau Hlive. by destruct (Hnever Hau Hlive).
    + by apply (si_unauth srv Hinv sid).
  - intros sid c [(<- & <- & _)|[Hne Hs0]]%list_lookup_insert_Some; [done|].
    by apply (si_authed srv Hinv sid).
  - intros h sid p [Hin|Hin]%in_app_or.
    + destruct (si_tasks srv Hinv h sid p Hin) as (conn0 & Hs0 & Hau0 & Hp).
      destruct (decide (sid' = sid)) as [->|Hne].
      * exists conn'. rewrite list_lookup_insert_eq by done.
        replace conn0 with conn in * by congruence.
        split; [done|]. split; [by apply (ch_authed _ _ _ _ _ _ Hch)|].
        destruct (ch_reads _ _ _ _ _ _ Hch) as [->|(_ & q & _ & ->)]; [done|].
        by apply In_tail_app.
      * exists conn0. by rewrite list_lookup_insert_ne.
    + destruct (ch_tasks _ _ _ _ _ _ Hch) as [->|(h' & p' & -> & Hau & Hr)]; [done|].
      destruct Hin as [[= <- <- <-]|[]].
      exists conn'. rewrite list_lookup_insert_eq by done.
      split; [done|]. split; [by apply (ch_authed _ _ _ _ _ _ Hch)|].
      destruct (si_authed srv Hinv sid' conn Hs Hau) as (first & rest & Hf & _).
      rewrite Hr, Hf. simpl. apply in_or_app. right. by left.
  - intros sid c [(<- & <- & _)|[Hne Hs0]]%list_lookup_insert_Some.
    + apply (ch_draining _ _ _ _ _ _ Hch).
    + by apply (si_draining srv Hinv sid).
  - intros sid c [(<- & <- & _)|[Hne Hs0]]%list_lookup_insert_Some.
    + intros Hau Hst. destruct (Hnever Hau). rewrite Hst. intros [].
    + by apply (si_fresh_writer srv Hinv sid).
  - intros sid c [(<- & <- & _)|[Hne Hs0]]%list_lookup_insert_Some;
      [|by apply (si_writer srv Hinv sid)].
    destruct (ch_writer _ _ _ _ _ _ Hch) as [Hw|(Hau & Hst & _ & id & Hw)].
    + rewrite Hw. destruct (si_writer srv Hinv sid' conn Hs) as [?|[id Hid]]; [by left|].
      destruct (authed conn) eqn:Hau.
      * right. exists id. by rewrite (ch_authed _ _ _ _ _ _ Hch Hau).
      * destruct (authed conn') eqn:Hau'; [|right; by exists id].
        destruct (ch_auth _ _ _ _ _ _ Hch Hau Hau') as [Hst _].
        left. by apply (si_fresh_writer srv Hinv sid' conn Hs).
    + right. exists id.
      by rewrite Hw, (si_fresh_writer srv Hinv sid' conn Hs Hau Hst).
  - destruct Hconns as [->|Hrm]; [apply (si_nodup srv Hinv)|].
    apply (list_remove_NoDup sid' _ _ Hrm (si_nodup srv Hinv)).
  - intros sid Hin. rewrite length_insert. apply (si_bound srv Hinv).
    destruct Hconns as [->|Hrm]; [done|]. by apply (list_remove_In sid' sid _ conns).
Qed.

Lemma server_step_inv {H} (srv : Server H) (ev : server_event) :
  server_inv srv -> server_inv (server_step srv ev).
Proof.
  intros Hinv. destruct ev as [|sid r|sid|]; simpl.
  - by apply accept_inv.
  - by apply arrive_inv.
  - by apply serve_inv.
  - destruct Hinv. by split.
Qed.

Lemma server_run_inv {H} (srv : Server H) (trace : list server_event) :
  server_inv srv -> server_inv (server_run srv trace).
Proof.
  revert srv. induction trace as [|ev trace IH]; intros srv Hinv; [done|].
  simpl. apply IH. by apply server_step_inv.
Qed.

Lemma server_after_inv {H} (secret : string) (handlers : gmap string H)
    (trace : list server_event) :
  server_inv (server_after secret handlers trace).
Proof. apply server_run_inv, new_server_inv. Qed.

Lemma server_run_auth {H} (srv : Server H) (trace : list server_event) :
  auth (server_run srv trace) = auth srv.
Proof.
  revert srv. induction trace as [|ev trace IH]; intros srv; [done|].
  simpl. rewrite IH. destruct ev as [|sid r|sid|]; simpl; try done.
  - by destruct (arrive_frame srv sid r) as (-> & _).
  - by destruct (serve_detail sid srv) as [->|(? & ? & ? & ? & _ & -> & _)].
Qed.

(** ** Membership in [self.connections] *)

Lemma disconnected_fields (conn conn' : Connection) :
  authed conn' = authed conn -> state conn' = state conn ->
  packets_read conn' = packets_read conn ->
  disconnected conn' <-> disconnected conn.
Proof. unfold disconnected. by intros -> -> ->. Qed.

Lemma server_step_listed {H} (srv : Server H) (ev : server_event) :
  server_inv srv -> all_listed srv -> all_listed (server_step srv ev).
Proof.
  intros Hinv Hall sid conn. destruct ev as [|sid' r|sid'|]; simpl.
  - intros [Hs|[Hge Hs]]%lookup_app_Some.
    + destruct (Hall sid conn Hs) as (Hin & Hout & Hdr).
      split; [|split; [|done]].
      * destruct Hin as [Hin|Hd]; [left; apply in_or_app; by left|by right].
      * intros Hd [Hin'|[<-|[]]]%in_app_or; [by apply Hout|].
        apply lookup_lt_Some in Hs. lia.
    + destruct (sid - length (streams srv)) as [|n] eqn:Hsub; [|done].
      injection Hs as <-. split; [|split].
      * left. apply in_or_app. right. left. lia.
      * by intros [? _].
      * unfold loop_top. by destruct (closing srv).
  - unfold arrive. destruct (streams srv !! sid') as [conn0|] eqn:Hs0; [|apply Hall].
    simpl. destruct (decide (sid' = sid)) as [->|Hne].
    + rewrite list_lookup_insert_eq by (by eapply lookup_lt_Some).
      intros [= <-]. destruct (Hall sid conn0 Hs0) as (Hin & Hout & Hdr).
      split; [|split; [|done]].
      * destruct Hin as [Hin|Hd]; [by left|right].
        by apply (disconnected_fields conn0).
      * intros Hd. apply Hout. by apply (disconnected_fields conn0) in Hd.
    + rewrite list_lookup_insert_ne by done. apply Hall.
  - destruct (serve_shape sid' srv)
      as [->|(conn0 & conn' & conns & tasks & Hs0 & Hlive & -> & _ & Hconns & Hdrain)];
      [apply Hall|].
    simpl. destruct (decide (sid' = sid)) as [->|Hne].
    + rewrite list_lookup_insert_eq by (by eapply lookup_lt_Some).
      intros [= <-]. destruct (Hall sid conn0 Hs0) as (Hin & _ & Hdr).
      assert (In sid (connections srv)) as Hlisted.
      { destruct Hin as [Hin|(_ & Hst & _)]; [done|]. destruct Hlive. by rewrite Hst. }
      split; [|split].
      * destruct Hconns as [[-> _]|(Hrm & Hau & _ & Hau' & Hst' & p & rest & ty & _ & Hr & Hty & Heq)];
          [by left|right].
        destruct (si_authed srv Hinv sid conn0 Hs0 Hau) as (first & earlier & Hp & _).
        split; [done|]. split; [done|]. exists first, earlier, p, ty.
        by rewrite Hr, Hp.
      * destruct Hconns as [[-> Hkept]|(Hrm & _)].
        -- intros (Hau' & Hst' & first & earlier & p & ty & Hr & Hty & Heq).
           destruct Hkept as [Hne|[Hf|[[Hst Hsame]|(p' & ty' & Hr' & Hty' & Hne)]]].
           ++ done.
           ++ congruence.
           ++ destruct (Hdr Hst) as (p0 & Hp0). rewrite Hsame, Hp0 in Hr.
              injection Hr as _ Hnil. by destruct earlier.
           ++ rewrite Hr' in Hr. change (first :: earlier ++ [p])
                with ((first :: earlier) ++ [p]) in Hr.
              apply app_inj_tail in Hr as [_ ->]. congruence.
        -- intros _. by destruct (list_remove_NoDup sid _ _ Hrm (si_nodup srv Hinv)).
      * intros Hst'. destruct (Hdrain Hst') as (Hau & p & Hr).
        exists p. rewrite Hr.
        by rewrite (si_unauth srv Hinv sid conn0 Hs0 Hau Hlive).
    + rewrite list_lookup_insert_ne by done. intros Hs.
      destruct (Hall sid conn Hs) as (Hin & Hout & Hdr).
      split; [|split; [|done]].
      * destruct Hin as [Hin|Hd]; [left|by right].
        destruct Hconns as [[-> _]|(Hrm & _)]; [done|].
        by apply (list_remove_other sid' sid (connections srv)).
      * intros Hd Hin'. apply (Hout Hd).
        destruct Hconns as [[-> _]|(Hrm & _)]; [done|].
        by apply (list_remove_In sid' sid (connections srv) conns).
  - apply Hall.
Qed.

Lemma server_run_listed {H} (srv : Server H) (trace : list server_event) :
  server_inv srv -> all_listed srv -> all_listed (server_run srv trace).
Proof.
  revert srv. induction trace as [|ev trace IH]; intros srv Hinv Hall; [done|].
  simpl. apply IH; [by apply server_step_inv|by apply server_step_listed].
Qed.

Lemma server_after_listed {H} (secret : string) (handlers : gmap string H)
    (trace : list server_event) :
  all_listed (server_after secret handlers trace).
Proof.
  apply server_run_listed; [apply new_server_inv|].
  intros sid conn Hs. by destruct sid.
Qed.

(** A step that takes a member out of [self.connections] is the resumption
    of its own coroutine on a [disconnect] packet, read while
    authenticated. *)
Lemma removal_step {H} (srv : Server H) (ev : server_event) (sid : nat) :
  In sid (connections srv) -> ~ In sid (connections (server_step srv ev)) ->
  ev = Served sid
  /\ exists conn packet rest type,
       streams srv !! sid = Some conn /\ authed conn = true /\ state conn = Reading
       /\ inbox conn = Ok packet :: rest
       /\ py_getattr packet "type" = Ok type
       /\ py_eq type (VStr "disconnect") = true.
Proof.
  intros Hin Hout. destruct ev as [|sid' r|sid'|]; simpl in Hout.
  - destruct Hout. apply in_or_app. by left.
  - destruct Hout. unfold arrive. by destruct (streams srv !! sid').
  - destruct (serve_shape sid' srv)
      as [Heq|(conn & conn' & conns & tasks & Hs & _ & Heq & _ & Hconns & _)];
      rewrite Heq in Hout; [done|]. simpl in Hout.
    destruct Hconns as [[-> _]|(Hrm & Hau & Hst & _ & _ & p & rest & ty & Hi & _ & Hty & Hd)];
      [done|].
    destruct (decide (sid = sid')) as [->|Hne].
    + split; [done|]. by exists conn, p, rest, ty.
    + destruct Hout. by apply (list_remove_other sid' sid (connections srv)).
  - done.
Qed.

(** C10. In every state a server reaches: a connection that is accepted
    is appended to [self.connections]; a step takes a member out of the
    list only when it resumes the coroutine of that member on a
    [disconnect] packet read while authenticated; a connection is out of
    the list exactly when its coroutine has returned from that branch; and
    a connection whose coroutine has ended in any other way (failed
    authentication, an exception, the server closing) is in the list in
    every later state. *)
Theorem connections_leave_only_on_disconnect {H} (secret : string)
    (handlers : gmap string H) (trace : list server_event) :
  connections (server_step (server_after secret handlers trace) Accepted)
  = connections (server_after secret handlers trace)
    ++ [length (streams (server_after secret handlers trace))]
  /\ (forall ev sid,
        In sid (connections (server_after secret handlers trace)) ->
        ~ In sid (connections (server_step (server_after secret handlers trace) ev)) ->
        ev = Served sid
        /\ exists conn packet rest type,
             streams (server_after secret handlers trace) !! sid = Some conn
             /\ authed conn = true /\ state conn = Reading
             /\ inbox conn = Ok packet :: rest
             /\ py_getattr packet "type" = Ok type
             /\ py_eq type (VStr "disconnect") = true)
  /\ (forall sid conn,
        streams (server_after secret handlers trace) !! sid = Some conn ->
        (In sid (connections (server_after secret handlers trace))
         \/ disconnected conn)
        /\ (disconnected conn ->
            ~ In sid (connections (server_after secret handlers trace))))
  /\ (forall sid conn later,
        streams (server_after secret handlers trace) !! sid = Some conn ->
        ended (state conn) -> ~ disconnected conn ->
        In sid (connections (server_run (server_after secret handlers trace) later))).
Proof.
  split; [reflexivity|]. split; [intros ev sid; apply removal_step|].
  split.
  - intros sid conn Hs.
    destruct (server_after_listed secret handlers trace sid conn Hs) as (? & ? & _).
    by split.
  - intros sid conn later Hs Hend Hnd.
    destruct (ended_run _ later sid conn Hs Hend)
      as (conn' & Hs' & Hst & Hr & _ & Ha & _).
    unfold server_after in Hs' |- *. rewrite <- server_run_app in Hs' |- *.
    destruct (server_after_listed secret handlers (trace ++ later) sid conn' Hs')
      as ([Hin|Hd] & _); [done|].
    destruct Hnd. by apply (disconnected_fields conn conn').
Qed.

Lemma connections_leave_only_on_disconnect_witness :
  In 0 (connections
          (server_run
             (server_after "password123" sample_handlers
                [Accepted;
                 Arrived 0 (Ok (disconnect_with_secret "password123" "c0"));
                 Served 0; Closing; Served 0])
             [Arrived 0 (Ok disconnect_packet); Served 0; Accepted])).
Proof.
  apply (fun H1 H2 H3 =>
    proj2 (proj2 (proj2
      (connections_leave_only_on_disconnect "password123" sample_handlers
         [Accepted; Arrived 0 (Ok (disconnect_with_secret "password123" "c0"));
          Served 0; Closing; Served 0]))) 0
      (mkConnection (mkStream [] (frame (dumps (auth_response true (VStr "c0")))))
         [] true Returned [disconnect_with_secret "password123" "c0"])
      [Arrived 0 (Ok disconnect_packet); Served 0; Accepted] H1 H2 H3).
  - vm_compute. reflexivity.
  - exact I.
  - intros (_ & _ & first & earlier & packet & type & Hr & _).
    injection Hr as _ Hnil. by destruct earlier.
Defined.

(** ** The dispatcher, branch by branch *)

Lemma serve_reading {H} (srv : Server H) (sid : nat) (conn : Connection)
    (packet : value) (rest : list (result value)) :
  streams srv !! sid = Some conn -> state conn = Reading ->
  inbox conn = Ok packet :: rest ->
  server_step srv (Served sid) = handle_packet srv sid conn rest packet.
Proof. intros Hs Hst Hinbox. simpl. unfold serve. by rewrite Hs, Hst, Hinbox. Qed.

(** X5. The authentication gate. In every state a server reaches, every
    task created for a handler belongs to an authenticated connection and
    its packet was read after the first packet of that connection; and the
    first packet an authenticated connection read carried the configured
    secret in its [auth] field. *)
Theorem handlers_run_only_after_auth {H} (secret : string)
    (handlers : gmap string H) (trace : list server_event) :
  (forall h sid p,
     In (h, sid, p) (handler_tasks (server_after secret handlers trace)) ->
     exists conn first rest,
       streams (server_after secret handlers trace) !! sid = Some conn
       /\ authed conn = true
       /\ packets_read conn = first :: rest
       /\ carries_secret secret first = true
       /\ In p rest)
  /\ (forall sid conn,
        streams (server_after secret handlers trace) !! sid = Some conn ->
        authed conn = true ->
        exists first rest,
          packets_read conn = first :: rest /\ carries_secret secret first = true).
Proof.
  pose proof (server_after_inv secret handlers trace) as Hinv.
  assert (auth (server_after secret handlers trace) = secret) as Hauth
    by apply server_run_auth.
  split.
  - intros h sid p Hin.
    destruct (si_tasks _ Hinv h sid p Hin) as (conn & Hs & Hau & Hp).
    destruct (si_authed _ Hinv sid conn Hs Hau) as (first & rest & Hr & Hc).
    exists conn, first, rest. rewrite Hr in Hp. rewrite Hauth in Hc. done.
  - intros sid conn Hs Hau.
    destruct (si_authed _ Hinv sid conn Hs Hau) as (first & rest & Hr & Hc).
    exists first, rest. by rewrite Hauth in Hc.
Qed.

Lemma handlers_run_only_after_auth_witness :
  exists conn first rest,
    streams (server_after "password123" sample_handlers
               (authenticated_trace ++ [Arrived 0 (Ok (eval_packet "c1")); Served 0]))
      !! 0 = Some conn
    /\ authed conn = true
    /\ packets_read conn = first :: rest
    /\ carries_secret "password123" first = true
    /\ In (eval_packet "c1") rest.
Proof.
  apply (proj1 (handlers_run_only_after_auth "password123" sample_handlers
                  (authenticated_trace ++ [Arrived 0 (Ok (eval_packet "c1")); Served 0]))
           "handle_eval" 0 (eval_packet "c1")).
  vm_compute. left. reflexivity.
Defined.

(** X6. [handle_connection] itself writes at most one frame on a
    connection, and that frame is an [auth-response] whose [success] field
    tells whether the connection is authenticated: in every state a server
    reaches, the bytes written on a connection are none or exactly that
    frame. *)
Theorem server_writes_one_auth_response {H} (secret : string)
    (handlers : gmap string H) (trace : list server_event) (sid : nat)
    (conn : Connection) :
  streams (server_after secret handlers trace) !! sid = Some conn ->
  writer (conn_stream conn) = []
  \/ exists id,
       writer (conn_stream conn) = frame (dumps (auth_response (authed conn) id)).
Proof. apply (si_writer _ (server_after_inv secret handlers trace)). Qed.

Lemma server_writes_one_auth_response_witness :
  writer (conn_stream authenticated_connection) = []
  \/ exists id,
       writer (conn_stream authenticated_connection)
       = frame (dumps (auth_response (authed authenticated_connection) id)).
Proof.
  apply (server_writes_one_auth_response "password123" sample_handlers
           (authenticated_trace ++ [Arrived 0 (Ok (eval_packet "c1")); Served 0]) 0
           authenticated_connection).
  vm_compute. reflexivity.
Defined.

(** X7. A good [auth] packet authenticates. When an unauthenticated
    connection reads a packet whose [auth] field equals the secret and
    whose [id] can be echoed in a frame, the frame of an [auth-response]
    with [success] true and that [id] is written, the connection becomes
    authenticated and stays in [self.connections], no task is created, and
    once the write has drained the coroutine is back at the test of its
    loop. *)
Theorem good_auth_authenticates {H} (srv : Server H) (sid : nat)
    (conn : Connection) (packet given id : value) (rest : list (result value)) :
  streams srv !! sid = Some conn ->
  state conn = Reading -> authed conn = false ->
  inbox conn = Ok packet :: rest ->
  py_get packet "auth" = Ok given ->
  py_eq given (VStr (auth srv)) = true ->
  py_getattr packet "id" = Ok id ->
  fits (auth_response true id) ->
  streams (server_step srv (Served sid)) !! sid
  = Some (mkConnection
            (mkStream (reader (conn_stream conn))
               (writer (conn_stream conn) ++ frame (dumps (auth_response true id))))
            rest true Draining (packets_read conn ++ [packet]))
  /\ connections (server_step srv (Served sid)) = connections srv
  /\ handler_tasks (server_step srv (Served sid)) = handler_tasks srv
  /\ state <$> streams (server_run srv [Served sid; Served sid]) !! sid
     = Some (loop_top (closing srv)).
Proof.
  intros Hs Hst Hau Hinbox Hget Heq Hid Hfit.
  pose proof (lookup_lt_Some _ _ _ Hs) as Hlt.
  unfold server_run. cbn [fold_left].
  rewrite (serve_reading srv sid conn packet rest Hs Hst Hinbox).
  unfold handle_packet. rewrite Hau, Hget, Heq, Hid. simpl negb. cbv iota.
  rewrite (write_packet_fits _ _ Hfit). simpl.
  rewrite list_lookup_insert_eq by done. repeat split.
  unfold serve. simpl. rewrite list_lookup_insert_eq by done. simpl.
  by rewrite list_lookup_insert_eq by (by rewrite length_insert).
Qed.

Lemma good_auth_authenticates_witness :
  streams (server_step
             (server_after "password123" sample_handlers
                [Accepted; Arrived 0 (Ok (auth_packet "password123" "c0"))])
             (Served 0)) !! 0
  = Some (mkConnection
            (mkStream [] ([] ++ frame (dumps (auth_response true (VStr "c0")))))
            [] true Draining ([] ++ [auth_packet "password123" "c0"])).
Proof.
  apply (good_auth_authenticates
           (server_after "password123" sample_handlers
              [Accepted; Arrived 0 (Ok (auth_packet "password123" "c0"))])
           0
           (mkConnection (mkStream [] []) [Ok (auth_packet "password123" "c0")]
              false Reading [])
           (auth_packet "password123" "c0") (VStr "password123") (VStr "c0") []);
    try reflexivity.
  unfold fits. vm_compute. discriminate.
Defined.

(** X8. Routing by type. When an authenticated connection reads a packet
    whose [type] is a string other than [disconnect] and the registry has
    the key [missing-packet], exactly one task is created, for the handler
    registered under that type or, when there is none, for the
    [missing-packet] handler, with this stream and this packet; nothing is
    written, the connection stays in [self.connections], and the coroutine
    is back at the test of its loop. *)
Theorem packets_go_to_their_handler {H} (srv : Server H) (sid : nat)
    (conn : Connection) (packet : value) (type : string)
    (rest : list (result value)) (fallback : H) :
  streams srv !! sid = Some conn ->
  state conn = Reading -> authed conn = true ->
  inbox conn = Ok packet :: rest ->
  py_getattr packet "type" = Ok (VStr type) ->
  type <> "disconnect" ->
  packet_handlers srv !! "missing-packet" = Some fallback ->
  handler_tasks (server_step srv (Served sid))
  = handler_tasks srv ++ [(default fallback (packet_handlers srv !! type), sid, packet)]
  /\ streams (server_step srv (Served sid)) !! sid
     = Some (mkConnection (conn_stream conn) rest true (loop_top (closing srv))
               (packets_read conn ++ [packet]))
  /\ connections (server_step srv (Served sid)) = connections srv.
Proof.
  intros Hs Hst Hau Hinbox Htype Hne Hfb.
  pose proof (lookup_lt_Some _ _ _ Hs) as Hlt.
  rewrite (serve_reading srv sid conn packet rest Hs Hst Hinbox).
  unfold handle_packet. rewrite Hau, Htype. simpl negb. cbv iota. simpl py_eq.
  destruct (String.eqb_spec type "disconnect") as [?|_]; [done|].
  rewrite Hfb. simpl. by rewrite list_lookup_insert_eq by done.
Qed.

Lemma packets_go_to_their_handler_witness :
  handler_tasks
    (server_step
       (server_after "password123" sample_handlers
          (authenticated_trace ++ [Arrived 0 (Ok (VDict [("type", VStr "nonexistent-type")]))]))
       (Served 0))
  = [] ++ [(default "handle_missing_packet" (sample_handlers !! "nonexistent-type"), 0,
            VDict [("type", VStr "nonexistent-type")])].
Proof.
  apply (packets_go_to_their_handler
           (server_after "password123" sample_handlers
              (authenticated_trace
               ++ [Arrived 0 (Ok (VDict [("type", VStr "nonexistent-type")]))]))
           0
           (mkConnection (mkStream [] (frame (dumps (auth_response true (VStr "c0")))))
              [Ok (VDict [("type", VStr "nonexistent-type")])] true Reading
              [auth_packet "password123" "c0"])
           (VDict [("type", VStr "nonexistent-type")]) "nonexistent-type" []
           "handle_missing_packet");
    try reflexivity.
  discriminate.
Defined.

(** X9. A registry without the key [missing-packet] breaks dispatch for
    every type. The fallback is looked up before the handler of the type
    is: when an authenticated connection reads a packet that is no
    [disconnect] packet, the coroutine ends with [KeyError], no task is
    created even if a handler is registered under the type of the packet,
    and no later packet of the connection is read. *)
Theorem missing_fallback_breaks_dispatch {H} (srv : Server H) (sid : nat)
    (conn : Connection) (packet type : value) (rest : list (result value))
    (later : list server_event) :
  streams srv !! sid = Some conn ->
  state conn = Reading -> authed conn = true ->
  inbox conn = Ok packet :: rest ->
  py_getattr packet "type" = Ok type ->
  py_eq type (VStr "disconnect") = false ->
  packet_handlers srv !! "missing-packet" = None ->
  handler_tasks (server_step srv (Served sid)) = handler_tasks srv
  /\ exists conn',
       streams (server_run (server_step srv (Served sid)) later) !! sid = Some conn'
       /\ state conn' = Failed (KeyError "missing-packet")
       /\ packets_read conn' = packets_read conn ++ [packet]
       /\ tasks_of sid (handler_tasks (server_run (server_step srv (Served sid)) later))
          = tasks_of sid (handler_tasks srv).
Proof.
  intros Hs Hst Hau Hinbox Htype Hne Hfb.
  pose proof (lookup_lt_Some _ _ _ Hs) as Hlt.
  rewrite (serve_reading srv sid conn packet rest Hs Hst Hinbox).
  unfold handle_packet. rewrite Hau, Htype, Hne, Hfb. simpl negb. cbv iota.
  split; [done|].
  match goal with
  | |- context [server_run ?s later] =>
      destruct (ended_run s later sid
                  (mkConnection (conn_stream conn) rest true
                     (Failed (KeyError "missing-packet"))
                     (packets_read conn ++ [packet])))
        as (conn' & Hs' & Hst' & Hr' & _ & _ & Ht')
  end.
  - simpl. by rewrite list_lookup_insert_eq by done.
  - exact I.
  - exists conn'. by repeat split.
Qed.

Lemma missing_fallback_breaks_dispatch_witness :
  handler_tasks
    (server_step
       (server_after "password123" handlers_without_fallback
          (authenticated_trace ++ [Arrived 0 (Ok (eval_packet "c1"))]))
       (Served 0))
  = handler_tasks
      (server_after "password123" handlers_without_fallback
         (authenticated_trace ++ [Arrived 0 (Ok (eval_packet "c1"))])).
Proof.
  apply (missing_fallback_breaks_dispatch
           (server_after "password123" handlers_without_fallback
              (authenticated_trace ++ [Arrived 0 (Ok (eval_packet "c1"))]))
           0
           (mkConnection (mkStream [] (frame (dumps (auth_response true (VStr "c0")))))
              [Ok (eval_packet "c1")] true Reading [auth_packet "password123" "c0"])
           (eval_packet "c1") (VStr "eval") [] []);
    reflexivity.
Defined.

Lemma list_remove_present (x : nat) (l : list nat) :
  In x l -> exists l', list_remove x l = Ok l'.
Proof.
  induction l as [|y l IH]; simpl; [done|].
  destruct (Nat.eqb_spec x y) as [->|Hne]; [by eexists|].
  intros [->|Hin]; [done|]. destruct (IH Hin) as (l' & ->). by eexists.
Qed.

(** X10. A [disconnect] packet removes the connection. In every state a
    server reaches, when an authenticated connection reads a packet whose
    [type] is [disconnect], the connection is no longer in
    [self.connections] afterwards while every other member stays, nothing
    is written, no task is created, and no later packet of the connection
    is read. *)
Theorem disconnect_removes_connection {H} (secret : string)
    (handlers : gmap string H) (trace : list server_event) (sid : nat)
    (conn : Connection) (packet type : value) (rest : list (result value))
    (later : list server_event) :
  streams (server_after secret handlers trace) !! sid = Some conn ->
  state conn = Reading -> authed conn = true ->
  inbox conn = Ok packet :: rest ->
  py_getattr packet "type" = Ok type ->
  py_eq type (VStr "disconnect") = true ->
  ~ In sid (connections (server_step (server_after secret handlers trace) (Served sid)))
  /\ (forall other, other <> sid ->
        In other (connections (server_after secret handlers trace)) ->
        In other (connections
                    (server_step (server_after secret handlers trace) (Served sid))))
  /\ handler_tasks (server_step (server_after secret handlers trace) (Served sid))
     = handler_tasks (server_after secret handlers trace)
  /\ exists conn',
       streams (server_run
                  (server_step (server_after secret handlers trace) (Served sid))
                  later) !! sid = Some conn'
       /\ state conn' = Returned
       /\ conn_stream conn' = conn_stream conn
       /\ packets_read conn' = packets_read conn ++ [packet].
Proof.
  intros Hs Hst Hau Hinbox Htype Heq.
  set (srv := server_after secret handlers trace) in *.
  pose proof (server_after_inv secret handlers trace) as Hinv. fold srv in Hinv.
  pose proof (lookup_lt_Some _ _ _ Hs) as Hlt.
  assert (In sid (connections srv)) as Hin.
  { destruct (server_after_listed secret handlers trace sid conn Hs)
      as ([Hin|(_ & Hret & _)] & _); [done|congruence]. }
  destruct (list_remove_present sid _ Hin) as (conns & Hrm).
  destruct (list_remove_NoDup sid _ _ Hrm (si_nodup srv Hinv)) as [_ Hgone].
  rewrite (serve_reading srv sid conn packet rest Hs Hst Hinbox).
  unfold handle_packet. rewrite Hau, Htype, Heq, Hrm. simpl negb. cbv iota.
  split; [done|]. split; [|split; [done|]].
  - intros other Hne Hother. simpl.
    by apply (list_remove_other sid other (connections srv) conns).
  - match goal with
    | |- context [server_run ?s later] =>
        destruct (ended_run s later sid
                    (mkConnection (conn_stream conn) rest true Returned
                       (packets_read conn ++ [packet])))
          as (conn' & Hs' & Hst' & Hr' & Hw' & _ & _)
    end.
    + simpl. by rewrite list_lookup_insert_eq by done.
    + exact I.
    + exists conn'. by repeat split.
Qed.

Lemma disconnect_removes_connection_witness :
  ~ In 0 (connections
            (server_step
               (server_after "password123" sample_handlers
                  (authenticated_trace ++ [Accepted; Arrived 0 (Ok disconnect_packet)]))
               (Served 0))).
Proof.
  apply (fun H1 H2 H3 H4 H5 H6 => proj1 (disconnect_removes_connection "password123" sample_handlers
           (authenticated_trace ++ [Accepted; Arrived 0 (Ok disconnect_packet)]) 0
           (mkConnection (mkStream [] (frame (dumps (auth_response true (VStr "c0")))))
              [Ok disconnect_packet] true Reading [auth_packet "password123" "c0"])
           disconnect_packet (VStr "disconnect") [] [] H1 H2 H3 H4 H5 H6));
    vm_compute; reflexivity.
Defined.

(** ** Closing *)

Lemma closing_step {H} (srv : Server H) (ev : server_event) (sid : nat)
    (conn : Connection) :
  closing srv = true -> streams srv !! sid = Some conn ->
  closing (server_step srv ev) = true
  /\ exists conn',
       streams (server_step srv ev) !! sid = Some conn'
       /\ ((state conn' = state conn /\ packets_read conn' = packets_read conn)
           \/ (state conn' <> Reading
               /\ (packets_read conn' = packets_read conn
                   \/ (state conn = Reading
                       /\ exists p, packets_read conn' = packets_read conn ++ [p])))).
Proof.
  intros Hcl Hs. pose proof (lookup_lt_Some _ _ _ Hs) as Hlt.
  destruct ev as [|sid' r|sid'|]; simpl.
  - split; [done|]. exists conn. rewrite lookup_app_l by done. split; [done|by left].
  - destruct (arrive_frame srv sid' r) as (_ & _ & _ & _ & Hkeep).
    split; [unfold arrive; by destruct (streams srv !! sid')|].
    unfold arrive. destruct (streams srv !! sid') as [conn0|] eqn:Hs0;
      [|exists conn; split; [done|by left]].
    simpl. destruct (decide (sid' = sid)) as [->|Hne].
    + rewrite list_lookup_insert_eq by done. eexists. split; [done|]. left.
      simpl. by replace conn0 with conn by congruence.
    + rewrite list_lookup_insert_ne by done. exists conn. split; [done|by left].
  - destruct (serve_detail sid' srv)
      as [->|(conn0 & conn' & conns & new & Hs0 & -> & _ & Hch)].
    { split; [done|]. exists conn. split; [done|by left]. }
    simpl. split; [done|]. destruct (decide (sid' = sid)) as [->|Hne].
    + rewrite list_lookup_insert_eq by done. exists conn'. split; [done|].
      replace conn0 with conn in * by congruence. right.
      split; [by apply (ch_closing _ _ _ _ _ _ Hch)|].
      destruct (ch_reads _ _ _ _ _ _ Hch) as [?|(? & p & _ & ?)];
        [by left|right; split; [done|by exists p]].
    + rewrite list_lookup_insert_ne by done. exists conn. split; [done|by left].
  - split; [done|]. exists conn. split; [done|by left].
Qed.

(** X11. A closing server reads at most one more packet per connection. The
    loop tests [self.closing] only between packets: once the flag is set, a
    connection that is not suspended in a read reads no packet any more,
    and a connection that is suspended in a read reads at most the one
    packet that read returns. *)
Theorem closing_server_reads_at_most_one_more {H} (srv : Server H) (sid : nat)
    (conn : Connection) (later : list server_event) :
  closing srv = true -> streams srv !! sid = Some conn ->
  exists conn',
    streams (server_run srv later) !! sid = Some conn'
    /\ (packets_read conn' = packets_read conn
        \/ (state conn = Reading
            /\ exists p, packets_read conn' = packets_read conn ++ [p])).
Proof.
  intros Hcl Hs.
  assert (exists conn',
            streams (server_run srv later) !! sid = Some conn'
            /\ ((state conn' = state conn /\ packets_read conn' = packets_read conn)
                \/ (state conn' <> Reading
                    /\ (packets_read conn' = packets_read conn
                        \/ (state conn = Reading
                            /\ exists p, packets_read conn' = packets_read conn ++ [p])))))
    as (conn' & Hs' & Hcases).
  { revert srv conn Hcl Hs. induction later as [|ev later IH]; intros srv conn Hcl Hs.
    - exists conn. split; [done|by left].
    - destruct (closing_step srv ev sid conn Hcl Hs) as (Hcl1 & conn1 & Hs1 & H1).
      destruct (IH _ conn1 Hcl1 Hs1) as (conn2 & Hs2 & H2).
      exists conn2. split; [done|].
      destruct H1 as [[Hst1 Hr1]|[Hst1 Hr1]].
      + rewrite Hst1, Hr1 in H2. done.
      + right. destruct H2 as [[Hst2 Hr2]|[Hst2 [Hr2|[Hst2' _]]]].
        * split; [congruence|]. by rewrite Hr2.
        * split; [done|]. by rewrite Hr2.
        * done. }
  exists conn'. split; [done|].
  destruct Hcases as [[_ ?]|[_ ?]]; [by left|done].
Qed.

Lemma closing_server_reads_at_most_one_more_witness :
  exists conn',
    streams (server_run
               (server_after "password123" sample_handlers
                  (authenticated_trace ++ [Closing]))
               [Arrived 0 (Ok (eval_packet "c1")); Served 0;
                Arrived 0 (Ok (eval_packet "c2")); Served 0]) !! 0 = Some conn'
    /\ (packets_read conn' = [auth_packet "password123" "c0"]
        \/ (Reading = Reading
            /\ exists p, packets_read conn' = [auth_packet "password123" "c0"] ++ [p])).
Proof.
  apply (closing_server_reads_at_most_one_more
           (server_after "password123" sample_handlers (authenticated_trace ++ [Closing]))
           0
           (mkConnection (mkStream [] (frame (dumps (auth_response true (VStr "c0")))))
              [] true Reading [auth_packet "password123" "c0"]));
    vm_compute; reflexivity.
Defined.

(** ** Connections do not interfere *)

(** X12. What happens on one connection leaves every other connection as it
    was. Resuming the coroutine of [sid'], whether it dispatches, answers,
    returns or raises, and the arrival of input for [sid'], change neither
    the record of another connection [sid], nor the tasks created for it,
    nor its membership in [self.connections]. *)
Theorem connections_do_not_interfere {H} (srv : Server H) (sid sid' : nat)
    (r : result value) :
  sid <> sid' ->
  streams (server_step srv (Served sid')) !! sid = streams srv !! sid
  /\ tasks_of sid (handler_tasks (server_step srv (Served sid')))
     = tasks_of sid (handler_tasks srv)
  /\ (In sid (connections (server_step srv (Served sid')))
      <-> In sid (connections srv))
  /\ streams (server_step srv (Arrived sid' r)) !! sid = streams srv !! sid
  /\ handler_tasks (server_step srv (Arrived sid' r)) = handler_tasks srv
  /\ connections (server_step srv (Arrived sid' r)) = connections srv.
Proof.
  intros Hne. simpl.
  assert (streams (arrive sid' r srv) !! sid = streams srv !! sid
          /\ handler_tasks (arrive sid' r srv) = handler_tasks srv
          /\ connections (arrive sid' r srv) = connections srv) as Harrive.
  { unfold arrive. destruct (streams srv !! sid'); [|done].
    simpl. by rewrite list_lookup_insert_ne by done. }
  destruct (serve_shape sid' srv)
    as [->|(conn & conn' & conns & new & Hs & _ & -> & Hnew & Hconns & _)]; [done|].
  simpl. rewrite list_lookup_insert_ne by done.
  split; [done|]. split; [by apply (tasks_of_app_other sid sid')|].
  split; [|done].
  destruct Hconns as [[-> _]|[Hrm _]]; [done|]. split.
  - by apply (list_remove_In sid' sid (connections srv) conns).
  - by apply (list_remove_other sid' sid (connections srv) conns).
Qed.

Lemma connections_do_not_interfere_witness :
  streams (server_step
             (server_after "password123" sample_handlers
                (authenticated_trace
                 ++ [Accepted; Arrived 1 (Ok (auth_packet_without_id "guess"))]))
             (Served 1)) !! 0
  = streams (server_after "password123" sample_handlers
               (authenticated_trace
                ++ [Accepted; Arrived 1 (Ok (auth_packet_without_id "guess"))])) !! 0.
Proof.
  apply (fun H => proj1 (connections_do_not_interfere
           (server_after "password123" sample_handlers
              (authenticated_trace
               ++ [Accepted; Arrived 1 (Ok (auth_packet_without_id "guess"))]))
           0 1 (Raise StructError) H)).
  lia.
Defined.

(** ** More on the correlator *)

Lemma client_after_inv (objects : gmap nat value) (s : Stream)
    (trace : list client_event) :
  client_inv (client_after objects s trace).
Proof. apply client_run_inv, new_client_inv. Qed.

Lemma request_fresh_key (p : nat) (c : Client) :
  client_inv c -> expected_packets c !! ("c" +:+ string_of_N (current_id c)) = None.
Proof.
  intros Hinv.
  destruct (expected_packets c !! ("c" +:+ string_of_N (current_id c))) as [rec|] eqn:Hl;
    [|done].
  destruct (inv_keys c Hinv _ rec Hl) as (n & Hn & Heq).
  apply packet_id_inj in Heq. lia.
Qed.

Lemma client_step_count (c : Client) (ev : client_event) :
  client_inv c -> client_count c -> client_count (client_step c ev).
Proof.
  intros Hinv [Hsize Hcalls Hall]. destruct ev as [p|r|i]; simpl.
  - destruct (heap c !! p) as [obj|] eqn:Hp;
      [|rewrite request_not_dict; [done|intros d; congruence]].
    destruct obj as [| | | | |d| |];
      try (rewrite request_not_dict; [done|intros d'; congruence]).
    pose proof (request_call_ids p c d Hp) as Hids.
    pose proof (request_fresh_key p c Hinv) as Hfresh.
    split.
    + rewrite (request_eq p c d Hp). simpl.
      rewrite map_size_insert_None by done. lia.
    + rewrite (Permutation_length Hids). simpl.
      rewrite (request_eq p c d Hp). simpl. lia.
    + rewrite (request_eq p c d Hp). simpl. intros n Hn.
      destruct (decide (n = current_id c)) as [->|Hne].
      * rewrite lookup_insert_eq. by eexists.
      * rewrite lookup_insert_ne by (intros Heq; apply packet_id_inj in Heq; done).
        apply Hall. lia.
  - destruct (read_task c); [done|].
    destruct (read_packets_cases r c)
      as [(e & -> & _)|[(packet & id & _ & _ & _ & ->)
                       |(packet & k & event & slot & _ & _ & Hk & ->)]];
      try (by split).
    split; simpl; [|done|].
    + rewrite map_size_insert_Some by (by eexists). done.
    + intros n Hn. destruct (decide ("c" +:+ string_of_N n = k)) as [<-|Hne].
      * rewrite lookup_insert_eq. by eexists.
      * rewrite lookup_insert_ne by done. by apply Hall.
  - destruct (resume_cases i c Hinv)
      as [->|(k & e & packet & Hw & He & Hl & Hid & ->)]; [done|].
    split; simpl; [done| |done].
    rewrite <- Hcalls. unfold call_ids. simpl.
    pose proof (lookup_lt_Some _ _ _ Hw) as Hlt.
    rewrite !length_app, !length_map, length_app, length_delete by (by eexists).
    simpl. lia.
Qed.

(** X13. One record per request, forever. In every state a client reaches,
    the table [expected_packets] holds exactly as many records as the
    counter [current_id] counts, which is the number of calls of [request]
    that got as far as registering; the identifiers in use are exactly the
    letter c followed by each number below the counter. *)
Theorem one_record_per_request (objects : gmap nat value) (s : Stream)
    (trace : list client_event) :
  size (expected_packets (client_after objects s trace))
  = N.to_nat (current_id (client_after objects s trace))
  /\ length (call_ids (client_after objects s trace))
     = N.to_nat (current_id (client_after objects s trace))
  /\ forall k,
       is_Some (expected_packets (client_after objects s trace) !! k)
       <-> exists n, (n < current_id (client_after objects s trace))%N
                     /\ k = "c" +:+ string_of_N n.
Proof.
  assert (client_count (client_after objects s trace)) as [Hsize Hcalls Hall].
  { unfold client_after. generalize (new_client_inv objects s).
    assert (client_count (new_client objects s)) as Hcount.
    { split; simpl; [done|done|intros n Hn; lia]. }
    revert Hcount. generalize (new_client objects s).
    induction trace as [|ev trace IH]; intros c Hcount Hinv; [done|].
    simpl. apply IH; [by apply client_step_count|by apply client_step_inv]. }
  split; [done|]. split; [done|].
  intros k. split.
  - intros [rec Hl]. apply (inv_keys _ (client_after_inv objects s trace) k rec Hl).
  - intros (n & Hn & ->). by apply Hall.
Qed.

Lemma read_packets_known (reply : value) (k : string) (e : nat)
    (slot : option value) (c : Client) :
  has_id reply k -> expected_packets c !! k = Some (e, slot) ->
  read_packets (Ok reply) c
  = mkClient (heap c) (stream c) (<[k := (e, Some reply)]> (expected_packets c))
      (<[e := true]> (events c)) (current_id c) (broadcast_tasks c) (read_task c)
      (waiting c) (finished c).
Proof.
  unfold has_id, read_packets. intros -> Hk. simpl.
  rewrite bool_decide_true by (by eexists). by rewrite Hk.
Qed.

(** X14. A request too big to send leaves its record behind. When the packet,
    once [request] has stored the identifier in it, has a frame over the
    limit, [request] raises the [ValueError] of [write_packet] with nothing
    written; the identifier is used up, the caller's object has been
    modified, and the record stays in [expected_packets]: a packet that
    arrives later with this identifier is stored there, not broadcast. *)
Theorem oversized_request_leaves_record (p : nat) (c : Client)
    (d : list (string * value)) :
  heap c !! p = Some (VDict d) ->
  (65531 < Z.of_nat (length (dumps
     (VDict (dict_set "id" (VStr ("c" +:+ string_of_N (current_id c))) d))))
   < 2 ^ 31)%Z ->
  stream (request p c) = stream c
  /\ waiting (request p c) = waiting c
  /\ finished (request p c)
     = finished c ++ [("c" +:+ string_of_N (current_id c),
                       Raise (ValueError "Packet is too big to send..."))]
  /\ current_id (request p c) = (current_id c + 1)%N
  /\ heap (request p c) !! p
     = Some (VDict (dict_set "id" (VStr ("c" +:+ string_of_N (current_id c))) d))
  /\ expected_packets (request p c) !! ("c" +:+ string_of_N (current_id c))
     = Some (length (events c), None)
  /\ forall reply,
       has_id reply ("c" +:+ string_of_N (current_id c)) -> read_task c = None ->
       broadcast_tasks (client_step (request p c) (Received (Ok reply)))
       = broadcast_tasks c.
Proof.
  intros Hp [Hbig Hsmall].
  set (k := "c" +:+ string_of_N (current_id c)) in *.
  set (packet := VDict (dict_set "id" (VStr k) d)) in *.
  assert (write_packet packet (stream c)
          = (Raise (ValueError "Packet is too big to send..."), stream c)) as Hw.
  { rewrite write_packet_cases.
    destruct (Z.ltb_spec (Z.of_nat (length (dumps packet))) (2 ^ 31)) as [_|?]; [|lia].
    destruct (Z.ltb_spec 65535 (4 + Z.of_nat (length (dumps packet)))) as [_|?];
      [done|lia]. }
  assert (request p c
          = mkClient (<[p := packet]> (heap c)) (stream c)
              (<[k := (length (events c), None)]> (expected_packets c))
              (events c ++ [false]) (current_id c + 1)%N (broadcast_tasks c)
              (read_task c) (waiting c)
              (finished c ++ [(k, Raise (ValueError "Packet is too big to send..."))]))
    as ->.
  { rewrite (request_eq p c d Hp). cbn zeta. fold k. fold packet. by rewrite Hw. }
  cbn [stream waiting finished current_id heap expected_packets].
  repeat (split; [done|]).
  split; [apply lookup_insert_eq|]. split; [apply lookup_insert_eq|].
  intros reply Hid Hread. cbn [client_step read_task]. rewrite Hread.
  erewrite read_packets_known; [done|done|]. simpl. apply lookup_insert_eq.
Qed.

Lemma oversized_request_leaves_record_witness :
  finished (request 0 (new_client oversized_objects empty_stream))
  = finished (new_client oversized_objects empty_stream)
    ++ [("c" +:+ string_of_N (current_id (new_client oversized_objects empty_stream)),
         Raise (ValueError "Packet is too big to send..."))].
Proof.
  apply (fun H1 H2 =>
    proj1 (proj2 (proj2
      (oversized_request_leaves_record 0 (new_client oversized_objects empty_stream)
         [("type", VStr "eval"); ("code", VStr (letters 65536))] H1 H2))));
    [reflexivity|vm_compute; split; reflexivity].
Defined.

(** X15. A second response to a request that has returned is dropped. In a
    state a client reaches, once the request with identifier [k] has
    returned, a packet that carries [k] again is neither broadcast nor
    delivered to any call: it replaces the packet stored in the record of
    [k], which no call reads any more. *)
Theorem duplicate_response_dropped (objects : gmap nat value) (s : Stream)
    (trace : list client_event) (k : string) (outcome : option value)
    (reply : value) :
  In (k, Ok outcome) (finished (client_after objects s trace)) ->
  read_task (client_after objects s trace) = None ->
  has_id reply k ->
  broadcast_tasks (client_step (client_after objects s trace) (Received (Ok reply)))
  = broadcast_tasks (client_after objects s trace)
  /\ finished (client_step (client_after objects s trace) (Received (Ok reply)))
     = finished (client_after objects s trace)
  /\ waiting (client_step (client_after objects s trace) (Received (Ok reply)))
     = waiting (client_after objects s trace)
  /\ read_task (client_step (client_after objects s trace) (Received (Ok reply)))
     = None
  /\ ~ In k (map fst (waiting (client_after objects s trace)))
  /\ exists e,
       expected_packets (client_step (client_after objects s trace)
                           (Received (Ok reply))) !! k
       = Some (e, Some reply).
Proof.
  pose proof (client_after_inv objects s trace) as Hinv.
  set (c := client_after objects s trace) in *.
  intros Hfin Hread Hid.
  destruct (inv_finished c Hinv k outcome Hfin) as (_ & _ & _ & e & old & Hk).
  cbn [client_step].
  rewrite Hread, (read_packets_known reply k e (Some old) c Hid Hk). simpl.
  repeat (split; [done|]). split.
  - intros Hin. pose proof (inv_ids_nodup c Hinv) as Hnd. unfold call_ids in Hnd.
    apply NoDup_app in Hnd as (_ & Hdisj & _).
    apply (Hdisj k); apply list_elem_of_In; [done|].
    apply (in_map fst) in Hfin. exact Hfin.
  - exists e. apply lookup_insert_eq.
Qed.

Lemma duplicate_response_dropped_witness :
  broadcast_tasks (client_step (client_after sample_objects empty_stream out_of_order_trace)
                     (Received (Ok (response "c1" 7))))
  = broadcast_tasks (client_after sample_objects empty_stream out_of_order_trace).
Proof.
  apply (fun H1 H2 H3 =>
    proj1 (duplicate_response_dropped sample_objects empty_stream out_of_order_trace
             "c1" (Some (response "c1" 1)) (response "c1" 7) H1 H2 H3));
    vm_compute; [by left|reflexivity|reflexivity].
Defined.

(** X16. Of two responses to one pending request, the last one is returned.
    When two packets with the identifier of a suspended call arrive before
    the call is resumed, the call returns the second; the first is lost and
    neither is broadcast. *)
Theorem last_response_wins (objects : gmap nat value) (s : Stream)
    (trace : list client_event) (i : nat) (k : string) (e : nat)
    (first second : value) :
  waiting (client_after objects s trace) !! i = Some (k, e) ->
  read_task (client_after objects s trace) = None ->
  has_id first k -> has_id second k ->
  finished (client_run (client_after objects s trace)
              [Received (Ok first); Received (Ok second); Resumed i])
  = finished (client_after objects s trace) ++ [(k, Ok (Some second))]
  /\ broadcast_tasks (client_run (client_after objects s trace)
                        [Received (Ok first); Received (Ok second); Resumed i])
     = broadcast_tasks (client_after objects s trace).
Proof.
  pose proof (client_after_inv objects s trace) as Hinv.
  set (c := client_after objects s trace) in *.
  intros Hw Hread Hid1 Hid2.
  destruct (inv_waiting c Hinv k e) as [slot Hk];
    [by eapply list_elem_of_In, list_elem_of_lookup_2|].
  pose proof (inv_event_bound c Hinv k e slot Hk) as He.
  unfold client_run. cbn [fold_left client_step].
  rewrite Hread, (read_packets_known first k e slot c Hid1 Hk). cbn [read_task].
  rewrite Hread. erewrite read_packets_known; [|done|apply lookup_insert_eq].
  unfold resume. cbn [waiting events expected_packets]. rewrite Hw.
  rewrite list_lookup_insert_eq by (by rewrite length_insert).
  by rewrite lookup_insert_eq.
Qed.

Lemma last_response_wins_witness :
  finished (client_run two_requests
              [Received (Ok (response "c1" 1)); Received (Ok (response "c1" 2));
               Resumed 1])
  = finished two_requests ++ [("c1", Ok (Some (response "c1" 2)))].
Proof.
  apply (fun H1 H2 H3 H4 =>
    proj1 (last_response_wins sample_objects empty_stream [Request 0; Request 1]
             1 "c1" 1 (response "c1" 1) (response "c1" 2) H1 H2 H3 H4));
    vm_compute; reflexivity.
Defined.

(** X17. A packet wakes no request but its own. Whatever the read loop
    receives, if it is not a packet with the identifier [k], a call that
    waits for [k] keeps waiting: its event stays unset and resuming it does
    nothing. *)
Theorem response_wakes_only_its_request (objects : gmap nat value) (s : Stream)
    (trace : list client_event) (k : string) (e : nat) (r : result value) :
  In (k, e) (waiting (client_after objects s trace)) ->
  events (client_after objects s trace) !! e = Some false ->
  (forall packet, r = Ok packet -> ~ has_id packet k) ->
  events (client_step (client_after objects s trace) (Received r)) !! e = Some false
  /\ waiting (client_step (client_after objects s trace) (Received r))
     = waiting (client_after objects s trace)
  /\ forall i,
       waiting (client_after objects s trace) !! i = Some (k, e) ->
       client_step (client_step (client_after objects s trace) (Received r)) (Resumed i)
       = client_step (client_after objects s trace) (Received r).
Proof.
  pose proof (client_after_inv objects s trace) as Hinv.
  set (c := client_after objects s trace) in *.
  intros Hin He Hother.
  assert (events (client_step c (Received r)) !! e = Some false
          /\ waiting (client_step c (Received r)) = waiting c) as [He' Hw'].
  { simpl. destruct (read_task c); [done|].
    destruct (read_packets_cases r c)
      as [(err & -> & _)|[(packet & id & _ & _ & _ & ->)
                         |(packet & k' & event & slot & -> & Hid & Hk' & ->)]];
      try done.
    simpl. split; [|done].
    destruct (inv_waiting c Hinv k e Hin) as [slot0 Hk].
    rewrite list_lookup_insert_ne; [done|].
    intros ->. apply (Hother packet eq_refl).
    by rewrite (inv_event_inj c Hinv k k' e slot0 slot Hk Hk'). }
  split; [done|]. split; [done|].
  intros i Hi. revert He' Hw'. generalize (client_step c (Received r)).
  intros c' He' Hw'. simpl. unfold resume. by rewrite Hw', Hi, He'.
Qed.

Lemma response_wakes_only_its_request_witness :
  events (client_step two_requests (Received (Ok (response "c1" 1)))) !! 0
  = Some false.
Proof.
  apply (fun H1 H2 H3 =>
    proj1 (response_wakes_only_its_request sample_objects empty_stream
             [Request 0; Request 1] "c0" 0 (Ok (response "c1" 1)) H1 H2 H3)).
  - vm_compute. by left.
  - vm_compute. reflexivity.
  - intros packet [= <-]. vm_compute. discriminate.
Defined.

Lemma In_delete_other {A} (x y : A) (l : list A) (i : nat) :
  In x l -> l !! i = Some y -> x <> y -> In x (delete i l).
Proof.
  revert i. induction l as [|z l IH]; intros i Hin Hi Hne; [done|].
  destruct i as [|i]; simpl in *.
  - destruct Hin as [->|Hin]; [congruence|done].
  - destruct Hin as [->|Hin]; [by left|right; by eapply IH].
Qed.

(** ** Every outstanding call gets its own response *)

Lemma read_task_step (c : Client) (ev : client_event) :
  read_task (client_step c ev) = None -> read_task c = None.
Proof.
  destruct ev as [p|r|i]; simpl.
  - destruct (heap c !! p) as [obj|] eqn:Hp;
      [|by rewrite request_not_dict by (intros d; congruence)].
    destruct obj as [| | | | |d| |];
      try (by rewrite request_not_dict by (intros d'; congruence)).
    by rewrite (request_eq p c d Hp).
  - destruct (read_task c) eqn:Hread; [congruence|done].
  - unfold resume. destruct (waiting c !! i) as [[k e]|]; [|done].
    by destruct (events c !! e) as [[]|].
Qed.

Lemma waiting_step_back (c : Client) (ev : client_event) (k : string) (e : nat)
    (rec : nat * option value) :
  client_inv c -> expected_packets c !! k = Some rec ->
  In (k, e) (waiting (client_step c ev)) -> In (k, e) (waiting c).
Proof.
  intros Hinv Hk. destruct ev as [p|r|i]; simpl.
  - destruct (heap c !! p) as [obj|] eqn:Hp;
      [|by rewrite request_not_dict by (intros d; congruence)].
    destruct obj as [| | | | |d| |];
      try (by rewrite request_not_dict by (intros d'; congruence)).
    rewrite (request_eq p c d Hp). simpl.
    destruct (write_packet _ _).1; [|done].
    intros [Hin|[[= <- _]|[]]]%in_app_or; [done|].
    by rewrite (request_fresh_key p c Hinv) in Hk.
  - destruct (read_task c); [done|].
    by destruct (read_packets_cases r c)
      as [(err & -> & _)|[(packet & id & _ & _ & _ & ->)
                         |(packet & k' & event & slot & _ & _ & _ & ->)]].
  - unfold resume. destruct (waiting c !! i) as [[k' e']|]; [|done].
    destruct (events c !! e') as [[]|]; [|done|done]. simpl.
    intros Hin%list_elem_of_In. apply list_elem_of_In.
    revert Hin. apply list_subseteq_delete.
Qed.

(** In any run that leaves the read loop alive, a call that was suspended
    at the start and is still suspended has its event set and its slot
    filled with a response bearing its identifier, as soon as one such
    response has been received. *)
Lemma response_reaches_call (c : Client) (more : list client_event) (k : string)
    (e : nat) :
  client_inv c -> In (k, e) (waiting c) ->
  read_task (client_run c more) = None ->
  In (k, e) (waiting (client_run c more)) ->
  (exists r, In (Received (Ok r)) more /\ has_id r k) ->
  events (client_run c more) !! e = Some true
  /\ exists r,
       In (Received (Ok r)) more /\ has_id r k
       /\ expected_packets (client_run c more) !! k = Some (e, Some r).
Proof.
  intros Hinv Hin0.
  induction more as [|ev more IH] using rev_ind; [by intros _ _ (r & [] & _)|].
  unfold client_run in *. rewrite fold_left_app. cbn [fold_left].
  fold (client_run c more) in *. set (c1 := client_run c more) in *.
  pose proof (client_run_inv c more Hinv) as Hinv1. fold c1 in Hinv1.
  destruct (inv_waiting c Hinv k e Hin0) as (slot0 & Hk0).
  destruct (client_run_keeps_records c more k _ Hk0) as (rec1 & Hrec1). fold c1 in Hrec1.
  intros Hread Hin Hresp.
  pose proof (read_task_step c1 ev Hread) as Hread1.
  pose proof (waiting_step_back c1 ev k e rec1 Hinv1 Hrec1 Hin) as Hin1.
  destruct (inv_waiting c1 Hinv1 k e Hin1) as (slot1 & Hk1).
  pose proof (inv_event_bound c1 Hinv1 k e slot1 Hk1) as Hbound.
  assert ((exists r, In (Received (Ok r)) more /\ has_id r k)
          \/ exists r, ev = Received (Ok r) /\ has_id r k) as Hcases.
  { destruct Hresp as (r & [Hr|[Hev|[]]]%in_app_or & Hid);
      [left; by exists r|right; by exists r]. }
  assert (forall r, In (Received (Ok r)) more -> In (Received (Ok r)) (more ++ [ev]))
    as Hweak by (intros r Hr; apply in_or_app; by left).
  specialize (IH Hread1 Hin1).
  destruct ev as [p|r0|i]; simpl in *.
  - destruct Hcases as [Hold|(r & [=] & _)].
    destruct (IH Hold) as (He & r & Hr & Hid & Hk).
    destruct (heap c1 !! p) as [obj|] eqn:Hp;
      [|rewrite request_not_dict by (intros d; congruence); split; [done|];
        exists r; auto].
    destruct obj as [| | | | |d| |];
      try (rewrite request_not_dict by (intros d'; congruence); split; [done|];
           exists r; by auto).
    rewrite (request_eq p c1 d Hp). simpl.
    split; [by rewrite lookup_app_l|]. exists r. split; [by auto|]. split; [done|].
    rewrite lookup_insert_ne; [done|].
    intros <-. by rewrite (request_fresh_key p c1 Hinv1) in Hk1.
  - rewrite Hread1 in *.
    destruct (read_packets_cases r0 c1)
      as [(err & Heq & _)|[(packet & id & -> & Hgid & Hnot & Heq)
                         |(packet & k' & event & slot & -> & Hid' & Hk' & Heq)]];
      rewrite Heq in *; simpl in *; [done| |].
    + destruct Hcases as [Hold|(r & [= <-] & Hid)].
      * destruct (IH Hold) as (He & r & Hr & Hid & Hk).
        split; [done|]. exists r. by auto.
      * unfold has_id in Hid. rewrite Hid in Hgid. injection Hgid as <-.
        simpl in Hnot. rewrite bool_decide_true in Hnot by (by eexists). done.
    + destruct (decide (k' = k)) as [->|Hne].
      * assert (event = e) as -> by congruence.
        split; [by rewrite list_lookup_insert_eq|].
        exists packet. split; [apply in_or_app; right; by left|]. split; [done|].
        by rewrite lookup_insert_eq.
      * destruct Hcases as [Hold|(r & [= <-] & Hid)].
        -- destruct (IH Hold) as (He & r & Hr & Hid & Hk).
           split.
           ++ destruct (decide (event = e)) as [->|Hev];
                [by rewrite list_lookup_insert_eq|by rewrite list_lookup_insert_ne].
           ++ exists r. split; [by auto|]. split; [done|].
              by rewrite lookup_insert_ne.
        -- unfold has_id in *. congruence.
  - destruct Hcases as [Hold|(r & [=] & _)].
    destruct (IH Hold) as (He & r & Hr & Hid & Hk).
    unfold resume. destruct (waiting c1 !! i) as [[k' e']|]; [|split; [done|]; exists r; by auto].
    destruct (events c1 !! e') as [[]|]; simpl; split; try done; exists r; by auto.
Qed.

Lemma read_loop_step_alive (c : Client) (ev : client_event) :
  read_task c = None -> (forall r, ev = Received r -> carries_id r) ->
  read_task (client_step c ev) = None.
Proof.
  intros Hread Hev. destruct ev as [p|r|i]; simpl.
  - destruct (heap c !! p) as [obj|] eqn:Hp;
      [|by rewrite request_not_dict by (intros d; congruence)].
    destruct obj as [| | | | |d| |];
      try (by rewrite request_not_dict by (intros d'; congruence)).
    by rewrite (request_eq p c d Hp).
  - rewrite Hread. destruct (Hev r eq_refl) as (packet & id & -> & Hid & Hh).
    destruct (read_packets_cases (Ok packet) c)
      as [(err & _ & [[=]|[(p' & [= <-] & Hraise)|(p' & id' & [= <-] & Hid' & Hnh)]])
         |[(p' & id' & _ & _ & _ & ->)|(p' & k' & event & slot & _ & _ & _ & ->)]];
      try done; congruence.
  - unfold resume. destruct (waiting c !! i) as [[k e]|]; [|done].
    by destruct (events c !! e) as [[]|].
Qed.

Lemma call_kept_or_returned (c : Client) (ev : client_event) (k : string) (e : nat) :
  client_inv c ->
  In (k, e) (waiting c)
  \/ (exists packet, In (k, Ok (Some packet)) (finished c) /\ has_id packet k) ->
  In (k, e) (waiting (client_step c ev))
  \/ (exists packet, In (k, Ok (Some packet)) (finished (client_step c ev))
                     /\ has_id packet k).
Proof.
  intros Hinv Hcase. destruct ev as [p|r|i]; simpl.
  - destruct (heap c !! p) as [obj|] eqn:Hp;
      [|by rewrite request_not_dict by (intros d; congruence)].
    destruct obj as [| | | | |d| |];
      try (by rewrite request_not_dict by (intros d'; congruence)).
    rewrite (request_eq p c d Hp). simpl.
    destruct Hcase as [Hin|(packet & Hin & Hid)].
    + left. destruct (write_packet _ _).1; [apply in_or_app; by left|done].
    + right. exists packet. split; [|done].
      destruct (write_packet _ _).1; [done|apply in_or_app; by left].
  - destruct (read_task c); [done|].
    by destruct (read_packets_cases r c)
      as [(err & -> & _)|[(packet & id & _ & _ & _ & ->)
                         |(packet & k' & event & slot & _ & _ & _ & ->)]].
  - destruct (resume_cases i c Hinv)
      as [->|(k' & e' & packet & Hw & He & Hl & Hid & ->)]; [done|]. simpl.
    destruct Hcase as [Hin|(packet0 & Hin & Hid0)].
    + destruct (decide ((k, e) = (k', e'))) as [[= <- <-]|Hne].
      * right. exists packet. split; [apply in_or_app; right; by left|done].
      * left. by apply (In_delete_other _ (k', e')).
    + right. exists packet0. split; [apply in_or_app; by left|done].
Qed.

(** C1. In every run of the client, whatever the order in which requests
    are issued, responses arrive and suspended calls are resumed: a call of
    [request] that returns returns a packet whose [id] is the identifier the
    call assigned, and no two calls were assigned the same identifier. For
    the calls that are outstanding in a state, however many, and for every
    continuation of the run: the read loop stays alive as long as every
    packet it receives carries an [id] that can be looked up; a call is
    still suspended or has returned a response bearing its identifier; and
    while the loop is alive, a call still suspended for which a response
    has been received, before or after the responses of the other calls,
    returns a received response bearing its identifier when it is
    resumed. *)
Theorem request_returns_own_response (objects : gmap nat value) (s : Stream)
    (trace : list client_event) :
  (forall k outcome,
     In (k, Ok outcome) (finished (client_after objects s trace)) ->
     exists packet, outcome = Some packet /\ py_getattr packet "id" = Ok (VStr k))
  /\ NoDup (call_ids (client_after objects s trace))
  /\ (forall more,
        read_task (client_after objects s trace) = None ->
        (forall r, In (Received r) more -> carries_id r) ->
        read_task (client_run (client_after objects s trace) more) = None)
  /\ (forall more k e,
        In (k, e) (waiting (client_after objects s trace)) ->
        In (k, e) (waiting (client_run (client_after objects s trace) more))
        \/ exists packet,
             In (k, Ok (Some packet))
               (finished (client_run (client_after objects s trace) more))
             /\ py_getattr packet "id" = Ok (VStr k))
  /\ (forall more i k e r,
        In (k, e) (waiting (client_after objects s trace)) ->
        In (Received (Ok r)) more -> py_getattr r "id" = Ok (VStr k) ->
        read_task (client_run (client_after objects s trace) more) = None ->
        waiting (client_run (client_after objects s trace) more) !! i = Some (k, e) ->
        exists r',
          In (Received (Ok r')) more /\ py_getattr r' "id" = Ok (VStr k)
          /\ client_step (client_run (client_after objects s trace) more) (Resumed i)
             = mkClient
                 (heap (client_run (client_after objects s trace) more))
                 (stream (client_run (client_after objects s trace) more))
                 (expected_packets (client_run (client_after objects s trace) more))
                 (events (client_run (client_after objects s trace) more))
                 (current_id (client_run (client_after objects s trace) more))
                 (broadcast_tasks (client_run (client_after objects s trace) more))
                 None
                 (delete i (waiting (client_run (client_after objects s trace) more)))
                 (finished (client_run (client_after objects s trace) more)
                  ++ [(k, Ok (Some r'))])).
Proof.
  pose proof (client_after_inv objects s trace) as Hinv.
  set (c := client_after objects s trace) in *.
  split; [|split; [|split; [|split]]].
  - intros k outcome Hin.
    destruct (inv_finished c Hinv k outcome Hin) as (packet & ? & ? & _).
    by exists packet.
  - apply (inv_ids_nodup c Hinv).
  - intros more. clearbody c. revert c Hinv.
    induction more as [|ev more IH]; intros c Hinv Hread Hall; [done|].
    simpl. apply IH.
    + by apply client_step_inv.
    + apply read_loop_step_alive; [done|]. intros r ->. apply Hall. by left.
    + intros r Hr. apply Hall. by right.
  - intros more k e Hin.
    assert (forall c0, client_inv c0 ->
              (In (k, e) (waiting c0)
               \/ exists packet, In (k, Ok (Some packet)) (finished c0) /\ has_id packet k) ->
              In (k, e) (waiting (client_run c0 more))
              \/ exists packet, In (k, Ok (Some packet)) (finished (client_run c0 more))
                                /\ has_id packet k) as Hgen.
    { induction more as [|ev more IH]; intros c0 Hinv0 Hcase; [done|].
      simpl. apply IH; [by apply client_step_inv|by apply call_kept_or_returned]. }
    apply Hgen; [done|by left].
  - intros more i k e r Hin Hr Hid Hread Hi.
    assert (In (k, e) (waiting (client_run c more))) as Hin'
      by (by eapply list_elem_of_In, list_elem_of_lookup_2).
    destruct (response_reaches_call c more k e Hinv Hin Hread Hin')
      as (He & r' & Hr' & Hid' & Hk'); [by exists r|].
    exists r'. split; [done|]. split; [done|].
    simpl. unfold resume. by rewrite Hi, He, Hk', Hread.
Qed.

Lemma request_returns_own_response_witness :
  exists r',
    In (Received (Ok r'))
      [Received (Ok (response "c1" 1)); Resumed 1; Received (Ok (response "c0" 2))]
    /\ py_getattr r' "id" = Ok (VStr "c0")
    /\ client_step
         (client_run (client_after sample_objects empty_stream [Request 0; Request 1])
            [Received (Ok (response "c1" 1)); Resumed 1;
             Received (Ok (response "c0" 2))])
         (Resumed 0)
       = mkClient
           (heap (client_run (client_after sample_objects empty_stream
                                [Request 0; Request 1])
                    [Received (Ok (response "c1" 1)); Resumed 1;
                     Received (Ok (response "c0" 2))]))
           (stream (client_run (client_after sample_objects empty_stream
                                  [Request 0; Request 1])
                      [Received (Ok (response "c1" 1)); Resumed 1;
                       Received (Ok (response "c0" 2))]))
           (expected_packets (client_run (client_after sample_objects empty_stream
                                            [Request 0; Request 1])
                                [Received (Ok (response "c1" 1)); Resumed 1;
                                 Received (Ok (response "c0" 2))]))
           (events (client_run (client_after sample_objects empty_stream
                                  [Request 0; Request 1])
                      [Received (Ok (response "c1" 1)); Resumed 1;
                       Received (Ok (response "c0" 2))]))
           (current_id (client_run (client_after sample_objects empty_stream
                                      [Request 0; Request 1])
                          [Received (Ok (response "c1" 1)); Resumed 1;
                           Received (Ok (response "c0" 2))]))
           (broadcast_tasks (client_run (client_after sample_objects empty_stream
                                           [Request 0; Request 1])
                               [Received (Ok (response "c1" 1)); Resumed 1;
                                Received (Ok (response "c0" 2))]))
           None
           (delete 0
              (waiting (client_run (client_after sample_objects empty_stream
                                      [Request 0; Request 1])
                          [Received (Ok (response "c1" 1)); Resumed 1;
                           Received (Ok (response "c0" 2))])))
           (finished (client_run (client_after sample_objects empty_stream
                                    [Request 0; Request 1])
                        [Received (Ok (response "c1" 1)); Resumed 1;
                         Received (Ok (response "c0" 2))])
            ++ [("c0", Ok (Some r'))]).
Proof.
  apply (fun H1 H2 H3 H4 H5 =>
    proj2 (proj2 (proj2 (proj2
      (request_returns_own_response sample_objects empty_stream
         [Request 0; Request 1]))))
      [Received (Ok (response "c1" 1)); Resumed 1; Received (Ok (response "c0" 2))]
      0 "c0" 0 (response "c0" 2) H1 H2 H3 H4 H5).
  - vm_compute. by left.
  - right. right. by left.
  - reflexivity.
  - vm_compute. reflexivity.
  - vm_compute. reflexivity.
Defined.

(** X18. Once the read loop has ended, a pending request never returns. The
    loop of [read_packets] ends at the first exception (a closed
    connection, a packet without [id]); from then on, whatever is
    requested, received or resumed, a call that was waiting is still
    waiting, its event unset, and nothing more is broadcast. *)
Theorem dead_read_loop_strands_requests (c : Client) (err : exn) (k : string)
    (e : nat) (trace : list client_event) :
  read_task c = Some err -> In (k, e) (waiting c) -> events c !! e = Some false ->
  read_task (client_run c trace) = Some err
  /\ In (k, e) (waiting (client_run c trace))
  /\ events (client_run c trace) !! e = Some false
  /\ broadcast_tasks (client_run c trace) = broadcast_tasks c.
Proof.
  revert c. induction trace as [|ev trace IH]; intros c Hread Hin He; [done|].
  simpl.
  assert (read_task (client_step c ev) = Some err
          /\ In (k, e) (waiting (client_step c ev))
          /\ events (client_step c ev) !! e = Some false
          /\ broadcast_tasks (client_step c ev) = broadcast_tasks c)
    as (Hread' & Hin' & He' & Hb').
  { destruct ev as [p|r|i]; simpl.
    - destruct (heap c !! p) as [obj|] eqn:Hp;
        [|rewrite request_not_dict; [done|intros d; congruence]].
      destruct obj as [| | | | |d| |];
        try (rewrite request_not_dict; [done|intros d'; congruence]).
      rewrite (request_eq p c d Hp). simpl.
      split; [done|]. split; [|split; [|done]].
      + destruct (write_packet _ _).1; [apply in_or_app; by left|done].
      + rewrite lookup_app_l; [done|by eapply lookup_lt_Some].
    - by rewrite Hread.
    - unfold resume. destruct (waiting c !! i) as [[k' e']|] eqn:Hi; [|done].
      destruct (events c !! e') as [[]|] eqn:He'; [|done|done].
      simpl. split; [done|]. split; [|done].
      apply (In_delete_other _ (k', e')); [done|done|].
      intros [= <- <-]. congruence. }
  destruct (IH (client_step c ev) Hread' Hin' He') as (? & ? & ? & Hb).
  by rewrite Hb.
Qed.

Lemma dead_read_loop_strands_requests_witness :
  In ("c0", 0)
    (waiting (client_run stranded_client
                [Received (Ok (response "c0" 2)); Resumed 0])).
Proof.
  apply (fun H1 H2 H3 =>
    proj1 (proj2 (dead_read_loop_strands_requests stranded_client (KeyError "id")
                    "c0" 0 [Received (Ok (response "c0" 2)); Resumed 0] H1 H2 H3)));
    vm_compute; [reflexivity|by left|reflexivity].
Defined.

(** ** The wrappers of [request] *)

Lemma request_new_fits (d : list (string * value)) (c : Client) :
  fits (VDict (dict_set "id" (VStr ("c" +:+ string_of_N (current_id c))) d)) ->
  request_new d c
  = mkClient
      (<[fresh (dom (heap c))
         := VDict (dict_set "id" (VStr ("c" +:+ string_of_N (current_id c))) d)]>
         (heap c))
      (mkStream (reader (stream c))
         (writer (stream c)
          ++ frame (dumps (VDict (dict_set "id"
                                    (VStr ("c" +:+ string_of_N (current_id c))) d)))))
      (<["c" +:+ string_of_N (current_id c) := (length (events c), None)]>
         (expected_packets c))
      (events c ++ [false]) (current_id c + 1)%N (broadcast_tasks c) (read_task c)
      (waiting c ++ [("c" +:+ string_of_N (current_id c), length (events c))])
      (finished c).
Proof.
  intros Hfit. unfold request_new.
  erewrite request_eq by (cbn [heap]; apply lookup_insert_eq).
  cbn [heap stream expected_packets events current_id broadcast_tasks read_task
       waiting finished].
  cbv zeta. rewrite (write_packet_fits _ _ Hfit). cbn [fst snd].
  by rewrite insert_insert_eq.
Qed.

Lemma request_new_requested (d : list (string * value)) (c : Client) :
  ~ In "id" (map fst d) ->
  fits (VDict (d ++ [("id", VStr ("c" +:+ string_of_N (current_id c)))])) ->
  requested d c (request_new d c).
Proof.
  intros Hfresh Hfit.
  pose proof (dict_set_fresh "id" (VStr ("c" +:+ string_of_N (current_id c))) d Hfresh)
    as Hset.
  rewrite <- Hset in Hfit.
  unfold requested. rewrite (request_new_fits d c Hfit). rewrite Hset.
  cbn [stream writer waiting heap].
  split; [done|]. split; [done|].
  intros p obj Hp. rewrite lookup_insert_ne; [done|].
  intros <-. apply (is_fresh (dom (heap c))). by apply elem_of_dom.
Qed.

(** X19. The wrappers send a dict of their own. [broadcast], [eval] and
    [exec] each build a new dict, so the [request] they make writes one
    frame that holds the members of that dict followed by the next
    identifier, parks the call, and changes none of the objects the callers
    hold: the packet given to [broadcast] travels inside the new dict and
    gets no [id] itself. *)
Theorem wrappers_send_own_dict (c : Client) (packet code : value) :
  (fits (VDict ([("type", VStr "broadcast-request"); ("packet", packet)]
                ++ [("id", VStr ("c" +:+ string_of_N (current_id c)))])) ->
   requested [("type", VStr "broadcast-request"); ("packet", packet)] c
     (broadcast packet c))
  /\ (fits (VDict ([("type", VStr "eval"); ("code", code)]
                   ++ [("id", VStr ("c" +:+ string_of_N (current_id c)))])) ->
      requested [("type", VStr "eval"); ("code", code)] c (Client_eval code c))
  /\ (fits (VDict ([("type", VStr "exec"); ("code", code)]
                   ++ [("id", VStr ("c" +:+ string_of_N (current_id c)))])) ->
      requested [("type", VStr "exec"); ("code", code)] c (exec code c)).
Proof.
  split; [|split]; intros Hfit; (apply request_new_requested; [|exact Hfit]);
    simpl; intros [?|[?|[]]]; discriminate.
Qed.

Lemma wrappers_send_own_dict_witness :
  requested [("type", VStr "broadcast-request"); ("packet", packet_without_id)]
    two_requests (broadcast packet_without_id two_requests)
  /\ requested [("type", VStr "eval"); ("code", VStr "1 + 1")] two_requests
       (Client_eval (VStr "1 + 1") two_requests)
  /\ requested [("type", VStr "exec"); ("code", VStr "1 + 1")] two_requests
       (exec (VStr "1 + 1") two_requests).
Proof.
  split; [|split].
  - apply (proj1 (wrappers_send_own_dict two_requests packet_without_id (VStr "1 + 1"))).
    vm_compute. discriminate.
  - apply (proj1 (proj2 (wrappers_send_own_dict two_requests packet_without_id
                           (VStr "1 + 1")))).
    vm_compute. discriminate.
  - apply (proj2 (proj2 (wrappers_send_own_dict two_requests packet_without_id
                           (VStr "1 + 1")))).
    vm_compute. discriminate.
Defined.

(** ** From one end to the other *)

Lemma receive_frame (loads : list byte -> result value) (payload : value) :
  fits payload -> receive loads (frame (dumps payload)) = loads (dumps payload).
Proof.
  unfold fits, receive. intros Hfit.
  assert (delivered (frame (dumps payload)) = [frame (dumps payload)]) as ->.
  { pose proof (dumps_nonempty payload) as Hne. unfold delivered, frame.
    destruct (int32_bytes _ ++ dumps payload) eqn:Happ; [|done].
    apply app_eq_nil in Happ as [_ ?]. done. }
  rewrite read_packet_whole_frame; [done|apply dumps_nonempty|lia].
Qed.

Lemma cj_loads_exact (parse : list byte -> result json)
    (order : list value -> list value) (payload : value) :
  parse (dumps payload) = Ok (to_json payload) ->
  from_json order (to_json payload) = Ok payload ->
  cj_loads parse order (dumps payload) = Ok payload.
Proof. unfold cj_loads. intros -> Hj. exact Hj. Qed.

Lemma auth_response_fits (b : bool) : fits (auth_response b (VStr "c0")).
Proof. destruct b; vm_compute; discriminate. Qed.

Lemma accept_auth_packet {H} (secret : string) (handlers : gmap string H)
    (guess : string) :
  server_run (new_server secret handlers)
    [Accepted; Arrived 0 (Ok (auth_packet guess "c0")); Served 0]
  = mkServer secret handlers false [0]
      [mkConnection
         (mkStream [] (frame (dumps (auth_response (String.eqb guess secret)
                                       (VStr "c0")))))
         [] (String.eqb guess secret)
         (if String.eqb guess secret then Draining else Returned)
         [auth_packet guess "c0"]]
      [].
Proof.
  unfold server_run, new_server.
  cbn [fold_left server_step accept arrive serve streams lookup app length
       list_lookup state inbox loop_top closing auth packet_handlers connections
       handler_tasks conn_stream authed packets_read insert list_insert].
  unfold handle_packet.
  cbn [authed negb py_get auth_packet dict_get String.eqb Ascii.eqb Bool.eqb
       default id py_eq auth py_getattr conn_stream packets_read app
       packet_handlers closing connections handler_tasks insert list_insert].
  destruct (String.eqb guess secret); rewrite write_packet_fits
    by apply auth_response_fits; reflexivity.
Qed.

Lemma connect_fresh (objects : gmap nat value) (guess : string) :
  fits (auth_packet guess "c0") ->
  connect (VStr guess) (new_client objects empty_stream)
  = mkClient (<[fresh (dom objects) := auth_packet guess "c0"]> objects)
      (mkStream [] (frame (dumps (auth_packet guess "c0"))))
      (<["c0" := (0, None)]> ∅) [false] 1%N [] None [("c0", 0)] [].
Proof.
  intros Hfit. unfold connect. rewrite request_new_fits by exact Hfit. reflexivity.
Qed.

(** X20. [connect] succeeds exactly when the secrets are equal. A new client
    that connects with the string [guess] to a new server configured with
    [secret], the frames reaching the other end whole: the server answers
    with an [auth-response] whose [success] tells whether the two strings
    are equal and keeps the connection in [self.connections] either way;
    the [request] of [connect] returns that answer; [connect] then returns
    normally if they are equal, and otherwise cancels the read task, closes
    the stream and raises. *)
Theorem connect_succeeds_iff_secret_matches {H} (parse : list byte -> result json)
    (order : list value -> list value) (secret guess : string)
    (handlers : gmap string H) (objects : gmap nat value) :
  fits (auth_packet guess "c0") ->
  parse (dumps (auth_packet guess "c0")) = Ok (to_json (auth_packet guess "c0")) ->
  (forall b, parse (dumps (auth_response b (VStr "c0")))
             = Ok (to_json (auth_response b (VStr "c0")))) ->
  let ok := String.eqb guess secret in
  let c := connect (VStr guess) (new_client objects empty_stream) in
  let srv := first_exchange (cj_loads parse order) secret handlers c in
  let c' := client_run c
              [Received (receive (cj_loads parse order) (written_to srv 0));
               Resumed 0] in
  connections srv = [0]
  /\ authed <$> streams srv !! 0 = Some ok
  /\ state <$> streams srv !! 0 = Some (if ok then Draining else Returned)
  /\ written_to srv 0 = frame (dumps (auth_response ok (VStr "c0")))
  /\ finished c' = [("c0", Ok (Some (auth_response ok (VStr "c0"))))]
  /\ waiting c' = []
  /\ connect_finish (Ok (Some (auth_response ok (VStr "c0")))) (mkSession c' false false)
     = (if ok then Connected else InvalidAuthorization,
        mkSession c' (negb ok) (negb ok)).
Proof.
  intros Hfit Hparse Hreply ok c srv c'.
  assert (srv = mkServer secret handlers false [0]
                  [mkConnection
                     (mkStream [] (frame (dumps (auth_response ok (VStr "c0")))))
                     [] ok (if ok then Draining else Returned)
                     [auth_packet guess "c0"]] []) as Hsrv.
  { unfold srv, first_exchange, c. rewrite (connect_fresh objects guess Hfit).
    cbn [stream writer]. rewrite (receive_frame _ _ Hfit).
    rewrite (cj_loads_exact parse order _ Hparse eq_refl).
    apply accept_auth_packet. }
  assert (c' = mkClient (<[fresh (dom objects) := auth_packet guess "c0"]> objects)
                 (mkStream [] (frame (dumps (auth_packet guess "c0"))))
                 (<["c0" := (0, Some (auth_response ok (VStr "c0")))]>
                    (<["c0" := (0, None)]> ∅))
                 [true] 1%N [] None []
                 [("c0", Ok (Some (auth_response ok (VStr "c0"))))]) as Hc'.
  { unfold c'. rewrite Hsrv. unfold written_to. cbn [streams lookup list_lookup
      conn_stream writer].
    rewrite (receive_frame _ _ (auth_response_fits ok)).
    rewrite (cj_loads_exact parse order _ (Hreply ok)) by (by destruct ok).
    unfold c. rewrite (connect_fresh objects guess Hfit).
    unfold client_run. cbn [fold_left client_step read_task].
    erewrite read_packets_known; [|reflexivity|apply lookup_insert_eq].
    unfold resume. cbn [waiting events expected_packets lookup list_lookup insert
      list_insert heap stream current_id broadcast_tasks read_task finished delete
      list_delete app].
    by rewrite lookup_insert_eq. }
  rewrite Hc', Hsrv. unfold written_to. cbn.
  repeat (split; [done|]). by destruct ok.
Qed.

Lemma connect_succeeds_iff_secret_matches_witness :
  connect_finish (Ok (Some (auth_response (String.eqb "guess" "password123") (VStr "c0"))))
    (mkSession
       (client_run (connect (VStr "guess") (new_client ∅ empty_stream))
          [Received
             (receive (cj_loads (parse_known handshake_payloads) id)
                (written_to
                   (first_exchange (cj_loads (parse_known handshake_payloads) id)
                      "password123" sample_handlers
                      (connect (VStr "guess") (new_client ∅ empty_stream))) 0));
           Resumed 0])
       false false)
  = (if String.eqb "guess" "password123" then Connected else InvalidAuthorization,
     mkSession
       (client_run (connect (VStr "guess") (new_client ∅ empty_stream))
          [Received
             (receive (cj_loads (parse_known handshake_payloads) id)
                (written_to
                   (first_exchange (cj_loads (parse_known handshake_payloads) id)
                      "password123" sample_handlers
                      (connect (VStr "guess") (new_client ∅ empty_stream))) 0));
           Resumed 0])
       (negb (String.eqb "guess" "password123"))
       (negb (String.eqb "guess" "password123"))).
Proof.
  apply (fun H1 H2 H3 =>
    proj2 (proj2 (proj2 (proj2 (proj2 (proj2
      (connect_succeeds_iff_secret_matches (parse_known handshake_payloads) id
         "password123" "guess" sample_handlers ∅ H1 H2 H3))))))).
  - vm_compute. discriminate.
  - vm_compute. reflexivity.
  - intros []; vm_compute; reflexivity.
Defined.

Lemma disconnect_packet_fits : fits disconnect_packet.
Proof. vm_compute. discriminate. Qed.

(** X21. [close] ends the connection at the server. On a stream that is
    open, [Client.close] cancels the read task, writes the frame of
    [{"type": "disconnect"}], which always fits, and closes the stream; it
    frees no record of [expected_packets] and wakes no waiting call. In
    every state a server reaches, when the bytes [close] wrote reach an
    authenticated connection that waits for a packet, the connection leaves
    [self.connections], its coroutine returns, and no handler task is
    created. On a stream that was closed before, [close] raises
    [ConnectionResetError] and nothing is written. *)
Theorem close_ends_connection {H} (parse : list byte -> result json)
    (order : list value -> list value) (s : Session) (secret : string)
    (handlers : gmap string H) (trace : list server_event) (sid : nat)
    (conn : Connection) :
  closed s = false ->
  parse (dumps disconnect_packet) = Ok (to_json disconnect_packet) ->
  streams (server_after secret handlers trace) !! sid = Some conn ->
  authed conn = true -> state conn = Reading -> inbox conn = [] ->
  let s' := (Client_close s).2 in
  let bytes := written_since (stream (session_client s)) (stream (session_client s')) in
  let srv' := server_run (server_after secret handlers trace)
                [Arrived sid (receive (cj_loads parse order) bytes); Served sid] in
  (Client_close s).1 = CloseReturned
  /\ cancelled s' = true /\ closed s' = true
  /\ Client_close s' = (ConnectionResetError, s')
  /\ bytes = frame (dumps disconnect_packet)
  /\ expected_packets (session_client s') = expected_packets (session_client s)
  /\ waiting (session_client s') = waiting (session_client s)
  /\ finished (session_client s') = finished (session_client s)
  /\ ~ In sid (connections srv')
  /\ handler_tasks srv' = handler_tasks (server_after secret handlers trace)
  /\ state <$> streams srv' !! sid = Some Returned.
Proof.
  intros Hopen Hparse Hs Hau Hst Hinbox s' bytes srv'.
  assert (Client_close s
          = (CloseReturned,
             mkSession
               (mkClient (heap (session_client s))
                  (mkStream (reader (stream (session_client s)))
                     (writer (stream (session_client s))
                      ++ frame (dumps disconnect_packet)))
                  (expected_packets (session_client s)) (events (session_client s))
                  (current_id (session_client s)) (broadcast_tasks (session_client s))
                  (read_task (session_client s)) (waiting (session_client s))
                  (finished (session_client s)))
               true true)) as Hclose.
  { unfold Client_close, send.
    by rewrite Hopen, (write_packet_fits _ _ disconnect_packet_fits). }
  assert (bytes = frame (dumps disconnect_packet)) as Hbytes.
  { unfold bytes, s', written_since. rewrite Hclose. cbn [snd session_client stream writer].
    by rewrite drop_app_length. }
  assert (Client_close s' = (ConnectionResetError, s')) as Hagain.
  { unfold s'. rewrite Hclose. unfold Client_close at 1. cbn [snd closed session_client].
    by rewrite (write_packet_fits _ _ disconnect_packet_fits). }
  split; [by rewrite Hclose|]. split; [unfold s'; by rewrite Hclose|].
  split; [unfold s'; by rewrite Hclose|]. split; [done|]. split; [done|].
  unfold s'. rewrite Hclose. cbn [fst snd cancelled closed session_client
    expected_packets waiting finished].
  repeat (split; [done|]).
  unfold srv'. rewrite Hbytes, (receive_frame _ _ disconnect_packet_fits).
  rewrite (cj_loads_exact parse order _ Hparse eq_refl).
  change (server_run (server_after secret handlers trace)
            [Arrived sid (Ok disconnect_packet); Served sid])
    with (server_step
            (server_step (server_after secret handlers trace)
               (Arrived sid (Ok disconnect_packet)))
            (Served sid)).
  assert (server_step (server_after secret handlers trace)
            (Arrived sid (Ok disconnect_packet))
          = server_after secret handlers (trace ++ [Arrived sid (Ok disconnect_packet)]))
    as Harr by (unfold server_after; by rewrite server_run_app).
  pose proof (server_after_inv secret handlers
                (trace ++ [Arrived sid (Ok disconnect_packet)])) as Hinv.
  assert (all_listed (server_after secret handlers
                        (trace ++ [Arrived sid (Ok disconnect_packet)]))) as Hall.
  { apply server_after_listed. }
  rewrite <- Harr in Hinv, Hall.
  set (srv := server_after secret handlers trace) in *.
  pose proof (lookup_lt_Some _ _ _ Hs) as Hlt.
  set (conn1 := mkConnection (conn_stream conn) [Ok disconnect_packet] true Reading
                  (packets_read conn)).
  assert (server_step srv (Arrived sid (Ok disconnect_packet))
          = mkServer (auth srv) (packet_handlers srv) (closing srv) (connections srv)
              (<[sid := conn1]> (streams srv)) (handler_tasks srv)) as Hstep.
  { simpl. unfold arrive. rewrite Hs, Hinbox, Hau, Hst. reflexivity. }
  rewrite Hstep in *.
  assert (In sid (connections srv)) as Hin.
  { destruct (Hall sid conn1) as ([Hin|(_ & Hret & _)] & _); [|done|done].
    simpl. by rewrite list_lookup_insert_eq. }
  destruct (list_remove_present sid _ Hin) as (conns & Hrm).
  destruct (list_remove_NoDup sid _ _ Hrm (si_nodup _ Hinv)) as [_ Hgone].
  erewrite serve_reading;
    [|simpl; by rewrite list_lookup_insert_eq|reflexivity|reflexivity].
  unfold handle_packet. cbn [authed conn1 negb py_getattr disconnect_packet dict_get
    String.eqb Ascii.eqb Bool.eqb py_eq connections].
  rewrite Hrm. cbn [connections handler_tasks streams].
  split; [done|]. split; [done|].
  rewrite list_lookup_insert_eq by (by rewrite length_insert). reflexivity.
Qed.

Lemma close_ends_connection_witness :
  (Client_close (mkSession two_requests false false)).1 = CloseReturned.
Proof.
  apply (fun H0 H1 H2 H3 H4 H5 =>
    proj1 (close_ends_connection (parse_known handshake_payloads) id
             (mkSession two_requests false false) "password123" sample_handlers
             authenticated_trace 0
             (mkConnection (mkStream [] (frame (dumps (auth_response true (VStr "c0")))))
                [] true Reading [auth_packet "password123" "c0"])
             H0 H1 H2 H3 H4 H5));
    vm_compute; reflexivity.
Defined.

(** ** The marker key at the top of a packet *)

Lemma result_mapM_keys {A B} (f : A -> result B) (o : list (string * A))
    (pairs : list (string * B)) :
  result_mapM (fun kv => v <- f kv.2 ;; Ok (kv.1, v)) o = Ok pairs ->
  map fst pairs = map fst o.
Proof.
  revert pairs. induction o as [|[k a] o IH]; simpl; intros pairs Hm.
  - by injection Hm as <-.
  - destruct (f a) as [b|]; simpl in Hm; [|done].
    destruct (result_mapM _ o) as [rest|]; simpl in Hm; [|done].
    injection Hm as <-. simpl. f_equal. by apply IH.
Qed.

Lemma dict_mem_set {V} (k k' : string) (v : V) (d : list (string * V)) :
  k = k' \/ dict_mem k d = true -> dict_mem k (dict_set k' v d) = true.
Proof.
  unfold dict_mem. intros [->|Hm].
  - by rewrite dict_get_set_eq.
  - destruct (String.eqb_spec k k') as [->|Hne]; [by rewrite dict_get_set_eq|].
    by rewrite dict_get_set_ne.
Qed.

Lemma dict_mem_of_pairs {V} (k : string) (pairs : list (string * V)) :
  In k (map fst pairs) -> dict_mem k (dict_of_pairs pairs) = true.
Proof.
  unfold dict_of_pairs.
  assert (forall acc : list (string * V),
            dict_mem k acc = true \/ In k (map fst pairs) ->
            dict_mem k (fold_left (fun d kv => dict_set kv.1 kv.2 d) pairs acc) = true)
    as Hgen.
  { induction pairs as [|[k' v] pairs IH]; simpl; intros acc [Hm|Hin]; try done.
    - apply IH. left. apply dict_mem_set. by right.
    - destruct Hin as [->|Hin]; [|apply IH; by right].
      apply IH. left. apply dict_mem_set. by left. }
  intros Hin. apply Hgen. by right.
Qed.

(** X22. An object with the key [_set_object] is never a packet. Whatever
    else the object holds, the hook turns it into a set (or raises), at the
    top of a packet as anywhere else; a set has no attributes [id], [type]
    or [get], so a client that reads such a packet ends its read loop with
    an [AttributeError] without broadcasting it, and a server ends the
    coroutine of the connection the same way, writing nothing and creating
    no handler task. *)
Theorem marked_object_is_no_packet (order : list value -> list value)
    (o : list (string * json)) (v : value) :
  In "_set_object" (map fst o) ->
  from_json order (JObj o) = Ok v ->
  (exists l, v = VSet l)
  /\ (forall c, read_task c = None ->
        client_step c (Received (Ok v))
        = mkClient (heap c) (stream c) (expected_packets c) (events c) (current_id c)
            (broadcast_tasks c) (Some (AttributeError "id")) (waiting c) (finished c))
  /\ (forall H (srv : Server H) sid conn rest,
        streams srv !! sid = Some conn -> state conn = Reading ->
        inbox conn = Ok v :: rest ->
        exists name,
          server_step srv (Served sid)
          = mkServer (auth srv) (packet_handlers srv) (closing srv) (connections srv)
              (<[sid := mkConnection (conn_stream conn) rest (authed conn)
                          (Failed (AttributeError name))
                          (packets_read conn ++ [v])]> (streams srv))
              (handler_tasks srv)).
Proof.
  intros Hin Hj.
  assert (exists l, v = VSet l) as [l ->].
  { simpl in Hj.
    destruct (result_mapM _ o) as [pairs|] eqn:Hm; simpl in Hj; [|done].
    apply result_mapM_keys in Hm. rewrite <- Hm in Hin.
    unfold special_obj_hook in Hj. rewrite (dict_mem_of_pairs _ _ Hin) in Hj.
    unfold py_set in Hj. destruct (py_iter _) as [els|]; simpl in Hj; [|done].
    destruct (forallb hashable els); [|done]. injection Hj as <-. by eexists. }
  split; [by eexists|]. split.
  - intros c Hread. simpl. by rewrite Hread.
  - intros H srv sid conn rest Hs Hst Hinbox.
    rewrite (serve_reading srv sid conn (VSet l) rest Hs Hst Hinbox).
    unfold handle_packet. destruct (authed conn); simpl; by eexists.
Qed.

Lemma marked_object_is_no_packet_witness :
  exists l, VSet [VInt 1; VInt 2] = VSet l.
Proof.
  apply (fun H1 H2 =>
    proj1 (marked_object_is_no_packet id marked_object (VSet [VInt 1; VInt 2]) H1 H2)).
  - vm_compute. right. by left.
  - vm_compute. reflexivity.
Defined.
